(** * linajea: greedy tracking, cost functions and blockwise solving

    A shallow embedding of
      - [linajea/tracking/track.py]            ([track], [greedy_track]),
      - [linajea/tracking/cost_functions.py]   (the indicator cost maps),
      - [linajea/process_blockwise/solve_blockwise.py]
                                               ([solve_blockwise], [solve_in_block]),
    with the properties of the design document stated over it.

    Conventions.
      - Python dictionaries with string keys (node and edge attribute
        dictionaries, the cost-function maps) are [gmap string _].
      - A networkx [DiGraph] is a pair of association lists kept in
        iteration order, because [sorted] is stable and therefore sees the
        order of [graph.edges(data=True)].
      - Finite Python floats and ints are the rationals they denote ([Q]);
        the comparisons [<], [>=], [==] of the source are exact on them,
        [+], [-] and [*] are those of the rationals (the rounding of
        floating-point arithmetic is not modelled).
      - A raised exception is a value [Err e] of the result type [res]. *)

From Stdlib Require Import ZArith QArith Lia Lqa List.
From stdpp Require Import gmap strings list fin_maps pretty sorting.

Open Scope Z_scope.

(** ** Python values and exceptions *)

Inductive PyVal : Type :=
| VNone
| VBool (b : bool)
| VInt (z : Z)
| VFloat (q : Q)
| VStr (s : string).

#[global] Instance Q_eq_dec : EqDecision Q.
Proof. solve_decision. Defined.
#[global] Instance PyVal_eq_dec : EqDecision PyVal.
Proof. solve_decision. Defined.

Inductive exn : Type :=
| KeyError
| TypeError
| ValueError
| IndexError
| RuntimeError
| AssertionError
| NetworkXError
| FileNotFoundError.

Inductive res (A : Type) : Type :=
| Ok (a : A)
| Err (e : exn).
Arguments Ok {A} a.
Arguments Err {A} e.

#[global] Instance res_ret : MRet res := fun _ a => Ok a.
#[global] Instance res_bind : MBind res := fun _ _ f m =>
  match m with
  | Ok a => f a
  | Err e => Err e
  end.

(** [for x in l: st = body(st, x)], stopping at the first exception. *)
Fixpoint foldM {A B} (body : B -> A -> res B) (st : B) (l : list A) : res B :=
  match l with
  | [] => Ok st
  | x :: l' => st' ← body st x; foldM body st' l'
  end.

(** Numbers: [bool] is a subtype of [int] in Python. *)
Definition as_num (v : PyVal) : option Q :=
  match v with
  | VBool b => Some (if b then 1%Q else 0%Q)
  | VInt z => Some (inject_Z z)
  | VFloat q => Some q
  | VNone | VStr _ => None
  end.

Definition Qlt_bool (x y : Q) : bool := negb (Qle_bool y x).

(** [d[key]] on an attribute dictionary. *)
Definition getitem (d : gmap string PyVal) (key : string) : res PyVal :=
  match d !! key with
  | Some v => Ok v
  | None => Err KeyError
  end.

(** [d[key]] where the value is then used as a number. *)
Definition getnum (d : gmap string PyVal) (key : string) : res Q :=
  v ← getitem d key;
  match as_num v with
  | Some q => Ok q
  | None => Err TypeError
  end.

(** ** networkx.DiGraph *)

Module DiGraph.

(** [nodes]: the node dictionary, [edges]: what [G.edges(data=True)]
    iterates over, both in iteration order. *)
Record t : Type := mk {
  nodes : list (Z * gmap string PyVal);
  edges : list ((Z * Z) * gmap string PyVal)
}.

Definition empty : t := mk [] [].

Definition node_ids (g : t) : list Z := (nodes g).*1.
Definition edge_keys (g : t) : list (Z * Z) := (edges g).*1.

(** The representation invariant of a networkx graph: dictionary keys are
    unique and every edge joins two nodes of the graph. *)
Definition wf (g : t) : Prop :=
  NoDup (node_ids g) /\ NoDup (edge_keys g) /\
  forall u v, (u, v) ∈ edge_keys g -> u ∈ node_ids g /\ v ∈ node_ids g.

Definition number_of_nodes (g : t) : nat := length (nodes g).
Definition number_of_edges (g : t) : nat := length (edges g).

Definition has_node (g : t) (n : Z) : bool := bool_decide (n ∈ node_ids g).
Definition has_edge (g : t) (u v : Z) : bool := bool_decide ((u, v) ∈ edge_keys g).

Definition out_edges (g : t) (u : Z) : list (Z * Z) :=
  filter (fun k => k.1 = u) (edge_keys g).
Definition in_edges (g : t) (v : Z) : list (Z * Z) :=
  filter (fun k => k.2 = v) (edge_keys g).
Definition in_degree (g : t) (v : Z) : nat := length (in_edges g v).

(** [G.add_node(n, **d)]: a new node, or an update of its attributes. *)
Definition add_node (g : t) (n : Z) (d : gmap string PyVal) : t :=
  if has_node g n
  then mk (map (fun nd => if bool_decide (nd.1 = n) then (n, d ∪ nd.2) else nd) (nodes g))
          (edges g)
  else mk (nodes g ++ [(n, d)]) (edges g).

(** [G.add_edge(u, v, **d)]: missing end points are created. *)
Definition add_edge (g : t) (u v : Z) (d : gmap string PyVal) : t :=
  let g1 := if has_node g u then g else mk (nodes g ++ [(u, ∅)]) (edges g) in
  let g2 := if has_node g1 v then g1 else mk (nodes g1 ++ [(v, ∅)]) (edges g1) in
  if has_edge g2 u v
  then mk (nodes g2)
          (map (fun e => if bool_decide (e.1 = (u, v)) then ((u, v), d ∪ e.2) else e) (edges g2))
  else mk (nodes g2) (edges g2 ++ [((u, v), d)]).

Definition add_nodes_from (g : t) (l : list (Z * gmap string PyVal)) : t :=
  foldl (fun g nd => add_node g nd.1 nd.2) g l.
Definition add_edges_from (g : t) (l : list ((Z * Z) * gmap string PyVal)) : t :=
  foldl (fun g e => add_edge g e.1.1 e.1.2 e.2) g l.

(** [G.remove_node(n)] takes the incident edges with it and raises when
    [n] is not a node. *)
Definition drop_node (g : t) (n : Z) : t :=
  mk (filter (fun nd => nd.1 ≠ n) (nodes g))
     (filter (fun e => e.1.1 ≠ n /\ e.1.2 ≠ n) (edges g)).
Definition remove_node (g : t) (n : Z) : res t :=
  if has_node g n then Ok (drop_node g n) else Err NetworkXError.

(** [G.remove_nodes_from(ns)] and [G.remove_edges_from(es)] silently skip
    what is not there. *)
Definition remove_nodes_from (g : t) (ns : list Z) : t :=
  foldl drop_node g ns.
Definition remove_edges_from (g : t) (es : list (Z * Z)) : t :=
  mk (nodes g) (filter (fun e => e.1 ∉ es) (edges g)).

(** [nx.set_edge_attributes(G, value, name)] with a constant [value]. *)
Definition set_edge_attributes (g : t) (value : PyVal) (name : string) : t :=
  mk (nodes g) (map (fun e => (e.1, <[name := value]> e.2)) (edges g)).

(** [G.edges[(u, v)][name] = value]; [G.edges[(u, v)]] raises [KeyError]
    for a missing edge. *)
Definition set_edge_attr (g : t) (k : Z * Z) (name : string) (value : PyVal) : res t :=
  if has_edge g k.1 k.2
  then Ok (mk (nodes g)
              (map (fun e => if bool_decide (e.1 = k) then (k, <[name := value]> e.2) else e)
                   (edges g)))
  else Err KeyError.

(** [G.edges[(u, v)]]. *)
Definition edge_data (g : t) (k : Z * Z) : option (gmap string PyVal) :=
  match list_find (fun e => e.1 = k) (edges g) with
  | Some (_, e) => Some e.2
  | None => None
  end.

End DiGraph.

(** ** tracking/track.py: greedy_track *)

(** [sorted(l, key=...)]: a stable sort, here by insertion; an element goes
    in front of the first one whose key is not smaller. *)
Fixpoint insert_by_key {A} (x : Q * A) (l : list (Q * A)) : list (Q * A) :=
  match l with
  | [] => [x]
  | y :: l' => if Qle_bool x.1 y.1 then x :: y :: l' else y :: insert_by_key x l'
  end.

Fixpoint sort_by_key {A} (l : list (Q * A)) : list (Q * A) :=
  match l with
  | [] => []
  | x :: l' => insert_by_key x (sort_by_key l')
  end.

(** [sorted(list(graph.edges(data=True)), key=lambda e: e[2][metric])] *)
Definition sorted_edges (g : DiGraph.t) (metric : string)
  : res (list ((Z * Z) * gmap string PyVal)) :=
  keyed ← mapM (fun e => q ← getnum e.2 metric; Ok (q, e)) (DiGraph.edges g);
  Ok ((sort_by_key keyed).*2).

(** The three graphs the function works on: the caller's [graph] and the
    locals [selected] and [unselected]. *)
Record greedy_state : Type := mk_greedy {
  graph : DiGraph.t;
  selected : DiGraph.t;
  unselected : DiGraph.t
}.

(** [if node_threshold:] - [None] and [0.0] are both false. *)
Definition threshold_active (node_threshold : option Q) : option Q :=
  match node_threshold with
  | Some th => if Qeq_bool th 0 then None else Some th
  | None => None
  end.

(** [for node, data in list(unselected.nodes(data=True)):
       if data['score'] < node_threshold: unselected.remove_node(node)] *)
Definition drop_below (th : Q) (uns : DiGraph.t) (nd : Z * gmap string PyVal)
  : res DiGraph.t :=
  score ← getnum nd.2 "score";
  if Qlt_bool score th then DiGraph.remove_node uns nd.1 else Ok uns.

Definition remove_below_threshold (node_threshold : option Q) (uns : DiGraph.t)
  : res DiGraph.t :=
  match threshold_active node_threshold with
  | Some th => foldM (drop_below th) uns (DiGraph.nodes uns)
  | None => Ok uns
  end.

(** The body of [for u, v, data in sorted_edges:]. *)
Definition greedy_step (selected_key : string) (st : greedy_state)
    (e : (Z * Z) * gmap string PyVal) : res greedy_state :=
  let '(u, v) := e.1 in
  if DiGraph.has_edge (unselected st) u v then
    g ← DiGraph.set_edge_attr (graph st) (u, v) selected_key (VBool true);
    let sel := DiGraph.add_edge (selected st) u v ∅ in
    let uns := DiGraph.remove_edges_from (unselected st) (DiGraph.out_edges g u) in
    let uns :=
      if (1 <? DiGraph.in_degree sel v)%nat
      then DiGraph.remove_edges_from uns (DiGraph.in_edges uns v)
      else uns in
    Ok (mk_greedy g sel uns)
  else Ok st.

(** Everything after the early return; the result keeps the two locals so
    that statements can speak about them. *)
Definition greedy_run (g : DiGraph.t) (selected_key metric : string)
    (node_threshold : option Q) : res greedy_state :=
  let sel := DiGraph.empty in
  let uns := DiGraph.add_nodes_from DiGraph.empty (DiGraph.nodes g) in
  let uns := DiGraph.add_edges_from uns (DiGraph.edges g) in
  let g := DiGraph.set_edge_attributes g (VBool false) selected_key in
  uns ← remove_below_threshold node_threshold uns;
  es ← sorted_edges g metric;
  foldM (greedy_step selected_key) (mk_greedy g sel uns) es.

(** [greedy_track(graph, selected_key, metric, frame_key, frames,
    node_threshold)]; [frame_key] and [frames] are not used by the body.
    The function returns nothing and mutates [graph]: the result is the
    graph the caller holds afterwards. *)
Definition greedy_track (g : DiGraph.t) (selected_key metric : string)
    (node_threshold : option Q) : res DiGraph.t :=
  if (DiGraph.number_of_nodes g =? 0)%nat then Ok g
  else st ← greedy_run g selected_key metric node_threshold; Ok (graph st).

(** ** daisy.Roi, as far as the sources look into it *)

Module Roi.

(** A region is an offset and a shape; a dimension without bound has
    [None] in both. *)
Record t : Type := mk {
  get_offset : list (option Z);
  get_shape : list (option Z)
}.

Definition get_begin (r : t) : list (option Z) := get_offset r.

Definition get_end (r : t) : list (option Z) :=
  zip_with (fun o s : option Z => match o, s with
                       | Some o, Some s => Some (o + s)
                       | _, _ => None
                       end)
           (get_offset r) (get_shape r).

End Roi.

(** ** Configuration objects (config/): the fields the sources read *)

(** [max_cell_move] is a number or a dictionary of numbers. *)
Inductive Distance : Type :=
| DistNum (q : Q)
| DistDict (d : gmap Z Q).

Record SolveParametersConfig : Type := {
  feature_func : string;
  weight_node_score : Q;
  selection_constant : Q;
  track_cost : Q;
  max_cell_move : Distance;
  weight_division : Q;
  division_constant : Q;
  weight_child : Q;
  weight_continuation : Q;
  weight_edge_score : Q;
  cell_cycle_key : option string;
  block_size : list Z;
  context : list Z
}.

Record SolveConfig : Type := {
  solver_type : string;
  check_node_close_to_roi : bool;
  parameters : list SolveParametersConfig;
  write_struct_svm : bool;
  add_node_density_constraints : bool
}.

Record TrackingConfig : Type := { solve : SolveConfig }.

(** ** tracking/track_graph.py: what the cost functions read of a TrackGraph *)

Module TrackGraph.

(** [begin] is [None] for a graph without nodes. *)
Record t : Type := mk {
  graph_data : DiGraph.t;
  begin : option Z;
  roi : Roi.t
}.

End TrackGraph.

(** ** daisy.SharedSubgraph: a graph together with the region it was read from *)

Module SharedSubgraph.

Record t : Type := mk {
  digraph : DiGraph.t;
  roi : Roi.t
}.

Definition with_digraph (g : t) (d : DiGraph.t) : t := mk d (roi g).

End SharedSubgraph.

(** ** Code that mutates an object: a result together with the object afterwards *)

Definition M (S A : Type) : Type := S -> res A * S.

Definition retM {S A} (a : A) : M S A := fun s => (Ok a, s).

Definition bindM {S A B} (m : M S A) (f : A -> M S B) : M S B :=
  fun s => match m s with
           | (Ok a, s') => f a s'
           | (Err e, s') => (Err e, s')
           end.

(** A call that cannot touch the object. *)
Definition liftM {S A} (r : res A) : M S A := fun s => (r, s).

Definition getM {S} : M S S := fun s => (Ok s, s).
Definition putM {S} (s : S) : M S unit := fun _ => (Ok tt, s).

Notation "x <~ m ;; k" := (bindM m (fun x => k))
  (at level 100, m at next level, right associativity).
Notation "m ;;; k" := (bindM m (fun _ => k))
  (at level 100, right associativity).

Fixpoint forM {S A} (l : list A) (body : A -> M S unit) : M S unit :=
  match l with
  | [] => retM tt
  | x :: l' => body x ;;; forM l' body
  end.

(** ** tracking/cost_functions.py *)

(** A cost function takes a node or edge (its attribute dictionary) to a
    list of costs. *)
Definition cost_fn : Type := gmap string PyVal -> res (list Q).

Definition score_times_weight_plus_th_costs_fn (weight threshold : Q) (key : string)
    (feature_func : Q -> Q) : cost_fn :=
  fun obj => score ← getnum obj key; Ok [ (feature_func score * weight)%Q; threshold ].

Definition score_times_weight_costs_fn (weight : Q) (key : string)
    (feature_func : Q -> Q) : cost_fn :=
  fun obj => score ← getnum obj key; Ok [ (feature_func score * weight)%Q ].

Definition constant_costs_fn (weight : Q)
    (zero_if_true : gmap string PyVal -> res bool) : cost_fn :=
  fun obj => zero_if_true obj ≫= fun b : bool => Ok (if b then [ 0%Q ] else [ weight ]).

(** The default [zero_if_true=lambda _: False]. *)
Definition never : gmap string PyVal -> res bool := fun _ => Ok false.

(** [==] on values: numbers by value, [None] and strings by identity of
    content, anything else differs. *)
Definition py_eq (a b : PyVal) : bool :=
  match as_num a, as_num b with
  | Some x, Some y => Qeq_bool x y
  | _, _ =>
    match a, b with
    | VNone, VNone => true
    | VStr s, VStr s' => bool_decide (s = s')
    | _, _ => false
    end
  end.

Definition of_opt_int (n : option Z) : PyVal :=
  match n with Some z => VInt z | None => VNone end.

Definition is_nth_frame (n : option Z) (frame_key : string)
  : gmap string PyVal -> res bool :=
  fun obj => v ← getitem obj frame_key; Ok (py_eq v (of_opt_int n)).

(** [min(distance.values())]: the running minimum is replaced by a
    strictly smaller item; [min] of nothing raises [ValueError]. *)
Definition py_min (m x : Q) : Q := if Qlt_bool x m then x else m.

Definition min_values (d : gmap Z Q) : res Q :=
  match (map_to_list d).*2 with
  | [] => Err ValueError
  | q :: qs => Ok (foldl py_min q qs)
  end.

Definition resolve_distance (distance : Distance) : res Q :=
  match distance with
  | DistDict d => min_values d
  | DistNum q => Ok q
  end.

(** [t[index]] on a tuple. *)
Definition index {A} (t : list A) (i : nat) : res A :=
  match t !! i with
  | Some a => Ok a
  | None => Err IndexError
  end.

(** A number compared with a coordinate; [None] does not compare. *)
Definition num_of_coord (c : option Z) : res Q :=
  match c with
  | Some z => Ok (inject_Z z)
  | None => Err TypeError
  end.

Definition num_of (v : PyVal) : res Q :=
  match as_num v with
  | Some q => Ok q
  | None => Err TypeError
  end.

(** The loop [for index, dim in enumerate(['z', 'y', 'x'])] of [is_close]. *)
Fixpoint is_close_loop (dist : Q) (begin end_ : list (option Z))
    (obj : gmap string PyVal) (dims : list (nat * string)) : res bool :=
  match dims with
  | [] => Ok false
  | (i, dim) :: dims' =>
    node_dim ← getitem obj dim;
    begin_dim ← index begin i;
    end_dim ← index end_ i;
    node_dim ← num_of node_dim;
    hi ← num_of_coord end_dim;
    if Qle_bool hi (node_dim + dist) then Ok true
    else
      lo ← num_of_coord begin_dim;
      if Qlt_bool (node_dim - dist) lo then Ok true
      else is_close_loop dist begin end_ obj dims'
  end.

Definition spatial_dims : list (nat * string) := [ (0%nat, "z"); (1%nat, "y"); (2%nat, "x") ].

Definition is_close_to_roi_border (roi : Roi.t) (distance : Distance)
  : gmap string PyVal -> res bool :=
  fun obj =>
    dist ← resolve_distance distance;
    let begin := tail (Roi.get_begin roi) in
    let end_ := tail (Roi.get_end roi) in
    is_close_loop dist begin end_ obj spatial_dims.

(** The three feature functions; [np_log] stands for [numpy.log]. *)
Definition resolve_feature_func (np_log : Q -> Q) (tag : string) : res (Q -> Q) :=
  if bool_decide (tag = "noop") then Ok (fun x => x)
  else if bool_decide (tag = "log") then Ok np_log
  else if bool_decide (tag = "square") then Ok (fun x => (x * x)%Q)
  else Err RuntimeError.

(** The [zero_if_true] of [node_appear]:
    [is_nth_frame(graph.begin)(obj) or
     (config.solve.check_node_close_to_roi and is_close_to_roi_border(...)(obj))]. *)
Definition appear_is_free (config : TrackingConfig) (params : SolveParametersConfig)
    (tg : TrackGraph.t) : gmap string PyVal -> res bool :=
  fun obj =>
    is_nth_frame (TrackGraph.begin tg) "t" obj ≫= fun first : bool =>
    if first then Ok true
    else if check_node_close_to_roi (solve config)
         then is_close_to_roi_border (TrackGraph.roi tg) (max_cell_move params) obj
         else Ok false.

Definition get_default_node_indicator_costs (np_log : Q -> Q) (config : TrackingConfig)
    (params : SolveParametersConfig) (tg : TrackGraph.t) : res (gmap string cost_fn) :=
  ff ← resolve_feature_func np_log (feature_func params);
  let solver_type := solver_type (solve config) in
  let fn_map : gmap string cost_fn :=
    {[ "node_selected" :=
         score_times_weight_plus_th_costs_fn
           (weight_node_score params) (selection_constant params) "score" ff;
       "node_appear" :=
         constant_costs_fn (track_cost params) (appear_is_free config params tg) ]} in
  if bool_decide (solver_type = "basic") then
    Ok (<["node_split" := constant_costs_fn 1 never]> fn_map)
  else if bool_decide (solver_type = "cell_state") then
    let fn_map :=
      <["node_split" :=
          score_times_weight_plus_th_costs_fn
            (weight_division params) (division_constant params) "score_mother" ff]> fn_map in
    let fn_map :=
      <["node_child" :=
          score_times_weight_costs_fn (weight_child params) "score_daughter" ff]> fn_map in
    let fn_map :=
      <["node_continuation" :=
          score_times_weight_costs_fn
            (weight_continuation params) "score_continuation" ff]> fn_map in
    Ok fn_map
  else Ok fn_map.

Definition get_default_edge_indicator_costs (np_log : Q -> Q) (config : TrackingConfig)
    (params : SolveParametersConfig) : res (gmap string cost_fn) :=
  ff ← resolve_feature_func np_log (feature_func params);
  let solver_type := solver_type (solve config) in
  let fn_map : gmap string cost_fn :=
    {[ "edge_selected" :=
         score_times_weight_costs_fn (weight_edge_score params) "prediction_distance" ff ]} in
  if bool_decide (solver_type = "basic") then Ok fn_map else Ok fn_map.

(** *** The border, in the words of the design document *)



(** The number stored under [key], if there is one. *)
Definition num_at (obj : gmap string PyVal) (key : string) : option Q :=
  obj !! key ≫= as_num.

(** The recognized [feature_func] tags. *)
Definition known_feature_func (tag : string) : Prop :=
  tag = "noop" \/ tag = "log" \/ tag = "square".

(** ** tracking/track.py: track *)

(** [[p.cell_cycle_key + "mother" for p in config.solve.parameters]];
    [None + "mother"] is a [TypeError]. *)
Definition cell_cycle_mother_key (p : SolveParametersConfig) : res string :=
  match cell_cycle_key p with
  | Some s => Ok (s +:+ "mother")
  | None => Err TypeError
  end.

Definition cell_cycle_keys (config : TrackingConfig) : res (list string) :=
  mapM cell_cycle_mother_key (parameters (solve config)).

(** [any(keys)]: some key is a non-empty string. *)
Definition any_key (keys : list string) : bool :=
  existsb (fun k => negb (bool_decide (k = ""))) keys.

(** The inner loop with its [break]: some key is not in [data]. *)
Definition lacks_key (keys : list string) (data : gmap string PyVal) : bool :=
  existsb (fun k => bool_decide (data !! k = None)) keys.

Definition nodes_to_remove (keys : list string) (g : DiGraph.t) : list Z :=
  (filter (fun nd => lacks_key keys nd.2 = true) (DiGraph.nodes g)).*1.

(** [graph.remove_node(node)] on the caller's graph. *)
Definition remove_node_of (n : Z) : M SharedSubgraph.t unit :=
  g <~ getM;;
  d <~ liftM (DiGraph.remove_node (SharedSubgraph.digraph g) n);;
  putM (SharedSubgraph.with_digraph g d).

(** The first block of [track]: nodes without one of the keys leave the graph. *)
Definition remove_nodes_without_keys (keys : list string) : M SharedSubgraph.t unit :=
  if any_key keys then
    g <~ getM;;
    forM (nodes_to_remove keys (SharedSubgraph.digraph g)) remove_node_of
  else retM tt.

(** [for u, v, data in graph.edges(data=True):
       if (u, v) in track_graph.edges:
           data[key] = track_graph.edges[(u, v)][key]]
    over the edges still [todo]; [seen] are the edges already passed. *)
Fixpoint copy_flags (tg : DiGraph.t) (key : string)
    (seen todo : list ((Z * Z) * gmap string PyVal))
  : res unit * list ((Z * Z) * gmap string PyVal) :=
  match todo with
  | [] => (Ok tt, seen)
  | e :: todo' =>
    match DiGraph.edge_data tg e.1 with
    | Some d =>
      match d !! key with
      | Some flag => copy_flags tg key (seen ++ [(e.1, <[key := flag]> e.2)]) todo'
      | None => (Err KeyError, seen ++ todo)
      end
    | None => copy_flags tg key (seen ++ [e]) todo'
    end
  end.

Definition copy_flags_of (tg : DiGraph.t) (key : string) : M SharedSubgraph.t unit :=
  fun g =>
    let d := SharedSubgraph.digraph g in
    let '(r, es) := copy_flags tg key [] (DiGraph.edges d) in
    (r, SharedSubgraph.with_digraph g (DiGraph.mk (DiGraph.nodes d) es)).

Module Track.
Section track.

(** tracking/solver.py and the constructor of tracking/track_graph.py are
    not part of the sources at hand; [track] is stated over any of them.
    The solver works on its track graph, not on the caller's graph. *)
Variable Solver : Type.
(** [TrackGraph(graph_data=graph, frame_key=frame_key, roi=graph.roi)] *)
Variable new_TrackGraph : DiGraph.t -> string -> Roi.t -> res TrackGraph.t.
(** [Solver(track_graph, parameter, key, frames=..., write_struct_svm=...,
    block_id=..., check_node_close_to_roi=..., add_node_density_constraints=...)] *)
Variable new_Solver :
  TrackGraph.t -> SolveParametersConfig -> string -> option (Z * Z) -> bool ->
  option Z -> bool -> bool -> res Solver.
Variable update_objective : Solver -> SolveParametersConfig -> string -> res Solver.
Variable solve_ : Solver -> res Solver.
(** The track graph is shared with the solver, which writes its result
    into it: [track_graph_of s] is that graph as the solver has left it. *)
Variable track_graph_of : Solver -> TrackGraph.t.

(** The body of [for parameter, key in zip(parameters, selected_key):]. *)
Definition track_round (config : TrackingConfig) (tg : TrackGraph.t)
    (frames : option (Z * Z)) (block_id : option Z)
    (solver : option Solver) (pk : SolveParametersConfig * string)
  : M SharedSubgraph.t (option Solver) :=
  let '(parameter, key) := pk in
  s <~ liftM (match solver with
              | None =>
                new_Solver tg parameter key frames
                  (write_struct_svm (solve config)) block_id
                  (check_node_close_to_roi (solve config))
                  (add_node_density_constraints (solve config))
              | Some s => update_objective s parameter key
              end);;
  s <~ liftM (solve_ s);;
  copy_flags_of (TrackGraph.graph_data (track_graph_of s)) key;;;
  retM (Some s).

Fixpoint track_rounds (config : TrackingConfig) (tg : TrackGraph.t)
    (frames : option (Z * Z)) (block_id : option Z)
    (solver : option Solver) (pks : list (SolveParametersConfig * string))
  : M SharedSubgraph.t unit :=
  match pks with
  | [] => retM tt
  | pk :: pks' =>
    s <~ track_round config tg frames block_id solver pk;;
    track_rounds config tg frames block_id s pks'
  end.

(** [track] from [if graph.number_of_nodes() == 0:] to its end.
    [config.solve.parameters] has been iterated over by then, so it is a
    list and the [isinstance] branch does not apply. *)
Definition track_solve (config : TrackingConfig) (selected_key : list string)
    (frame_key : string) (frames : option (Z * Z)) (block_id : option Z)
  : M SharedSubgraph.t unit :=
  g <~ getM;;
  if (DiGraph.number_of_nodes (SharedSubgraph.digraph g) =? 0)%nat then retM tt
  else
    let parameters := parameters (solve config) in
    if negb (length parameters =? length selected_key)%nat then liftM (Err AssertionError)
    else
      tg <~ liftM (new_TrackGraph (SharedSubgraph.digraph g) frame_key
                     (SharedSubgraph.roi g));;
      track_rounds config tg frames block_id None (zip parameters selected_key).

(** [track(graph, config, selected_key, frame_key, frames, block_id)],
    with a list of selection keys. *)
Definition track (config : TrackingConfig) (selected_key : list string)
    (frame_key : string) (frames : option (Z * Z)) (block_id : option Z)
  : M SharedSubgraph.t unit :=
  keys <~ liftM (cell_cycle_keys config);;
  remove_nodes_without_keys keys;;;
  track_solve config selected_key frame_key frames block_id.

End track.
End Track.

(** ** The candidate database and the block bookkeeping *)

#[global] Instance Distance_eq_dec : EqDecision Distance.
Proof. solve_decision. Defined.
#[global] Instance SolveParametersConfig_eq_dec : EqDecision SolveParametersConfig.
Proof. solve_decision. Defined.

(** What is kept at [db_host] under [db_name]: the issued parameter ids,
    the candidate nodes and edges, and the done markers of blocks and of
    whole steps. *)
Record Store : Type := {
  parameter_ids : list (SolveParametersConfig * Z);
  db_nodes : list (Z * gmap string PyVal);
  db_edges : list ((Z * Z) * gmap string PyVal);
  done_blocks : gset (string * Z);
  done_steps : gset string
}.

(** The calls that leave the orchestrator, in the order they are made. *)
Inductive Call : Type :=
| CallTrack (nodes edges : nat)
| CallRunBlockwise (total_roi read_roi write_roi : Roi.t).

Record World : Type := {
  store : Store;
  calls : list Call
}.

Definition on_store {A} (m : M Store A) : M World A :=
  fun w => let '(r, st) := m (store w) in (r, {| store := st; calls := calls w |}).

Definition call (c : Call) : M World unit :=
  fun w => (Ok tt, {| store := store w; calls := calls w ++ [c] |}).

Module CandidateDatabase.

(** Modelled from the spec: [get_parameters_id] of the candidate database
    (linajea/candidate_database.py is not among the sources).  "An
    identifier issued by the external store for a given SolveParameters
    value (content-addressed: same parameters => same id)": a known
    parameter set has its id, an unknown one is issued the next id. *)
Definition get_parameters_id (p : SolveParametersConfig) : M Store Z :=
  fun st =>
    match list_find (fun e => e.1 = p) (parameter_ids st) with
    | Some (_, e) => (Ok e.2, st)
    | None =>
      let id := 1 + foldr Z.max 0 (parameter_ids st).*2 in
      (Ok id, {| parameter_ids := parameter_ids st ++ [(p, id)];
                 db_nodes := db_nodes st;
                 db_edges := db_edges st;
                 done_blocks := done_blocks st;
                 done_steps := done_steps st |})
    end.

(** Modelled from the spec: [set_parameters_id(pid)] followed by
    [reset_selection()], "clears previously written selection flags for
    that id" - the attribute ["selected_" + str(pid)] on nodes and edges. *)
Definition reset_selection (pid : Z) : M Store unit :=
  fun st =>
    let key := "selected_" +:+ pretty pid in
    (Ok tt, {| parameter_ids := parameter_ids st;
               db_nodes := map (fun nd => (nd.1, delete key nd.2)) (db_nodes st);
               db_edges := map (fun e => (e.1, delete key e.2)) (db_edges st);
               done_blocks := done_blocks st;
               done_steps := done_steps st |}).

(** The place of a node: its [t], [z], [y], [x], when it has them all. *)
Definition location (d : gmap string PyVal) : option (list Q) :=
  mapM (num_at d) ["t"; "z"; "y"; "x"].

Definition within (c : Q) (o s : option Z) : bool :=
  match o, s with
  | Some o, Some s => Qle_bool (inject_Z o) c && Qlt_bool c (inject_Z (o + s))
  | _, _ => true
  end.

Definition in_roi (roi : Roi.t) (d : gmap string PyVal) : bool :=
  match location d with
  | Some cs =>
    bool_decide (length cs = length (Roi.get_offset roi)) &&
    forallb (fun x => x)
            (zip_with (fun c os => within c os.1 os.2) cs
                      (zip (Roi.get_offset roi) (Roi.get_shape roi)))
  | None => false
  end.

(** Modelled from the spec: [get_graph(roi, edge_attrs)] "returns
    nodes/edges whose primary location lies in roi, restricted to requested
    edge attributes".  The place of an edge is that of its source node; the
    graph is filled through [add_edge], so a target outside the region
    enters it as a node without attributes. *)
Definition get_graph (roi : Roi.t) (edge_attrs : list string) (st : Store)
  : SharedSubgraph.t :=
  let ns := filter (fun nd => in_roi roi nd.2 = true) (db_nodes st) in
  let es := filter (fun e => e.1.1 ∈ ns.*1) (db_edges st) in
  let es := map (fun e => (e.1, filter (fun kv => kv.1 ∈ edge_attrs) e.2)) es in
  SharedSubgraph.mk
    (DiGraph.add_edges_from (DiGraph.add_nodes_from DiGraph.empty ns) es) roi.

(** Modelled from the spec: [graph.update_edge_attrs(roi, attributes)]
    "persists only the named attributes for edges within roi". *)
Definition update_edge_attrs (g : SharedSubgraph.t) (roi : Roi.t)
    (attributes : list string) : M Store unit :=
  fun st =>
    let d := SharedSubgraph.digraph g in
    let inside (k : Z * Z) : bool :=
      match list_find (fun nd => nd.1 = k.1) (DiGraph.nodes d) with
      | Some (_, nd) => in_roi roi nd.2
      | None => false
      end in
    let named (k : Z * Z) : gmap string PyVal :=
      match DiGraph.edge_data d k with
      | Some data => filter (fun kv => kv.1 ∈ attributes) data
      | None => ∅
      end in
    (Ok tt, {| parameter_ids := parameter_ids st;
               db_nodes := db_nodes st;
               db_edges := map (fun e => if inside e.1 then (e.1, named e.1 ∪ e.2) else e)
                               (db_edges st);
               done_blocks := done_blocks st;
               done_steps := done_steps st |}).

End CandidateDatabase.

(** A daisy block: its id and its two regions. *)
Record Block : Type := {
  block_id : Z;
  read_roi : Roi.t;
  write_roi : Roi.t
}.

Module daisy_check_functions.

(** Modelled from the spec: the block-done bookkeeping of
    process_blockwise/daisy_check_functions.py (not among the sources),
    "checkDone(stepName, blockId) -> bool, writeDone(stepName, blockId),
    checkAllDone(stepName) -> bool, writeAllDone(stepName)". *)
Definition check_function (block : Block) (step_name : string) : M Store bool :=
  fun st => (Ok (bool_decide ((step_name, block_id block) ∈ done_blocks st)), st).

Definition mark_block (block : Block) (step_name : string) (st : Store) : Store :=
  {| parameter_ids := parameter_ids st;
     db_nodes := db_nodes st;
     db_edges := db_edges st;
     done_blocks := {[ (step_name, block_id block) ]} ∪ done_blocks st;
     done_steps := done_steps st |}.

Definition write_done (block : Block) (step_name : string) : M Store unit :=
  fun st => (Ok tt, mark_block block step_name st).

Definition check_function_all_blocks (step_name : string) : M Store bool :=
  fun st => (Ok (bool_decide (step_name ∈ done_steps st)), st).

Definition write_done_all_blocks (step_name : string) : M Store unit :=
  fun st =>
    (Ok tt, {| parameter_ids := parameter_ids st;
               db_nodes := db_nodes st;
               db_edges := db_edges st;
               done_blocks := done_blocks st;
               done_steps := {[ step_name ]} ∪ done_steps st |}).

End daisy_check_functions.

(** ** process_blockwise/solve_blockwise.py *)

Module SolveBlockwise.
Section solve_blockwise.

(** [hash] on a frozenset of parameter ids: a function of the set. *)
Variable py_hash : gset Z -> Z.
(** daisy: [Roi.intersect], [Roi.grow] and the scheduler [run_blockwise]
    with its [process_function], its [check_function] and [num_workers]. *)
Variable roi_intersect : Roi.t -> Roi.t -> Roi.t.
Variable roi_grow : Roi.t -> list Z -> list Z -> Roi.t.
Variable run_blockwise :
  Roi.t -> Roi.t -> Roi.t -> (Block -> M World Z) -> (Block -> M World bool) -> Z ->
  M World bool.
(** [track] as [solve_in_block] calls it, on the graph, the parameter list
    and the selection keys; it works on the graph in memory. *)
Variable tracker :
  list SolveParametersConfig -> list string -> Z * Z -> M SharedSubgraph.t unit.
(** The parsed [attributes.json] of the sample directory that [data_dir]
    and [sample] lead to. *)
Variable read_attributes : string -> string -> res (gmap string (list Z)).

(** The name of the step, as [solve_blockwise] computes it ... *)
Definition step_name_blockwise (parameters_id : list Z) : string :=
  match parameters_id with
  | [pid] => "solve_" +:+ pretty pid
  | _ => "solve_" +:+ pretty (py_hash (list_to_set parameters_id))
  end.

(** ... and as [solve_in_block] computes it. *)
Definition step_name_in_block (parameters_id : list Z) : string :=
  match parameters_id with
  | [pid] => "solve_" +:+ pretty pid
  | _ => let _id := py_hash (list_to_set parameters_id) in "solve_" +:+ pretty _id
  end.

(** [['selected_' + str(pid) for pid in parameters_id]] *)
Definition selected_keys_of (parameters_id : list Z) : list string :=
  map (fun pid => "selected_" +:+ pretty pid) parameters_id.

(** [[n for n, data in graph.nodes(data=True) if 't' not in data]] *)
Definition dangling_nodes (g : DiGraph.t) : list Z :=
  (filter (fun nd => nd.2 !! "t" = None) (DiGraph.nodes g)).*1.

(** The sub-graph of a block as [solve_in_block] holds it after
    [graph.remove_nodes_from(dangling_nodes)]. *)
Definition block_graph (read_roi : Roi.t) (parameters_id : list Z) (st : Store)
  : SharedSubgraph.t :=
  let selected_keys := selected_keys_of parameters_id in
  let edge_attrs := selected_keys ++ ["prediction_distance"; "distance"] in
  let g := CandidateDatabase.get_graph read_roi edge_attrs st in
  SharedSubgraph.with_digraph g
    (DiGraph.remove_nodes_from (SharedSubgraph.digraph g)
                               (dangling_nodes (SharedSubgraph.digraph g))).

(** [[read_roi.get_offset()[0],
      read_roi.get_offset()[0] + read_roi.get_shape()[0]]] *)
Definition frames_of (read_roi : Roi.t) : res (Z * Z) :=
  o ← index (Roi.get_offset read_roi) 0;
  s ← index (Roi.get_shape read_roi) 0;
  match o, s with
  | Some o, Some s => Ok (o, o + s)
  | _, _ => Err TypeError
  end.

(** [solve_in_block(db_host, db_name, parameters, block, parameters_id,
    solution_roi)]; [db_host] and [db_name] name the store, which is the
    state here. *)
Definition solve_in_block (parameters : list SolveParametersConfig) (block : Block)
    (parameters_id : list Z) (solution_roi : option Roi.t) : M World Z :=
  let step_name := step_name_in_block parameters_id in
  let '(read_roi, write_roi) :=
    match solution_roi with
    | Some solution_roi =>
      (roi_intersect (read_roi block) solution_roi,
       roi_intersect (write_roi block) solution_roi)
    | None => (read_roi block, write_roi block)
    end in
  let selected_keys := selected_keys_of parameters_id in
  st <~ on_store getM;;
  let graph := block_graph read_roi parameters_id st in
  let num_nodes := DiGraph.number_of_nodes (SharedSubgraph.digraph graph) in
  let num_edges := DiGraph.number_of_edges (SharedSubgraph.digraph graph) in
  if (num_edges =? 0)%nat then
    on_store (daisy_check_functions.write_done block step_name);;;
    retM 0
  else
    frames <~ liftM (frames_of read_roi);;
    call (CallTrack num_nodes num_edges);;;
    let '(r, graph) := tracker parameters selected_keys frames graph in
    liftM r;;;
    on_store (CandidateDatabase.update_edge_attrs graph write_roi selected_keys);;;
    on_store (daisy_check_functions.write_done block step_name);;;
    retM 0.

(** The two [assert]s on each parameter set, against the block size and
    the context of the first one. *)
Definition check_block_size (p0 p : SolveParametersConfig) : res unit :=
  if negb (bool_decide (block_size p0 = block_size p)) then Err AssertionError
  else if negb (bool_decide (context p0 = context p)) then Err AssertionError
  else Ok tt.

(** [attributes[key]] *)
Definition attribute (attributes : gmap string (list Z)) (key : string) : res (list Z) :=
  match attributes !! key with
  | Some v => Ok v
  | None => Err KeyError
  end.

Fixpoint mapS {S A B} (f : A -> M S B) (l : list A) : M S (list B) :=
  match l with
  | [] => retM []
  | x :: l' => y <~ f x;; ys <~ mapS f l';; retM (y :: ys)
  end.

(** [solve_blockwise(db_host, db_name, sample, parameters, num_workers,
    frames, limit_to_roi, from_scratch, data_dir)] *)
Definition solve_blockwise (sample : string) (parameters : list SolveParametersConfig)
    (num_workers : Z) (frames : option (Z * Z)) (limit_to_roi : option Roi.t)
    (from_scratch : bool) (data_dir : string) : M World bool :=
  p0 <~ liftM (index parameters 0);;
  liftM (foldM (fun _ p => check_block_size p0 p) tt parameters);;;
  let block_size := block_size p0 in
  let context := context p0 in
  attributes <~ liftM (read_attributes data_dir sample);;
  voxel_size <~ liftM (attribute attributes "resolution");;
  shape <~ liftM (attribute attributes "shape");;
  offset <~ liftM (attribute attributes "offset");;
  let source_roi :=
    Roi.mk (Some <$> offset) (Some <$> zip_with Z.mul shape voxel_size) in
  parameters_id <~ on_store (mapS CandidateDatabase.get_parameters_id parameters);;
  (if from_scratch
   then on_store (forM parameters_id CandidateDatabase.reset_selection)
   else retM tt);;;
  let source_roi :=
    match frames with
    | Some (begin, end_) =>
      roi_intersect source_roi
        (Roi.mk [Some begin; None; None; None] [Some (end_ - begin); None; None; None])
    | None => source_roi
    end in
  let source_roi :=
    match limit_to_roi with
    | Some limit => roi_intersect source_roi limit
    | None => source_roi
    end in
  let block_write_roi := Roi.mk [Some 0; Some 0; Some 0; Some 0] (Some <$> block_size) in
  let block_read_roi := roi_grow block_write_roi context context in
  let total_roi := roi_grow source_roi context context in
  let step_name := step_name_blockwise parameters_id in
  done <~ on_store (daisy_check_functions.check_function_all_blocks step_name);;
  if (done : bool) then retM true
  else
    call (CallRunBlockwise total_roi block_read_roi block_write_roi);;;
    success <~ run_blockwise total_roi block_read_roi block_write_roi
                 (fun b => solve_in_block parameters b parameters_id (Some source_roi))
                 (fun b => on_store (daisy_check_functions.check_function b step_name))
                 num_workers;;
    (if (success : bool)
     then on_store (daisy_check_functions.write_done_all_blocks step_name)
     else retM tt);;;
    retM success.

End solve_blockwise.
End SolveBlockwise.

(** The id that the store has issued for a parameter set, if any. *)
Definition known_id (st : Store) (p : SolveParametersConfig) : option Z :=
  match list_find (fun e => e.1 = p) (parameter_ids st) with
  | Some (_, e) => Some e.2
  | None => None
  end.

(** The scenario graph of the design document. *)
Definition a0 : Z := 0.
Definition b1 : Z := 1.
Definition c1 : Z := 2.

Definition node_attrs (frame : Z) (score : Q) : gmap string PyVal :=
  {[ "t" := VInt frame; "score" := VFloat score ]}.

Definition scenario (metric : string) : DiGraph.t :=
  DiGraph.mk
    [ (a0, node_attrs 0 (9 # 10)); (b1, node_attrs 1 (8 # 10)); (c1, node_attrs 1 (2 # 10)) ]
    [ ((b1, a0), {[ metric := VFloat 1 ]}); ((c1, a0), {[ metric := VFloat 5 ]}) ].

(** ** The invariant of the greedy loop *)

(** The edge list of [graph] once the loop has put the edges [sel] into
    [selected]: every edge carries a flag, true exactly on [sel]. *)
Definition with_flags (selected_key : string) (sel : list (Z * Z))
    (es : list ((Z * Z) * gmap string PyVal)) : list ((Z * Z) * gmap string PyVal) :=
  map (fun e => (e.1, <[selected_key := VBool (bool_decide (e.1 ∈ sel))]> e.2)) es.

Definition flag_is_true (selected_key : string) (d : gmap string PyVal) : Prop :=
  d !! selected_key = Some (VBool true).
#[global] Instance flag_is_true_dec selected_key d : Decision (flag_is_true selected_key d).
Proof. unfold flag_is_true. apply _. Defined.

(** The selected edges leaving, respectively entering, node [n]. *)
Definition selected_out (g : DiGraph.t) (selected_key : string) (n : Z) :=
  filter (fun e => e.1.1 = n /\ flag_is_true selected_key e.2) (DiGraph.edges g).
Definition selected_in (g : DiGraph.t) (selected_key : string) (n : Z) :=
  filter (fun e => e.1.2 = n /\ flag_is_true selected_key e.2) (DiGraph.edges g).

(** What the loop of [greedy_track] keeps true of its three graphs; [g] is
    the caller's graph at entry and [uns0] is [unselected] as it enters the
    loop. *)
Record greedy_inv (g : DiGraph.t) (selected_key : string) (uns0 : DiGraph.t)
    (st : greedy_state) : Prop := {
  inv_nodes : DiGraph.nodes (graph st) = DiGraph.nodes g;
  inv_edges : DiGraph.edges (graph st)
              = with_flags selected_key (DiGraph.edge_keys (selected st)) (DiGraph.edges g);
  inv_uns_sub : forall k, k ∈ DiGraph.edge_keys (unselected st) -> k ∈ DiGraph.edge_keys uns0;
  inv_sel_sub : forall k, k ∈ DiGraph.edge_keys (selected st) -> k ∈ DiGraph.edge_keys uns0;
  inv_out : forall u v w,
    (u, v) ∈ DiGraph.edge_keys (selected st) -> (u, w) ∉ DiGraph.edge_keys (unselected st);
  inv_sel_nodup : NoDup (DiGraph.edge_keys (selected st));
  inv_out_deg : forall u, (length (DiGraph.out_edges (selected st) u) <= 1)%nat;
  inv_in_deg : forall v, (DiGraph.in_degree (selected st) v <= 2)%nat;
  inv_in_full : forall u v,
    (1 < DiGraph.in_degree (selected st) v)%nat -> (u, v) ∉ DiGraph.edge_keys (unselected st)
}.

(** A parameter set, a configuration and a track graph to run the cost
    functions on. *)
Definition example_parameters (feature_func : string) : SolveParametersConfig := {|
  feature_func := feature_func;
  weight_node_score := -13;
  selection_constant := 6;
  track_cost := 7;
  max_cell_move := DistDict {[ 0 := 45%Q; 50 := 35%Q ]};
  weight_division := -8;
  division_constant := 6;
  weight_child := 1;
  weight_continuation := -1;
  weight_edge_score := 35 # 100;
  cell_cycle_key := Some "vgg";
  block_size := [5; 512; 512; 512];
  context := [2; 100; 100; 100]
|}.

Definition example_config (solver_type : string) : TrackingConfig := {|
  solve := {|
    solver_type := solver_type;
    check_node_close_to_roi := true;
    parameters := [example_parameters "noop"];
    write_struct_svm := false;
    add_node_density_constraints := false
  |}
|}.

Definition example_track_graph : TrackGraph.t :=
  TrackGraph.mk (scenario "prediction_distance") (Some 0)
    (Roi.mk [Some 0; Some 0; Some 0; Some 0] [Some 5; Some 200; Some 200; Some 200]).

Definition example_node (frame : Z) (z y x : Q) : gmap string PyVal :=
  {[ "t" := VInt frame; "z" := VFloat z; "y" := VFloat y; "x" := VFloat x;
     "score" := VFloat (9 # 10) ]}.

(** A store that holds the scenario with positions, the id 1 issued for
    the example parameters, a selection under that id and the step of id 1
    marked done. *)
Definition example_store : Store := {|
  parameter_ids := [ (example_parameters "noop", 1) ];
  db_nodes := [ (a0, example_node 0 100 100 100);
                (b1, example_node 1 100 100 100);
                (c1, example_node 1 100 180 100) ];
  db_edges := [ ((b1, a0), {[ "distance" := VFloat 1; "selected_1" := VBool true ]});
                ((c1, a0), {[ "distance" := VFloat 5; "selected_1" := VBool false ]}) ];
  done_blocks := ∅;
  done_steps := {[ "solve_1" ]}
|}.

Definition example_world : World := {| store := example_store; calls := [] |}.

(** The block that reads frame 1 only: both edges start in it and end
    outside of it. *)
Definition example_block : Block := {|
  block_id := 7;
  read_roi := Roi.mk [Some 1; Some 0; Some 0; Some 0] [Some 1; Some 200; Some 200; Some 200];
  write_roi := Roi.mk [Some 1; Some 0; Some 0; Some 0] [Some 1; Some 200; Some 200; Some 200]
|}.

(** Stand-ins for the hash, the region operations, the scheduler, the
    tracker and the attribute file, to run the orchestrator on. *)
Definition example_hash (ids : gset Z) : Z := set_fold Z.add 0 ids.
Definition example_intersect (a b : Roi.t) : Roi.t := a.
Definition example_grow (r : Roi.t) (lo hi : list Z) : Roi.t := r.
Definition example_run_blockwise (total read write : Roi.t)
    (process : Block -> M World Z) (check : Block -> M World bool) (num_workers : Z)
  : M World bool :=
  process example_block;;; retM true.
Definition example_tracker (parameters : list SolveParametersConfig)
    (selected_keys : list string) (frames : Z * Z) : M SharedSubgraph.t unit :=
  retM tt.
Definition example_read_attributes (data_dir sample : string)
  : res (gmap string (list Z)) :=
  Ok {[ "resolution" := [1; 5; 1; 1]; "shape" := [5; 40; 200; 200];
        "offset" := [0; 0; 0; 0] ]}.

(** A solver that keeps the track graph it is given and selects nothing. *)
Definition example_new_TrackGraph (g : DiGraph.t) (frame_key : string) (roi : Roi.t)
  : res TrackGraph.t :=
  Ok (TrackGraph.mk g None roi).
Definition example_new_Solver (tg : TrackGraph.t) (p : SolveParametersConfig)
    (key : string) (frames : option (Z * Z)) (write_struct_svm : bool)
    (block_id : option Z) (check_node_close_to_roi density : bool) : res TrackGraph.t :=
  Ok tg.
Definition example_update_objective (s : TrackGraph.t) (p : SolveParametersConfig)
    (key : string) : res TrackGraph.t :=
  Ok s.
Definition example_solve (s : TrackGraph.t) : res TrackGraph.t :=
  Ok (TrackGraph.mk (DiGraph.set_edge_attributes (TrackGraph.graph_data s) (VBool false) "selected")
                    (TrackGraph.begin s) (TrackGraph.roi s)).

(** A configuration whose only parameter set has the given cell-cycle key. *)
Definition config_with_key (key : option string) : TrackingConfig := {|
  solve := {|
    solver_type := "basic";
    check_node_close_to_roi := false;
    parameters := [ {|
      feature_func := "noop";
      weight_node_score := -13;
      selection_constant := 6;
      track_cost := 7;
      max_cell_move := DistNum 45;
      weight_division := -8;
      division_constant := 6;
      weight_child := 1;
      weight_continuation := -1;
      weight_edge_score := 35 # 100;
      cell_cycle_key := key;
      block_size := [5; 512; 512; 512];
      context := [2; 100; 100; 100]
    |} ];
    write_struct_svm := false;
    add_node_density_constraints := false
  |}
|}.

Definition example_subgraph : SharedSubgraph.t :=
  SharedSubgraph.mk (scenario "prediction_distance")
    (Roi.mk [Some 0; Some 0; Some 0; Some 0] [Some 5; Some 200; Some 200; Some 200]).

(** The caller's graph after the scenario run: edge [(b1, a0)] flagged. *)
Definition scenario_result (selected_key metric : string) : DiGraph.t :=
  DiGraph.mk (DiGraph.nodes (scenario metric))
             (with_flags selected_key [(b1, a0)] (DiGraph.edges (scenario metric))).

(** [graph.edges[k].get(selected_key)]: the flag an edge carries, if any. *)
Definition edge_flag (g : DiGraph.t) (k : Z * Z) (selected_key : string) : option PyVal :=
  match DiGraph.edge_data g k with
  | Some d => d !! selected_key
  | None => None
  end.

(** Node [n] of [g] is one that the threshold pass takes out of
    [unselected]: the threshold is in force and the node's score is below. *)
Definition below_threshold (g : DiGraph.t) (node_threshold : option Q) (n : Z) : Prop :=
  exists th d score,
    threshold_active node_threshold = Some th /\
    (n, d) ∈ DiGraph.nodes g /\
    getnum d "score" = Ok score /\
    Qlt_bool score th = true.

(** An edge that can take no more: its source has a selected outgoing edge
    or its target has two selected incoming edges. *)
Definition saturated (sel : DiGraph.t) (k : Z * Z) : Prop :=
  (exists w, (k.1, w) ∈ DiGraph.edge_keys sel) \/ (2 <= DiGraph.in_degree sel k.2)%nat.

(** Two results that agree up to [R] on what they return. *)
Definition res_rel {A} (R : A -> A -> Prop) (r r' : res A) : Prop :=
  match r, r' with
  | Ok a, Ok a' => R a a'
  | Err e, Err e' => e = e'
  | _, _ => False
  end.

(** Two graphs with the same nodes and the same edges, attributes apart. *)
Definition same_keys (g g' : DiGraph.t) : Prop :=
  DiGraph.node_ids g = DiGraph.node_ids g' /\ DiGraph.edge_keys g = DiGraph.edge_keys g'.

(** Two states of the greedy loop that differ in the attributes kept in
    [unselected] at most. *)
Definition same_state (st st' : greedy_state) : Prop :=
  graph st = graph st' /\ selected st = selected st' /\
  same_keys (unselected st) (unselected st').

(** ** evaluation/analyze_results.py: get_sample_from_setup *)







(** ** prediction/predict.py: normalize *)

Module Predict.

(** [config.predict.normalization]: the fields that [normalize] reads. *)
Record NormalizeConfig : Type := {
  type : string;
  norm_bounds : option (list PyVal);
  perc_min : option string;
  perc_max : option string
}.

Record PredictConfig : Type := { normalization : option NormalizeConfig }.
Record Config : Type := { predict : PredictConfig }.

(** The gunpowder nodes that [normalize] appends, with the arguments they
    are built from; [interpolatable] is [None] where the call leaves it to
    the default. *)
Inductive Node : Type :=
| Normalize (array : string) (factor : Q)
| Clip (array : string) (mn mx : PyVal)
| NormalizeMinMax (array : string) (mn mx : PyVal) (interpolatable : option bool)
| NormalizeMeanStd (array : string) (mean std : PyVal)
| NormalizeMedianMad (array : string) (median mad : PyVal).

Definition array_of (n : Node) : string :=
  match n with
  | Normalize a _ | Clip a _ _ | NormalizeMinMax a _ _ _
  | NormalizeMeanStd a _ _ | NormalizeMedianMad a _ _ => a
  end.

(** [v/2] and [v*2]: true division needs a number, [*] also repeats a
    string. *)
Definition half (v : PyVal) : res PyVal :=
  match as_num v with
  | Some q => Ok (VFloat (Qred (q / 2)))
  | None => Err TypeError
  end.

Definition twice (v : PyVal) : res PyVal :=
  match v with
  | VBool b => Ok (VInt (if b then 2 else 0))
  | VInt z => Ok (VInt (z * 2))
  | VFloat q => Ok (VFloat (Qred (q * 2)))
  | VStr s => Ok (VStr (s +:+ s))
  | VNone => Err TypeError
  end.

(** [data_config['stats']]; subscripting [None] is a [TypeError]. *)
Definition stats_of (data_config : option (gmap string (gmap string PyVal)))
  : res (gmap string PyVal) :=
  match data_config with
  | Some dc => match dc !! "stats" with Some st => Ok st | None => Err KeyError end
  | None => Err TypeError
  end.

(** [data_config['stats'][key]]; no entry is stored under [None]. *)
Definition stat (data_config : option (gmap string (gmap string PyVal)))
    (key : option string) : res PyVal :=
  st ← stats_of data_config;
  match key with
  | Some k => getitem st k
  | None => Err KeyError
  end.

Section normalize.

(** [np.iinfo(dtype).max] *)
Variable iinfo_max : PyVal -> res Q.

Definition default_normalization (file_source : list Node) (raw : string)
    (data_config : option (gmap string (gmap string PyVal))) : res (list Node) :=
  dtype ← stat data_config (Some "dtype");
  m ← iinfo_max dtype;
  Ok (file_source ++ [Normalize raw (1 / m)]).

(** [normalize(file_source, config, raw, data_config=None)]; a pipeline is
    the list of its nodes, and [+] appends. *)
Definition normalize (file_source : list Node) (config : Config) (raw : string)
    (data_config : option (gmap string (gmap string PyVal))) : res (list Node) :=
  match normalization (predict config) with
  | None => default_normalization file_source raw data_config
  | Some n =>
    if bool_decide (type n = "default") then
      default_normalization file_source raw data_config
    else if bool_decide (type n = "minmax") then
      bounds ← match norm_bounds n with Some b => Ok b | None => Err TypeError end;
      mn ← index bounds 0;
      mx ← index bounds 1;
      lo ← half mn;
      hi ← twice mx;
      Ok (file_source ++ [Clip raw lo hi; NormalizeMinMax raw mn mx (Some false)])
    else if bool_decide (type n = "percminmax") then
      mn ← stat data_config (perc_min n);
      mx ← stat data_config (perc_max n);
      lo ← half mn;
      hi ← twice mx;
      Ok (file_source ++ [Clip raw lo hi; NormalizeMinMax raw mn mx None])
    else if bool_decide (type n = "mean") then
      mean ← stat data_config (Some "mean");
      std ← stat data_config (Some "std");
      mn ← stat data_config (perc_min n);
      mx ← stat data_config (perc_max n);
      Ok (file_source ++ [Clip raw mn mx; NormalizeMeanStd raw mean std])
    else if bool_decide (type n = "median") then
      median ← stat data_config (Some "median");
      mad ← stat data_config (Some "mad");
      mn ← stat data_config (perc_min n);
      mx ← stat data_config (perc_max n);
      Ok (file_source ++ [Clip raw mn mx; NormalizeMedianMad raw median mad])
    else Err RuntimeError
  end.

End normalize.
End Predict.

(** A prediction configuration with the given normalization, and the
    largest value of an unsigned 16-bit integer for every data type. *)
Definition example_predict_config (n : option Predict.NormalizeConfig) : Predict.Config :=
  {| Predict.predict := {| Predict.normalization := n |} |}.
Definition example_minmax : Predict.NormalizeConfig := {|
  Predict.type := "minmax";
  Predict.norm_bounds := Some [VInt 2000; VInt 7500];
  Predict.perc_min := None;
  Predict.perc_max := None
|}.
Definition example_iinfo_max (dtype : PyVal) : res Q := Ok 65535%Q.

(** Two graphs that differ in the values stored under [name] on their
    edges at most. *)
Definition agree_except (name : string) (g g' : DiGraph.t) : Prop :=
  DiGraph.nodes g = DiGraph.nodes g' /\
  Forall2 (fun e e' => e.1 = e'.1 /\ forall k, k ≠ name -> e.2 !! k = e'.2 !! k)
          (DiGraph.edges g) (DiGraph.edges g').

(** An edge and its later state: the same end points, and the same
    attributes except those called [names]. *)
Definition differ_only_on (names : list string)
    (e e' : (Z * Z) * gmap string PyVal) : Prop :=
  e.1 = e'.1 /\ forall a, a ∉ names -> e.2 !! a = e'.2 !! a.

(** The nodes the first block of [track] removes. *)
Definition pruned_nodes (keys : list string) (d : DiGraph.t) : list Z :=
  if any_key keys then nodes_to_remove keys d else [].

(** The scenario with cell-cycle scores under the key "vggmother" on the
    nodes [a0] and [b1]; [c1] has none. *)
Definition example_cycle_subgraph : SharedSubgraph.t :=
  SharedSubgraph.mk
    (DiGraph.mk
       [ (a0, <["vggmother" := VFloat (1 # 10)]> (node_attrs 0 (9 # 10)));
         (b1, <["vggmother" := VFloat (3 # 10)]> (node_attrs 1 (8 # 10)));
         (c1, node_attrs 1 (2 # 10)) ]
       [ ((b1, a0), {[ "prediction_distance" := VFloat 1 ]});
         ((c1, a0), {[ "prediction_distance" := VFloat 5 ]}) ])
    (Roi.mk [Some 0; Some 0; Some 0; Some 0] [Some 5; Some 200; Some 200; Some 200]).

(** [track] with the solver that selects nothing. *)
Definition example_track :=
  Track.track TrackGraph.t example_new_TrackGraph example_new_Solver
    example_update_objective example_solve (fun s => s).

(** What a block may change in the store: attributes of edges and the
    done markers of blocks, which only grow. *)
Definition store_frame (st st' : Store) : Prop :=
  parameter_ids st' = parameter_ids st /\
  db_nodes st' = db_nodes st /\
  (db_edges st').*1 = (db_edges st).*1 /\
  done_steps st' = done_steps st /\
  done_blocks st ⊆ done_blocks st'.

(** A parameter set with smaller blocks, the block that reads both frames
    of the scenario, a tracker that raises, a sample directory without
    [attributes.json] and one whose file has no "offset". *)
Definition config_parameters_small : SolveParametersConfig := {|
  feature_func := "noop";
  weight_node_score := -13;
  selection_constant := 6;
  track_cost := 7;
  max_cell_move := DistNum 45;
  weight_division := -8;
  division_constant := 6;
  weight_child := 1;
  weight_continuation := -1;
  weight_edge_score := 35 # 100;
  cell_cycle_key := None;
  block_size := [5; 256; 256; 256];
  context := [2; 100; 100; 100]
|}.
Definition example_wide_block : Block := {|
  block_id := 8;
  read_roi := Roi.mk [Some 0; Some 0; Some 0; Some 0] [Some 2; Some 200; Some 200; Some 200];
  write_roi := Roi.mk [Some 0; Some 0; Some 0; Some 0] [Some 2; Some 200; Some 200; Some 200]
|}.
Definition example_failing_tracker (parameters : list SolveParametersConfig)
    (selected_keys : list string) (frames : Z * Z) : M SharedSubgraph.t unit :=
  liftM (Err RuntimeError).
Definition example_no_attributes (data_dir sample : string)
  : res (gmap string (list Z)) :=
  Err FileNotFoundError.
Definition example_short_attributes (data_dir sample : string)
  : res (gmap string (list Z)) :=
  Ok {[ "resolution" := [1; 5; 1; 1]; "shape" := [5; 40; 200; 200] ]}.

(** A source with two ways to go: [b1] may move to [a0] or to [c1]. *)
Definition scenario_fork : DiGraph.t :=
  DiGraph.mk (DiGraph.nodes (scenario "distance"))
    [ ((b1, a0), {[ "distance" := VFloat 1 ]}); ((b1, c1), {[ "distance" := VFloat 3 ]}) ].
Definition scenario_fork_result : DiGraph.t :=
  DiGraph.mk (DiGraph.nodes scenario_fork)
             (with_flags "selected" [(b1, a0)] (DiGraph.edges scenario_fork)).

Arguments inv_nodes {g selected_key uns0 st} _.
Arguments inv_edges {g selected_key uns0 st} _.
Arguments inv_uns_sub {g selected_key uns0 st} _ k _.
Arguments inv_sel_sub {g selected_key uns0 st} _ k _.
Arguments inv_out {g selected_key uns0 st} _ u v w _.
Arguments inv_sel_nodup {g selected_key uns0 st} _.
Arguments inv_out_deg {g selected_key uns0 st} _ u.
Arguments inv_in_deg {g selected_key uns0 st} _ v.
Arguments inv_in_full {g selected_key uns0 st} _ u v _.

(** * Properties *)

Lemma filter_none {A} (P : A -> Prop) `{!forall x, Decision (P x)} (l : list A) :
  (forall x, x ∈ l -> ~ P x) -> filter P l = [].
Proof.
  induction l as [|x l IH]; intros Hl; [done|].
  rewrite filter_cons. destruct (decide (P x)) as [HP|_].
  - destruct (Hl x); [set_solver|done].
  - apply IH. intros y Hy. apply Hl. set_solver.
Qed.

(** ** Facts about the graph operations *)

Section digraph_facts.
Import DiGraph.
Implicit Types (g : DiGraph.t) (k : Z * Z) (es : list (Z * Z)).

Lemma has_edge_true g u v : has_edge g u v = true <-> (u, v) ∈ edge_keys g.
Proof. unfold has_edge. by rewrite bool_decide_eq_true. Qed.

Lemma has_node_true g n : has_node g n = true <-> n ∈ node_ids g.
Proof. unfold has_node. by rewrite bool_decide_eq_true. Qed.

Lemma elem_of_out_edges g u k : k ∈ out_edges g u <-> k ∈ edge_keys g /\ k.1 = u.
Proof. unfold out_edges. rewrite list_elem_of_filter. tauto. Qed.

Lemma elem_of_in_edges g v k : k ∈ in_edges g v <-> k ∈ edge_keys g /\ k.2 = v.
Proof. unfold in_edges. rewrite list_elem_of_filter. tauto. Qed.

Lemma edge_keys_remove_edges_from g es :
  edge_keys (remove_edges_from g es) = filter (fun k => k ∉ es) (edge_keys g).
Proof.
  unfold edge_keys, remove_edges_from; simpl.
  induction (edges g) as [|e l IH]; [done|].
  rewrite fmap_cons, !filter_cons.
  destruct (decide (e.1 ∉ es)); rewrite ?fmap_cons; by rewrite IH.
Qed.

Lemma elem_of_remove_edges_from g es k :
  k ∈ edge_keys (remove_edges_from g es) <-> k ∈ edge_keys g /\ k ∉ es.
Proof. rewrite edge_keys_remove_edges_from, list_elem_of_filter. tauto. Qed.

Lemma edge_keys_add_edge_new g u v d :
  (u, v) ∉ edge_keys g -> edge_keys (add_edge g u v d) = edge_keys g ++ [(u, v)].
Proof.
  intros Hnew. unfold add_edge.
  set (g1 := if has_node g u then g else _).
  set (g2 := if has_node g1 v then g1 else _).
  assert (edges g2 = edges g) as Hg2.
  { subst g2 g1. by repeat case_match. }
  assert (has_edge g2 u v = false) as ->.
  { apply not_true_is_false. rewrite has_edge_true. unfold edge_keys. by rewrite Hg2. }
  unfold edge_keys; simpl. by rewrite Hg2, fmap_app.
Qed.

Lemma edge_keys_set_edge_attributes g value name :
  edge_keys (set_edge_attributes g value name) = edge_keys g.
Proof.
  unfold edge_keys, set_edge_attributes; simpl.
  rewrite <- list_fmap_compose. by apply list_fmap_ext.
Qed.

Lemma elem_of_drop_node g n k :
  k ∈ edge_keys (drop_node g n) <-> k ∈ edge_keys g /\ k.1 ≠ n /\ k.2 ≠ n.
Proof.
  unfold edge_keys, drop_node; simpl. rewrite !list_elem_of_fmap. split.
  - intros (e & -> & He). apply list_elem_of_filter in He as [? ?]. eauto.
  - intros [(e & -> & He) ?]. exists e. split; [done|]. by apply list_elem_of_filter.
Qed.

(** Filling an empty graph from the items of a well-formed one copies it. *)
Lemma add_nodes_from_fresh (l0 l : list (Z * gmap string PyVal)) el :
  NoDup ((l0 ++ l).*1) ->
  add_nodes_from (mk l0 el) l = mk (l0 ++ l) el.
Proof.
  revert l0. induction l as [|[n d] l IH]; intros l0 Hnd; simpl.
  - by rewrite app_nil_r.
  - unfold add_node at 1. simpl.
    assert (has_node (mk l0 el) n = false) as ->.
    { apply not_true_is_false. rewrite has_node_true. unfold node_ids; simpl.
      rewrite fmap_app in Hnd. apply NoDup_app in Hnd as (_ & Hd & _).
      intros Hin. apply (Hd n Hin). set_solver. }
    unfold add_nodes_from in IH. rewrite IH.
    + by rewrite <- app_assoc.
    + by rewrite <- app_assoc.
Qed.

Lemma add_edges_from_fresh ns (l0 l : list ((Z * Z) * gmap string PyVal)) :
  NoDup ((l0 ++ l).*1) ->
  (forall u v, (u, v) ∈ l.*1 -> u ∈ ns.*1 /\ v ∈ ns.*1) ->
  add_edges_from (mk ns l0) l = mk ns (l0 ++ l).
Proof.
  revert l0. induction l as [|[[u v] d] l IH]; intros l0 Hnd Hends; simpl.
  - by rewrite app_nil_r.
  - destruct (Hends u v) as [Hu Hv]; [set_solver|].
    unfold add_edge at 1. simpl.
    assert (has_node (mk ns l0) u = true) as ->.
    { by apply has_node_true. }
    assert (has_node (mk ns l0) v = true) as ->.
    { by apply has_node_true. }
    assert (has_edge (mk ns l0) u v = false) as ->.
    { apply not_true_is_false. rewrite has_edge_true. unfold edge_keys; simpl.
      rewrite fmap_app in Hnd. apply NoDup_app in Hnd as (_ & Hd & _).
      intros Hin. apply (Hd _ Hin). set_solver. }
    simpl. unfold add_edges_from in IH. rewrite IH.
    + by rewrite <- app_assoc.
    + by rewrite <- app_assoc.
    + intros u' v' Hin. apply Hends. set_solver.
Qed.

Lemma copy_of_wf g :
  wf g ->
  add_edges_from (add_nodes_from empty (nodes g)) (edges g) = mk (nodes g) (edges g).
Proof.
  intros (Hn & He & Hends). unfold empty.
  rewrite (add_nodes_from_fresh [] (nodes g) []); [|done].
  simpl. by rewrite (add_edges_from_fresh (nodes g) [] (edges g)).
Qed.

End digraph_facts.

Section greedy_facts.
Import DiGraph.
Variable g : DiGraph.t.
Variable selected_key : string.
(** [unselected] as it enters the loop. *)
Variable uns0 : DiGraph.t.
Hypothesis uns0_sub : forall k, k ∈ edge_keys uns0 -> k ∈ edge_keys g.
Local Abbreviation greedy_inv := (greedy_inv g selected_key uns0).

Lemma with_flags_keys sel es : (with_flags selected_key sel es).*1 = es.*1.
Proof.
  unfold with_flags. rewrite <- list_fmap_compose. by apply list_fmap_ext.
Qed.

Lemma with_flags_step sel k es :
  map (fun e => if bool_decide (e.1 = k)
                then (k, <[selected_key := VBool true]> e.2) else e)
      (with_flags selected_key sel es)
  = with_flags selected_key (sel ++ [k]) es.
Proof.
  unfold with_flags. rewrite List.map_map. apply List.map_ext. intros [k' d]; simpl.
  case_bool_decide as Hk.
  - subst k'. rewrite insert_insert_eq. f_equal. f_equal. f_equal.
    symmetry. apply bool_decide_eq_true. set_solver.
  - f_equal. f_equal. f_equal. apply bool_decide_ext. set_solver.
Qed.

Lemma greedy_inv_init :
  greedy_inv (mk_greedy (set_edge_attributes g (VBool false) selected_key) empty uns0).
Proof.
  split; simpl; unfold in_degree, in_edges, out_edges, edge_keys; simpl;
    try done; try (intros; lia); try set_solver.
  constructor.
Qed.

Lemma greedy_step_inv st e st' :
  greedy_inv st -> greedy_step selected_key st e = Ok st' -> greedy_inv st'.
Proof.
  intros Inv. unfold greedy_step. destruct e as [[u v] d]; simpl.
  destruct (has_edge (unselected st) u v) eqn:Huv; [|by intros [= <-]].
  apply has_edge_true in Huv.
  unfold set_edge_attr; simpl.
  destruct (has_edge (graph st) u v) eqn:Hg; simpl; [|done].
  intros [= <-].
  assert (forall x, (u, x) ∉ edge_keys (selected st)) as Hfresh.
  { intros x Hx. by apply (inv_out Inv u x v). }
  pose proof (edge_keys_add_edge_new (selected st) u v ∅ (Hfresh v)) as Hsel.
  set (g' := mk (nodes (graph st)) _).
  assert (edges g' = with_flags selected_key (edge_keys (selected st) ++ [(u, v)]) (edges g))
    as Hedges.
  { subst g'; simpl. rewrite (inv_edges Inv). apply with_flags_step. }
  assert (edge_keys g' = edge_keys g) as Hkeys.
  { unfold edge_keys at 1. rewrite Hedges. apply with_flags_keys. }
  set (uns1 := remove_edges_from (unselected st) (out_edges g' u)).
  set (sel' := add_edge (selected st) u v ∅) in *.
  set (uns' := if (1 <? in_degree sel' v)%nat then _ else uns1).
  assert (forall k, k ∈ edge_keys uns' -> k ∈ edge_keys uns1) as Hsub1.
  { intros k. subst uns'. case_match; [|done].
    rewrite elem_of_remove_edges_from. tauto. }
  assert (forall k, k ∈ edge_keys uns' ->
                    k ∈ edge_keys (unselected st) /\ k.1 ≠ u) as Hsub.
  { intros k Hk. apply Hsub1 in Hk. subst uns1.
    apply elem_of_remove_edges_from in Hk as [Hk Hout]. split; [done|].
    intros Hku. apply Hout. apply elem_of_out_edges. split; [|done].
    rewrite Hkeys. apply uns0_sub. by apply (inv_uns_sub Inv). }
  assert (forall x, in_degree sel' x
                    = (in_degree (selected st) x + if decide (v = x) then 1 else 0)%nat)
    as Hin.
  { intros x. unfold in_degree, in_edges. rewrite Hsel, filter_app, length_app.
    f_equal. rewrite filter_cons, filter_nil.
    repeat case_decide; simpl in *; done. }
  assert (forall x, length (out_edges sel' x)
                    = (length (out_edges (selected st) x)
                       + if decide (u = x) then 1 else 0)%nat)
    as Hout.
  { intros x. unfold out_edges. rewrite Hsel, filter_app, length_app.
    f_equal. rewrite filter_cons, filter_nil.
    repeat case_decide; simpl in *; done. }
  split; simpl; fold sel'.
  - apply (inv_nodes Inv).
  - by rewrite Hsel.
  - intros k Hk. apply Hsub in Hk as [Hk _]. by apply (inv_uns_sub Inv).
  - intros k. rewrite Hsel, elem_of_app, list_elem_of_singleton.
    intros [Hk | ->]; [by apply (inv_sel_sub Inv)|by apply (inv_uns_sub Inv)].
  - intros u' v' w. rewrite Hsel, elem_of_app, list_elem_of_singleton.
    intros [Hk | [= -> ->]] Hw; apply Hsub in Hw as [Hw Hne].
    + by apply (inv_out Inv u' v' w).
    + done.
  - rewrite Hsel. apply NoDup_app. split; [apply (inv_sel_nodup Inv)|].
    split; [|apply NoDup_singleton].
    intros k Hk ->%list_elem_of_singleton. by apply (Hfresh v).
  - intros x. rewrite Hout. destruct (decide (u = x)) as [<-|].
    + assert (out_edges (selected st) u = []) as ->; [|simpl; lia].
      apply filter_none. intros [u' x] Hk Hu; simpl in Hu; subst u'.
      by apply (Hfresh x).
    + pose proof (inv_out_deg Inv x). lia.
  - intros x. rewrite Hin. destruct (decide (v = x)) as [<-|].
    + destruct (decide (1 < in_degree (selected st) v)%nat) as [Hfull|]; [|lia].
      by destruct (inv_in_full Inv u v Hfull).
    + pose proof (inv_in_deg Inv x). lia.
  - intros u' x Hdeg Hk. destruct (decide (v = x)) as [<-|Hne].
    + subst uns'. apply Nat.ltb_lt in Hdeg. rewrite Hdeg in Hk.
      apply elem_of_remove_edges_from in Hk as [Hk Hnot].
      apply Hnot. by apply elem_of_in_edges.
    + rewrite Hin in Hdeg. destruct (decide (v = x)); [done|].
      apply Hsub in Hk as [Hk _]. revert Hk. apply (inv_in_full Inv). lia.
Qed.

Lemma greedy_loop_inv es st st' :
  greedy_inv st -> foldM (greedy_step selected_key) st es = Ok st' -> greedy_inv st'.
Proof.
  revert st. induction es as [|e es IH]; intros st Inv; simpl.
  - by intros [= <-].
  - destruct (greedy_step selected_key st e) as [st1|] eqn:Hstep; simpl; [|done].
    apply IH. by apply (greedy_step_inv st e).
Qed.

(** The loop never raises: an edge it flags is an edge of [graph]. *)
Lemma greedy_loop_total es st :
  greedy_inv st -> exists st', foldM (greedy_step selected_key) st es = Ok st'.
Proof.
  revert st. induction es as [|e es IH]; intros st Inv; simpl; [by eexists|].
  assert (exists st1, greedy_step selected_key st e = Ok st1) as [st1 Hstep].
  { unfold greedy_step. destruct e as [[u v] d]; simpl.
    destruct (has_edge (unselected st) u v) eqn:Huv; [|by eexists].
    apply has_edge_true in Huv. unfold set_edge_attr; simpl.
    assert (has_edge (graph st) u v = true) as ->; [|by eexists].
    apply has_edge_true. unfold edge_keys at 1.
    rewrite (inv_edges Inv), with_flags_keys.
    apply uns0_sub. by apply (inv_uns_sub Inv). }
  rewrite Hstep. simpl. apply IH. by apply (greedy_step_inv st e).
Qed.

End greedy_facts.


(** ** The threshold pass *)

Section threshold_facts.
Import DiGraph.

Lemma drop_below_loop th l uns uns' :
  foldM (drop_below th) uns l = Ok uns' ->
  (forall k, k ∈ edge_keys uns' -> k ∈ edge_keys uns) /\
  (forall n d score, (n, d) ∈ l -> getnum d "score" = Ok score ->
     Qlt_bool score th = true ->
     forall k, k ∈ edge_keys uns' -> k.1 ≠ n /\ k.2 ≠ n).
Proof.
  revert uns. induction l as [|[n d] l IH]; intros uns; simpl.
  - intros [= <-]. split; [done|]. intros ??? Hin. by apply elem_of_nil in Hin.
  - destruct (drop_below th uns (n, d)) as [uns1|] eqn:Hdrop; simpl; [|done].
    intros Hloop. destruct (IH _ Hloop) as [Hsub Hgone]. clear IH.
    assert (forall k, k ∈ edge_keys uns1 -> k ∈ edge_keys uns) as Hsub1.
    { unfold drop_below in Hdrop; simpl in Hdrop.
      destruct (getnum d "score") as [score|]; simpl in Hdrop; [|done].
      destruct (Qlt_bool score th); [|by injection Hdrop as <-].
      unfold remove_node in Hdrop. destruct (has_node uns n); [|done].
      injection Hdrop as <-. intros k. rewrite elem_of_drop_node. tauto. }
    split; [by auto|].
    intros n' d' score Hin Hscore Hlt k Hk.
    apply elem_of_cons in Hin as [[= -> ->]|Hin]; [|by eapply Hgone].
    apply Hsub in Hk.
    unfold drop_below in Hdrop; simpl in Hdrop. rewrite Hscore in Hdrop; simpl in Hdrop.
    rewrite Hlt in Hdrop. unfold remove_node in Hdrop.
    destruct (has_node uns n); [|done]. injection Hdrop as <-.
    apply elem_of_drop_node in Hk. tauto.
Qed.

Lemma remove_below_threshold_spec g node_threshold uns0 :
  remove_below_threshold node_threshold (mk (nodes g) (edges g)) = Ok uns0 ->
  forall k, k ∈ edge_keys uns0 ->
    k ∈ edge_keys g /\
    ~ below_threshold g node_threshold k.1 /\ ~ below_threshold g node_threshold k.2.
Proof.
  unfold remove_below_threshold, below_threshold.
  destruct (threshold_active node_threshold) as [th|] eqn:Hth.
  - simpl. intros Hloop k Hk. destruct (drop_below_loop _ _ _ _ Hloop) as [Hsub Hgone].
    split; [by apply Hsub in Hk|].
    split; intros (th' & d & score & [= <-] & Hin & Hscore & Hlt);
      destruct (Hgone _ _ _ Hin Hscore Hlt k Hk); done.
  - intros [= <-]. intros k Hk. split; [done|].
    split; intros (th' & d & score & [=] & _).
Qed.

Lemma drop_below_total th l uns :
  NoDup l.*1 ->
  (forall nd, nd ∈ l -> nd.1 ∈ node_ids uns) ->
  (forall nd, nd ∈ l -> exists score, getnum nd.2 "score" = Ok score) ->
  exists uns', foldM (drop_below th) uns l = Ok uns'.
Proof.
  revert uns. induction l as [|[n d] l IH]; intros uns Hnd Hin Hscore.
  { by eexists. }
  rewrite fmap_cons in Hnd. apply NoDup_cons in Hnd as [Hfresh Hnd].
  destruct (Hscore (n, d)) as [score Hs]; [set_solver|]. simpl in Hs.
  cbn [foldM].
  assert (drop_below th uns (n, d)
          = if Qlt_bool score th then remove_node uns n else Ok uns) as ->.
  { unfold drop_below. simpl. by rewrite Hs. }
  destruct (Qlt_bool score th).
  - unfold remove_node.
    assert (has_node uns n = true) as ->.
    { apply has_node_true. apply (Hin (n, d)). set_solver. }
    simpl. apply IH; [done| |intros nd ?; apply Hscore; set_solver].
    intros nd Hl. pose proof (Hin nd ltac:(set_solver)) as Hold.
    unfold node_ids, drop_node in *; simpl.
    apply list_elem_of_fmap in Hold as (nd' & Heq & Hnd').
    apply list_elem_of_fmap. exists nd'. split; [done|].
    apply list_elem_of_filter. split; [|done].
    intros Hn. apply Hfresh. apply list_elem_of_fmap. exists nd. split; [simpl; congruence|done].
  - simpl. apply IH; [done| |intros nd ?; apply Hscore; set_solver].
    intros nd ?. apply Hin. set_solver.
Qed.

End threshold_facts.

Lemma mapM_res_total {A B} (f : A -> res B) (l : list A) :
  (forall x, x ∈ l -> exists y, f x = Ok y) -> exists ys, mapM f l = Ok ys.
Proof.
  induction l as [|x l IH]; intros Hall; [by eexists|].
  destruct (Hall x) as [y Hy]; [set_solver|].
  destruct IH as [ys Hys]; [intros z ?; apply Hall; set_solver|].
  simpl. rewrite Hy. simpl. rewrite Hys. by eexists.
Qed.

(** ** What a run of [greedy_track] leaves behind *)

Lemma greedy_run_inv g selected_key metric node_threshold st :
  DiGraph.wf g ->
  greedy_run g selected_key metric node_threshold = Ok st ->
  exists uns0,
    greedy_inv g selected_key uns0 st /\
    forall k, k ∈ DiGraph.edge_keys uns0 ->
      k ∈ DiGraph.edge_keys g /\
      ~ below_threshold g node_threshold k.1 /\ ~ below_threshold g node_threshold k.2.
Proof.
  intros Hwf. unfold greedy_run. rewrite (copy_of_wf g Hwf).
  destruct (remove_below_threshold _ _) as [uns0|] eqn:Hth; simpl; [|done].
  destruct (sorted_edges _ _) as [es|]; simpl; [|done].
  intros Hloop. exists uns0.
  pose proof (remove_below_threshold_spec g node_threshold uns0 Hth) as Huns.
  split; [|done].
  assert (forall k, k ∈ DiGraph.edge_keys uns0 -> k ∈ DiGraph.edge_keys g) as Hsub.
  { intros k Hk. by apply Huns. }
  refine (greedy_loop_inv g selected_key uns0 Hsub es _ st _ Hloop).
  by apply greedy_inv_init.
Qed.

(** [greedy_track] returns on a well-formed graph whose nodes carry a
    number as score (when a threshold is in force) and whose edges carry a
    number as metric. *)
Lemma greedy_track_returns g selected_key metric node_threshold :
  DiGraph.wf g ->
  (threshold_active node_threshold ≠ None ->
   forall nd, nd ∈ DiGraph.nodes g -> exists score, getnum nd.2 "score" = Ok score) ->
  (forall e, e ∈ DiGraph.edges g -> exists q, getnum e.2 metric = Ok q) ->
  exists g', greedy_track g selected_key metric node_threshold = Ok g'.
Proof.
  intros Hwf Hscore Hmetric. unfold greedy_track.
  destruct (DiGraph.number_of_nodes g =? 0)%nat; [by eexists|].
  assert (exists st, greedy_run g selected_key metric node_threshold = Ok st)
    as [st Hrun]; [|rewrite Hrun; by eexists].
  unfold greedy_run. rewrite (copy_of_wf g Hwf).
  assert (exists uns0,
            remove_below_threshold node_threshold
              (DiGraph.mk (DiGraph.nodes g) (DiGraph.edges g)) = Ok uns0)
    as [uns0 Hth].
  { unfold remove_below_threshold.
    destruct (threshold_active node_threshold) as [th|] eqn:Hact; [|by eexists].
    simpl. apply drop_below_total.
    - apply Hwf.
    - intros nd Hin. unfold DiGraph.node_ids; simpl.
      apply list_elem_of_fmap. eauto.
    - intros nd Hin. by apply Hscore. }
  rewrite Hth. simpl.
  assert (exists es,
            sorted_edges (DiGraph.set_edge_attributes g (VBool false) selected_key) metric
            = Ok es) as [es Hes].
  { unfold sorted_edges.
    destruct (mapM_res_total
                (fun e : Z * Z * gmap string PyVal => q ← getnum e.2 metric; Ok (q, e))
                (DiGraph.edges
                   (DiGraph.set_edge_attributes g (VBool false) selected_key)))
      as [keyed Hkeyed]; [|rewrite Hkeyed; by eexists].
    intros e' (e & <- & Hin)%list_elem_of_In%in_map_iff. simpl.
    apply list_elem_of_In in Hin. destruct (Hmetric e Hin) as [q Hq].
    unfold getnum, getitem in *.
    destruct (decide (selected_key = metric)) as [->|Hne].
    - rewrite lookup_insert_eq. simpl. by eexists.
    - rewrite lookup_insert_ne by done. rewrite Hq. by eexists. }
  rewrite Hes. simpl.
  pose proof (remove_below_threshold_spec g node_threshold uns0 Hth) as Huns.
  assert (forall k, k ∈ DiGraph.edge_keys uns0 -> k ∈ DiGraph.edge_keys g) as Hsub.
  { intros k Hk. by apply Huns. }
  apply (greedy_loop_total g selected_key uns0 Hsub).
  by apply greedy_inv_init.
Qed.

Lemma flagged_count selected_key (P : Z * Z -> Prop) `{!forall k, Decision (P k)}
    (sel : list (Z * Z)) (es : list ((Z * Z) * gmap string PyVal)) :
  NoDup es.*1 ->
  (length (filter (fun e => P e.1 /\ flag_is_true selected_key e.2)
                  (with_flags selected_key sel es))
   <= length (filter P sel))%nat.
Proof.
  intros Hnd.
  set (l := filter _ _).
  rewrite <- (length_fmap fst l). apply submseteq_length, NoDup_submseteq.
  - eapply sublist_NoDup; [|apply fmap_sublist, sublist_filter].
    by rewrite with_flags_keys.
  - intros k (e & -> & He)%list_elem_of_fmap.
    apply list_elem_of_filter in He as [[HP Hflag] He].
    apply list_elem_of_filter. split; [done|].
    unfold with_flags in He. apply list_elem_of_In, in_map_iff in He as (e0 & <- & _).
    unfold flag_is_true in Hflag; simpl in *. rewrite lookup_insert_eq in Hflag.
    injection Hflag as Hb. by apply bool_decide_eq_true in Hb.
Qed.

(** The scenario graph is a well-formed graph, whatever the metric's name. *)
Lemma scenario_wf metric : DiGraph.wf (scenario metric).
Proof.
  unfold DiGraph.wf, DiGraph.node_ids, DiGraph.edge_keys; simpl.
  split; [|split].
  - apply NoDup_ListNoDup. repeat constructor; simpl; unfold a0, b1, c1; lia.
  - apply NoDup_ListNoDup. repeat constructor; simpl; unfold a0, b1, c1; intuition congruence.
  - intros u v Huv. set_solver.
Qed.

(** C1, as amended.  After [greedy_track] has finished on a well-formed
    graph, every node has at most one selected outgoing edge and at most
    two selected incoming edges: the incoming candidates of [v] are only
    withdrawn once [selected.in_degree(v) > 1]. *)
Theorem greedy_degree_bound g selected_key metric node_threshold g' n :
  DiGraph.wf g ->
  greedy_track g selected_key metric node_threshold = Ok g' ->
  (length (selected_out g' selected_key n) <= 1)%nat /\
  (length (selected_in g' selected_key n) <= 2)%nat.
Proof.
  intros Hwf. unfold greedy_track.
  destruct (DiGraph.number_of_nodes g =? 0)%nat eqn:Hn.
  - intros [= <-]. apply Nat.eqb_eq in Hn.
    destruct Hwf as (_ & _ & Hends).
    assert (DiGraph.edges g = []) as Hnil.
    { destruct (DiGraph.edges g) as [|[[u v] d] l] eqn:He; [done|].
      destruct (Hends u v) as [Hu _].
      - unfold DiGraph.edge_keys. rewrite He. set_solver.
      - unfold DiGraph.node_ids, DiGraph.number_of_nodes in *.
        destruct (DiGraph.nodes g); [by apply elem_of_nil in Hu|done]. }
    unfold selected_out, selected_in. rewrite Hnil. simpl. lia.
  - destruct (greedy_run g selected_key metric node_threshold) as [st|] eqn:Hrun;
      simpl; [|done].
    intros [= <-].
    destruct (greedy_run_inv _ _ _ _ _ Hwf Hrun) as (uns0 & Inv & _).
    destruct Hwf as (_ & Hnd & _).
    unfold selected_out, selected_in. rewrite (inv_edges Inv). split.
    + pose proof (flagged_count selected_key (fun k => k.1 = n)
                    (DiGraph.edge_keys (selected st)) (DiGraph.edges g) Hnd) as Hc.
      pose proof (inv_out_deg Inv n) as Hdeg. unfold DiGraph.out_edges in Hdeg.
      simpl in *. lia.
    + pose proof (flagged_count selected_key (fun k => k.2 = n)
                    (DiGraph.edge_keys (selected st)) (DiGraph.edges g) Hnd) as Hc.
      pose proof (inv_in_deg Inv n) as Hdeg.
      unfold DiGraph.in_degree, DiGraph.in_edges in Hdeg. simpl in *. lia.
Qed.

Lemma scenario_sorted_edges selected_key metric :
  sorted_edges (DiGraph.set_edge_attributes (scenario metric) (VBool false) selected_key)
               metric
  = Ok [ ((b1, a0), <[selected_key := VBool false]> {[ metric := VFloat 1 ]});
         ((c1, a0), <[selected_key := VBool false]> {[ metric := VFloat 5 ]}) ].
Proof.
  unfold sorted_edges, getnum, getitem; simpl.
  destruct (decide (selected_key = metric)) as [->|Hne].
  - rewrite !lookup_insert_eq. reflexivity.
  - rewrite !lookup_insert_ne, !lookup_singleton_eq by done. reflexivity.
Qed.

Lemma scenario_threshold (d1 d5 : gmap string PyVal) :
  remove_below_threshold (Some (1 # 2))
    (DiGraph.mk (DiGraph.nodes (scenario "")) [ ((b1, a0), d1); ((c1, a0), d5) ])
  = Ok (DiGraph.mk [ (a0, node_attrs 0 (9 # 10)); (b1, node_attrs 1 (8 # 10)) ]
                   [ ((b1, a0), d1) ]).
Proof. vm_compute. reflexivity. Qed.

Lemma scenario_loop selected_key ns ns' (d1 d5 d1' e1 e5 : gmap string PyVal) :
  foldM (greedy_step selected_key)
        (mk_greedy (DiGraph.mk ns [ ((b1, a0), d1); ((c1, a0), d5) ])
                   DiGraph.empty
                   (DiGraph.mk ns' [ ((b1, a0), d1') ]))
        [ ((b1, a0), e1); ((c1, a0), e5) ]
  = Ok (mk_greedy
          (DiGraph.mk ns [ ((b1, a0), <[selected_key := VBool true]> d1); ((c1, a0), d5) ])
          (DiGraph.mk [ (b1, ∅); (a0, ∅) ] [ ((b1, a0), ∅) ])
          (DiGraph.mk ns' [])).
Proof. reflexivity. Qed.

(** C8.  On the scenario graph with [node_threshold = 0.5], whatever the
    names of the metric and of the selection key: [c1] is dropped from the
    candidates, edge [(b1, a0)] is flagged true and edge [(c1, a0)] false,
    and the selected graph holds [b1] and [a0] but not [c1]. *)
Theorem greedy_scenario selected_key metric :
  exists st,
    greedy_run (scenario metric) selected_key metric (Some (1 # 2)) = Ok st /\
    greedy_track (scenario metric) selected_key metric (Some (1 # 2)) = Ok (graph st) /\
    DiGraph.node_ids (unselected st) = [a0; b1] /\
    edge_flag (graph st) (b1, a0) selected_key = Some (VBool true) /\
    edge_flag (graph st) (c1, a0) selected_key = Some (VBool false) /\
    DiGraph.node_ids (selected st) = [b1; a0] /\
    DiGraph.edge_keys (selected st) = [(b1, a0)].
Proof.
  assert (exists st, greedy_run (scenario metric) selected_key metric (Some (1 # 2)) = Ok st /\
    DiGraph.node_ids (unselected st) = [a0; b1] /\
    edge_flag (graph st) (b1, a0) selected_key = Some (VBool true) /\
    edge_flag (graph st) (c1, a0) selected_key = Some (VBool false) /\
    DiGraph.node_ids (selected st) = [b1; a0] /\
    DiGraph.edge_keys (selected st) = [(b1, a0)]) as (st & Hrun & H).
  { eexists. split.
    - unfold greedy_run. rewrite (copy_of_wf _ (scenario_wf metric)).
      rewrite scenario_sorted_edges.
      change (DiGraph.edges (scenario metric))
        with [ ((b1, a0), ({[ metric := VFloat 1 ]} : gmap string PyVal));
               ((c1, a0), ({[ metric := VFloat 5 ]} : gmap string PyVal)) ].
      change (DiGraph.nodes (scenario metric)) with (DiGraph.nodes (scenario "")).
      rewrite scenario_threshold. unfold mbind, res_bind.
      apply scenario_loop.
    - simpl. repeat split.
      + unfold edge_flag; simpl. by rewrite lookup_insert_eq.
      + unfold edge_flag; simpl. by rewrite lookup_insert_eq. }
  exists st. split; [done|]. split; [|done].
  unfold greedy_track. simpl. by rewrite Hrun.
Qed.

(** C9.  When [greedy_track] returns on a well-formed graph with at least
    one node, the caller's graph has the same nodes with the same
    attributes and the same edges in the same order; every edge carries a
    boolean for [selected_key], true exactly on the edges the loop put into
    [selected], and is otherwise unchanged; no edge incident to a node that
    the threshold dropped is among them. *)
Theorem greedy_track_frame g selected_key metric node_threshold g' :
  DiGraph.wf g ->
  DiGraph.number_of_nodes g ≠ 0%nat ->
  greedy_track g selected_key metric node_threshold = Ok g' ->
  exists st,
    greedy_run g selected_key metric node_threshold = Ok st /\
    g' = graph st /\
    DiGraph.nodes g' = DiGraph.nodes g /\
    DiGraph.edges g'
      = with_flags selected_key (DiGraph.edge_keys (selected st)) (DiGraph.edges g) /\
    (forall k d, (k, d) ∈ DiGraph.edges g' -> exists b, d !! selected_key = Some (VBool b)) /\
    (forall u v, below_threshold g node_threshold u \/ below_threshold g node_threshold v ->
       (u, v) ∉ DiGraph.edge_keys (selected st)).
Proof.
  intros Hwf Hn. unfold greedy_track.
  destruct (DiGraph.number_of_nodes g =? 0)%nat eqn:Hz.
  { by apply Nat.eqb_eq in Hz. }
  destruct (greedy_run g selected_key metric node_threshold) as [st|] eqn:Hrun;
    simpl; [|done].
  intros [= <-]. exists st.
  destruct (greedy_run_inv _ _ _ _ _ Hwf Hrun) as (uns0 & Inv & Huns).
  repeat split; try done.
  - apply (inv_nodes Inv).
  - apply (inv_edges Inv).
  - intros k d. rewrite (inv_edges Inv). unfold with_flags.
    intros (e & Heq & _)%list_elem_of_In%in_map_iff.
    injection Heq as <- <-. eexists. apply lookup_insert_eq.
  - intros u v Hbelow Hsel.
    destruct (Huns _ (inv_sel_sub Inv _ Hsel)) as (_ & Hu & Hv). simpl in *. tauto.
Qed.

(** On the scenario graph without a threshold both edges into [a0] are
    selected: the claim of at most one selected incoming edge fails. *)
Lemma greedy_two_incoming :
  DiGraph.wf (scenario "distance") /\
  match greedy_track (scenario "distance") "selected" "distance" None with
  | Ok g' => ~ (length (selected_in g' "selected" a0) <= 1)%nat
  | Err _ => False
  end.
Proof.
  split; [apply scenario_wf|].
  vm_compute. intros H. by apply Nat.leb_le in H.
Qed.

Lemma greedy_degree_bound_witness :
  DiGraph.wf (scenario "distance") /\
  greedy_track (scenario "distance") "selected" "distance" (Some (1 # 2))
    = Ok (scenario_result "selected" "distance") /\
  (length (selected_out (scenario_result "selected" "distance") "selected" b1) <= 1)%nat /\
  (length (selected_in (scenario_result "selected" "distance") "selected" b1) <= 2)%nat.
Proof.
  split; [apply scenario_wf|]. split; [vm_compute; reflexivity|].
  apply (greedy_degree_bound (scenario "distance") "selected" "distance" (Some (1 # 2))).
  - apply scenario_wf.
  - vm_compute. reflexivity.
Defined.

Lemma greedy_track_frame_witness :
  exists st,
    greedy_run (scenario "distance") "selected" "distance" (Some (1 # 2)) = Ok st /\
    scenario_result "selected" "distance" = graph st /\
    DiGraph.nodes (scenario_result "selected" "distance")
      = DiGraph.nodes (scenario "distance") /\
    DiGraph.edges (scenario_result "selected" "distance")
      = with_flags "selected" (DiGraph.edge_keys (selected st))
                   (DiGraph.edges (scenario "distance")) /\
    (forall k d, (k, d) ∈ DiGraph.edges (scenario_result "selected" "distance") ->
       exists b, d !! "selected" = Some (VBool b)) /\
    (forall u v,
       below_threshold (scenario "distance") (Some (1 # 2)) u \/
       below_threshold (scenario "distance") (Some (1 # 2)) v ->
       (u, v) ∉ DiGraph.edge_keys (selected st)).
Proof.
  apply (greedy_track_frame (scenario "distance") "selected" "distance" (Some (1 # 2))).
  - apply scenario_wf.
  - vm_compute. lia.
  - vm_compute. reflexivity.
Defined.

(** ** The cost functions *)

Lemma resolve_feature_func_known np_log tag :
  known_feature_func tag -> exists ff, resolve_feature_func np_log tag = Ok ff.
Proof.
  unfold resolve_feature_func. intros [-> | [-> | ->]]; simpl; eauto.
Qed.

Lemma resolve_feature_func_unknown np_log tag :
  ~ known_feature_func tag -> resolve_feature_func np_log tag = Err RuntimeError.
Proof.
  unfold resolve_feature_func, known_feature_func. intros Hno.
  repeat case_bool_decide; tauto.
Qed.










(** C4.  With a recognized feature function: for solver type "basic" the
    map has a [node_split] entry that costs 1 on every node, and for a
    solver type that is neither "basic" nor "cell_state" the map is
    returned with exactly the entries [node_selected] and [node_appear]. *)
Theorem node_split_by_solver_type np_log config params tg :
  known_feature_func (feature_func params) ->
  (solver_type (solve config) = "basic" ->
   exists fn_map f,
     get_default_node_indicator_costs np_log config params tg = Ok fn_map /\
     fn_map !! "node_split" = Some f /\
     forall obj, f obj = Ok [1%Q]) /\
  (solver_type (solve config) ≠ "basic" ->
   solver_type (solve config) ≠ "cell_state" ->
   exists fn_map,
     get_default_node_indicator_costs np_log config params tg = Ok fn_map /\
     dom fn_map = {[ "node_selected"; "node_appear" ]} /\
     fn_map !! "node_split" = None /\
     fn_map !! "node_child" = None /\
     fn_map !! "node_continuation" = None).
Proof.
  intros Hff. destruct (resolve_feature_func_known np_log _ Hff) as [ff Hres].
  unfold get_default_node_indicator_costs. rewrite Hres; simpl. split.
  - intros ->. simpl. eexists _, _. split; [done|]. split; [by simplify_map_eq|done].
  - intros Hb Hc. rewrite !bool_decide_eq_false_2 by done.
    eexists. split; [done|]. split; [|by simplify_map_eq].
    rewrite dom_insert_L, dom_singleton_L. set_solver.
Qed.

(** C7.  With a recognized [feature_func] tag both cost maps are returned;
    with any other tag both calls raise [RuntimeError] instead. *)
Theorem feature_func_checked np_log config params tg :
  (known_feature_func (feature_func params) ->
   (exists fn_map, get_default_node_indicator_costs np_log config params tg = Ok fn_map) /\
   (exists fn_map, get_default_edge_indicator_costs np_log config params = Ok fn_map)) /\
  (~ known_feature_func (feature_func params) ->
   get_default_node_indicator_costs np_log config params tg = Err RuntimeError /\
   get_default_edge_indicator_costs np_log config params = Err RuntimeError).
Proof.
  unfold get_default_node_indicator_costs, get_default_edge_indicator_costs. split.
  - intros Hff. destruct (resolve_feature_func_known np_log _ Hff) as [ff ->]; simpl.
    split; repeat case_bool_decide; eauto.
  - intros Hff. by rewrite (resolve_feature_func_unknown np_log _ Hff).
Qed.

Lemma known_noop : known_feature_func "noop".
Proof. by left. Qed.

Lemma unknown_tanh : ~ known_feature_func "tanh".
Proof. intros [H | [H | H]]; discriminate H. Qed.



Lemma node_split_by_solver_type_witness :
  (exists fn_map f,
     get_default_node_indicator_costs (fun x => x) (example_config "basic")
       (example_parameters "noop") example_track_graph = Ok fn_map /\
     fn_map !! "node_split" = Some f /\
     forall obj, f obj = Ok [1%Q]) /\
  (exists fn_map,
     get_default_node_indicator_costs (fun x => x) (example_config "greedy")
       (example_parameters "noop") example_track_graph = Ok fn_map /\
     dom fn_map = {[ "node_selected"; "node_appear" ]} /\
     fn_map !! "node_split" = None /\
     fn_map !! "node_child" = None /\
     fn_map !! "node_continuation" = None).
Proof.
  split.
  - apply (node_split_by_solver_type (fun x => x) (example_config "basic")
             (example_parameters "noop") example_track_graph known_noop).
    reflexivity.
  - apply (node_split_by_solver_type (fun x => x) (example_config "greedy")
             (example_parameters "noop") example_track_graph known_noop);
      discriminate.
Defined.

Lemma feature_func_checked_witness :
  ((exists fn_map,
      get_default_node_indicator_costs (fun x => x) (example_config "basic")
        (example_parameters "noop") example_track_graph = Ok fn_map) /\
   (exists fn_map,
      get_default_edge_indicator_costs (fun x => x) (example_config "basic")
        (example_parameters "noop") = Ok fn_map)) /\
  (get_default_node_indicator_costs (fun x => x) (example_config "basic")
     (example_parameters "tanh") example_track_graph = Err RuntimeError /\
   get_default_edge_indicator_costs (fun x => x) (example_config "basic")
     (example_parameters "tanh") = Err RuntimeError).
Proof.
  split.
  - apply (feature_func_checked (fun x => x) (example_config "basic")
             (example_parameters "noop") example_track_graph).
    exact known_noop.
  - apply (feature_func_checked (fun x => x) (example_config "basic")
             (example_parameters "tanh") example_track_graph).
    exact unknown_tanh.
Defined.

(** ** track: the cell-cycle keys *)

Lemma cell_cycle_keys_none config :
  (exists p, p ∈ parameters (solve config) /\ cell_cycle_key p = None) ->
  cell_cycle_keys config = Err TypeError.
Proof.
  unfold cell_cycle_keys, cell_cycle_mother_key. intros (p & Hin & Hnone).
  induction (parameters (solve config)) as [|q l IH]; [by apply elem_of_nil in Hin|].
  simpl. destruct (cell_cycle_key q) as [s|] eqn:Hq; simpl; [|done].
  apply elem_of_cons in Hin as [->|Hin]; [congruence|].
  by rewrite (IH Hin).
Qed.

Lemma cell_cycle_keys_some config :
  (forall p, p ∈ parameters (solve config) -> cell_cycle_key p ≠ None) ->
  exists keys,
    cell_cycle_keys config = Ok keys /\
    forall k, k ∈ keys <->
      exists p s, p ∈ parameters (solve config) /\ cell_cycle_key p = Some s /\
                  k = s +:+ "mother".
Proof.
  unfold cell_cycle_keys, cell_cycle_mother_key.
  induction (parameters (solve config)) as [|q l IH]; intros Hall.
  - exists []. split; [done|]. intros k. split; [by intros ?%elem_of_nil|].
    by intros (p & s & ?%elem_of_nil & _).
  - destruct IH as (keys & Hkeys & Hspec); [intros p Hp; apply Hall; set_solver|].
    simpl. destruct (cell_cycle_key q) as [s|] eqn:Hq; [|destruct (Hall q); set_solver].
    simpl. rewrite Hkeys. simpl. eexists. split; [done|].
    intros k. rewrite elem_of_cons, Hspec. split.
    + intros [->|(p & s' & Hp & Hs & ->)]; [exists q, s|exists p, s']; set_solver.
    + intros (p & s' & [->|Hp]%elem_of_cons & Hs & ->); [left; congruence|right; eauto].
Qed.

Lemma lacks_key_true keys data :
  lacks_key keys data = true <-> exists k, k ∈ keys /\ data !! k = None.
Proof.
  unfold lacks_key. rewrite existsb_exists. split.
  - intros (k & Hk%list_elem_of_In & Hnone%bool_decide_eq_true). eauto.
  - intros (k & Hk & Hnone). exists k. split; [by apply list_elem_of_In|].
    by apply bool_decide_eq_true.
Qed.

Lemma NoDup_fst_unique {A B} (l : list (A * B)) x y1 y2 :
  NoDup l.*1 -> (x, y1) ∈ l -> (x, y2) ∈ l -> y1 = y2.
Proof.
  induction l as [|[a b] l IH]; [by intros _ ?%elem_of_nil|].
  rewrite fmap_cons, NoDup_cons; simpl. intros [Hfresh Hnd] H1 H2.
  apply elem_of_cons in H1 as [E1|H1]; apply elem_of_cons in H2 as [E2|H2].
  - congruence.
  - injection E1 as -> ->. destruct Hfresh. apply list_elem_of_fmap. by exists (a, y2).
  - injection E2 as -> ->. destruct Hfresh. apply list_elem_of_fmap. by exists (a, y1).
  - by apply IH.
Qed.

Lemma elem_of_nodes_drop d l nd :
  nd ∈ DiGraph.nodes (foldl DiGraph.drop_node d l) <-> nd ∈ DiGraph.nodes d /\ nd.1 ∉ l.
Proof.
  revert d. induction l as [|n l IH]; intros d; simpl.
  - set_solver.
  - rewrite IH. unfold DiGraph.drop_node at 1; simpl.
    rewrite list_elem_of_filter, not_elem_of_cons. tauto.
Qed.

Lemma forM_remove_nodes l g :
  NoDup l ->
  (forall n, n ∈ l -> n ∈ DiGraph.node_ids (SharedSubgraph.digraph g)) ->
  forM l remove_node_of g
  = (Ok tt, SharedSubgraph.with_digraph g
              (foldl DiGraph.drop_node (SharedSubgraph.digraph g) l)).
Proof.
  revert g. induction l as [|n l IH]; intros g Hnd Hin; simpl.
  - by destruct g.
  - apply NoDup_cons in Hnd as [Hn Hnd].
    unfold bindM at 1. unfold remove_node_of at 1, bindM, getM, liftM, putM.
    unfold DiGraph.remove_node.
    assert (DiGraph.has_node (SharedSubgraph.digraph g) n = true) as ->.
    { apply has_node_true, Hin. set_solver. }
    rewrite IH; [done|done|].
    intros n' Hn'. simpl. unfold DiGraph.node_ids, DiGraph.drop_node; simpl.
    pose proof (Hin n' ltac:(set_solver)) as Hold.
    apply list_elem_of_fmap in Hold as (nd & Heq & Hnd').
    apply list_elem_of_fmap. exists nd. split; [done|].
    apply list_elem_of_filter. split; [|done]. congruence.
Qed.

Lemma remove_nodes_without_keys_spec keys g :
  DiGraph.wf (SharedSubgraph.digraph g) ->
  exists g1,
    remove_nodes_without_keys keys g = (Ok tt, g1) /\
    SharedSubgraph.roi g1 = SharedSubgraph.roi g /\
    forall nd, nd ∈ DiGraph.nodes (SharedSubgraph.digraph g1) <->
      nd ∈ DiGraph.nodes (SharedSubgraph.digraph g) /\
      ((exists k, k ∈ keys /\ k ≠ "") -> forall k, k ∈ keys -> is_Some (nd.2 !! k)).
Proof.
  intros (Hnd & _ & _). unfold remove_nodes_without_keys.
  destruct (any_key keys) eqn:Hany.
  - unfold bindM, getM.
    rewrite forM_remove_nodes.
    + eexists. split; [done|]. split; [done|]. intros nd. simpl.
      rewrite elem_of_nodes_drop. unfold nodes_to_remove.
      split; intros [Hin Hkeep]; (split; [done|]).
      * intros _ k Hk. destruct (nd.2 !! k) eqn:Hlook; [done|].
        destruct Hkeep. apply list_elem_of_fmap. exists nd. split; [done|].
        apply list_elem_of_filter. split; [|done]. apply lacks_key_true. eauto.
      * intros (nd' & Heq & Hrem)%list_elem_of_fmap.
        apply list_elem_of_filter in Hrem as [(k & Hk & Hnone)%lacks_key_true Hin'].
        assert (nd' = nd) as ->.
        { destruct nd as [n d], nd' as [n' d']. simpl in Heq. subst n'.
          f_equal. eapply NoDup_fst_unique; [exact Hnd|exact Hin'|exact Hin]. }
        destruct (Hkeep) with (k := k) as [? Hsome].
        { unfold any_key in Hany. apply existsb_exists in Hany as (k0 & Hk0 & Hne).
          exists k0. split; [by apply list_elem_of_In|].
          apply negb_true_iff, bool_decide_eq_false in Hne. done. }
        { exact Hk. }
        congruence.
    + unfold nodes_to_remove. eapply sublist_NoDup; [exact Hnd|].
      apply fmap_sublist, sublist_filter.
    + unfold nodes_to_remove. intros n (nd & -> & Hrem)%list_elem_of_fmap.
      apply list_elem_of_filter in Hrem as [_ Hin].
      apply list_elem_of_fmap. eauto.
  - exists g. split; [done|]. split; [done|]. intros nd. split; [|tauto].
    intros Hin. split; [done|]. intros (k & Hk & Hne).
    assert (any_key keys = true) as Htrue; [|congruence].
    unfold any_key. apply existsb_exists. exists k. split; [by apply list_elem_of_In|].
    by apply negb_true_iff, bool_decide_eq_false.
Qed.

Lemma mother_key_nonempty s : s +:+ "mother" ≠ "".
Proof. by destruct s. Qed.

Section track_facts.
Variable Solver : Type.
Variable new_TrackGraph : DiGraph.t -> string -> Roi.t -> res TrackGraph.t.
Variable new_Solver :
  TrackGraph.t -> SolveParametersConfig -> string -> option (Z * Z) -> bool ->
  option Z -> bool -> bool -> res Solver.
Variable update_objective : Solver -> SolveParametersConfig -> string -> res Solver.
Variable solve_ : Solver -> res Solver.
Variable track_graph_of : Solver -> TrackGraph.t.

Local Abbreviation track_solve :=
  (Track.track_solve Solver new_TrackGraph new_Solver update_objective solve_
                     track_graph_of).
Local Abbreviation track :=
  (Track.track Solver new_TrackGraph new_Solver update_objective solve_ track_graph_of).
Local Abbreviation track_rounds :=
  (Track.track_rounds Solver new_Solver update_objective solve_ track_graph_of).

Lemma copy_flags_of_nodes tg key g :
  DiGraph.nodes (SharedSubgraph.digraph (copy_flags_of tg key g).2)
  = DiGraph.nodes (SharedSubgraph.digraph g).
Proof. unfold copy_flags_of. by destruct (copy_flags _ _ _ _). Qed.

Lemma track_rounds_nodes config tg frames block_id solver pks g :
  DiGraph.nodes (SharedSubgraph.digraph
                   (track_rounds config tg frames block_id solver pks g).2)
  = DiGraph.nodes (SharedSubgraph.digraph g).
Proof.
  revert solver g. induction pks as [|[parameter key] pks IH]; intros solver g; [done|].
  simpl. unfold bindM at 1. unfold Track.track_round, bindM, liftM.
  destruct (match solver with None => _ | Some s => _ end) as [s|]; [|done].
  destruct (solve_ s) as [s'|]; [|done].
  pose proof (copy_flags_of_nodes (TrackGraph.graph_data (track_graph_of s')) key g) as Hn.
  destruct (copy_flags_of _ key g) as [[[]|] g']; simpl in *; [|done].
  unfold retM. by rewrite IH.
Qed.

Lemma track_solve_nodes config selected_key frame_key frames block_id g :
  DiGraph.nodes (SharedSubgraph.digraph
                   (track_solve config selected_key frame_key frames block_id g).2)
  = DiGraph.nodes (SharedSubgraph.digraph g).
Proof.
  unfold Track.track_solve, bindM, getM, liftM, retM.
  destruct (_ =? 0)%nat; [done|]. destruct (negb _); [done|].
  destruct (new_TrackGraph _ _ _) as [tg|]; [|done].
  apply track_rounds_nodes.
Qed.

(** C10.  [track] adds "mother" to the [cell_cycle_key] of every parameter
    set before anything else.  A key that is [None] makes the call raise
    [TypeError] with the graph untouched.  When every key is a string, the
    rest of [track], the construction of the solver included, runs on the
    graph from which every node that lacks one of the concatenated keys has
    been removed, and the caller is left with exactly these nodes; with an
    empty-string key the attribute "mother" itself is required. *)
Theorem track_cell_cycle_keys config selected_key frame_key frames block_id g :
  DiGraph.wf (SharedSubgraph.digraph g) ->
  ((exists p, p ∈ parameters (solve config) /\ cell_cycle_key p = None) ->
   track config selected_key frame_key frames block_id g = (Err TypeError, g)) /\
  ((forall p, p ∈ parameters (solve config) -> cell_cycle_key p ≠ None) ->
   exists g1,
     track config selected_key frame_key frames block_id g
     = track_solve config selected_key frame_key frames block_id g1 /\
     DiGraph.nodes (SharedSubgraph.digraph
                      (track config selected_key frame_key frames block_id g).2)
     = DiGraph.nodes (SharedSubgraph.digraph g1) /\
     (forall n d,
        (n, d) ∈ DiGraph.nodes (SharedSubgraph.digraph g1) <->
        (n, d) ∈ DiGraph.nodes (SharedSubgraph.digraph g) /\
        forall p s, p ∈ parameters (solve config) -> cell_cycle_key p = Some s ->
                    is_Some (d !! (s +:+ "mother"))) /\
     (forall p n d,
        p ∈ parameters (solve config) -> cell_cycle_key p = Some "" ->
        (n, d) ∈ DiGraph.nodes (SharedSubgraph.digraph g) -> d !! "mother" = None ->
        n ∉ DiGraph.node_ids
              (SharedSubgraph.digraph
                 (track config selected_key frame_key frames block_id g).2))).
Proof.
  intros Hwf. split.
  - intros Hnone. unfold Track.track, bindM, liftM.
    by rewrite (cell_cycle_keys_none config Hnone).
  - intros Hall.
    destruct (cell_cycle_keys_some config Hall) as (keys & Hkeys & Hspec).
    destruct (remove_nodes_without_keys_spec keys g Hwf) as (g1 & Hprune & _ & Hnodes).
    assert (track config selected_key frame_key frames block_id g
            = track_solve config selected_key frame_key frames block_id g1) as Hrun.
    { unfold Track.track. unfold bindM at 1 2. unfold liftM.
      by rewrite Hkeys, Hprune. }
    assert (forall n d,
        (n, d) ∈ DiGraph.nodes (SharedSubgraph.digraph g1) <->
        (n, d) ∈ DiGraph.nodes (SharedSubgraph.digraph g) /\
        forall p s, p ∈ parameters (solve config) -> cell_cycle_key p = Some s ->
                    is_Some (d !! (s +:+ "mother"))) as Hchar.
    { intros n d. rewrite Hnodes. simpl. split; intros [Hin Hkeep]; (split; [done|]).
      - intros p s Hp Hs. apply Hkeep.
        + exists (s +:+ "mother"). split; [|apply mother_key_nonempty].
          apply Hspec. eauto.
        + apply Hspec. eauto.
      - intros _ k (p & s & Hp & Hs & ->)%Hspec. by apply (Hkeep p). }
    exists g1. split; [done|]. rewrite Hrun, track_solve_nodes.
    split; [done|]. split; [done|].
    intros p n d Hp Hs Hin Hmother. unfold DiGraph.node_ids.
    rewrite track_solve_nodes.
    intros (nd & Heq & Hin1)%list_elem_of_fmap. destruct nd as [n' d']. simpl in Heq.
    subst n'. apply Hchar in Hin1 as [Hin1 Hkeep].
    destruct Hwf as (Hnd & _).
    assert (d' = d) as -> by (eapply NoDup_fst_unique; [exact Hnd|done|done]).
    destruct (Hkeep p "" Hp Hs) as [x Hx].
    change ("" +:+ "mother") with "mother" in Hx. congruence.
Qed.

End track_facts.

(** ** The orchestrator *)

Section solve_blockwise_facts.
Variable py_hash : gset Z -> Z.
Variable roi_intersect : Roi.t -> Roi.t -> Roi.t.
Variable roi_grow : Roi.t -> list Z -> list Z -> Roi.t.
Variable run_blockwise :
  Roi.t -> Roi.t -> Roi.t -> (Block -> M World Z) -> (Block -> M World bool) -> Z ->
  M World bool.
Variable tracker :
  list SolveParametersConfig -> list string -> Z * Z -> M SharedSubgraph.t unit.
Variable read_attributes : string -> string -> res (gmap string (list Z)).

Import SolveBlockwise.
Local Abbreviation step_name_blockwise := (SolveBlockwise.step_name_blockwise py_hash).
Local Abbreviation step_name_in_block := (SolveBlockwise.step_name_in_block py_hash).
Local Abbreviation solve_in_block :=
  (SolveBlockwise.solve_in_block py_hash roi_intersect tracker).
Local Abbreviation solve_blockwise :=
  (SolveBlockwise.solve_blockwise py_hash roi_intersect roi_grow run_blockwise tracker
                                  read_attributes).


(** C5.  A block whose sub-graph, fetched for the read region and freed of
    the nodes without 't', has no edge: [solve_in_block] returns 0, the
    block is marked done under the step name, nothing else in the store
    changes and no call to the tracker is made. *)
Theorem empty_block_is_done parameters block parameters_id solution_roi w :
  let read_roi :=
    match solution_roi with
    | Some solution_roi => roi_intersect (read_roi block) solution_roi
    | None => read_roi block
    end in
  DiGraph.number_of_edges
    (SharedSubgraph.digraph (block_graph read_roi parameters_id (store w))) = 0%nat ->
  exists w',
    solve_in_block parameters block parameters_id solution_roi w = (Ok 0, w') /\
    store w'
    = daisy_check_functions.mark_block block (step_name_in_block parameters_id) (store w) /\
    (step_name_in_block parameters_id, block_id block) ∈ done_blocks (store w') /\
    db_edges (store w') = db_edges (store w) /\
    db_nodes (store w') = db_nodes (store w) /\
    calls w' = calls w.
Proof using Type.
  clear roi_grow run_blockwise read_attributes.
  intros read_roi Hempty. unfold SolveBlockwise.solve_in_block.
  destruct solution_roi as [solution_roi|]; simpl in read_roi; subst read_roi;
    unfold bindM, on_store, getM, retM, daisy_check_functions.write_done;
    cbv beta iota zeta; rewrite Hempty; cbn [Nat.eqb];
    (eexists; split; [reflexivity|]; simpl; repeat split; set_solver).
Qed.

Lemma get_parameters_id_known ps st ids :
  mapM (known_id st) ps = Some ids ->
  mapS CandidateDatabase.get_parameters_id ps st = (Ok ids, st).
Proof.
  revert ids. induction ps as [|p ps IH]; intros ids.
  - by intros [= <-].
  - change (mapM (known_id st) (p :: ps))
      with (y ← known_id st p; k ← mapM (known_id st) ps; Some (y :: k)).
    destruct (known_id st p) as [id|] eqn:Hk; simpl; [|done].
    destruct (mapM (known_id st) ps) as [ids'|]; simpl; [|done].
    intros [= <-]. unfold bindM at 1.
    assert (CandidateDatabase.get_parameters_id p st = (Ok id, st)) as ->.
    { unfold known_id in Hk. unfold CandidateDatabase.get_parameters_id.
      destruct (list_find _ (parameter_ids st)) as [[i e]|]; [|done]. congruence. }
    unfold bindM. by rewrite (IH ids').
Qed.

Lemma check_block_size_same p0 ps :
  (forall p, p ∈ ps -> block_size p = block_size p0 /\ context p = context p0) ->
  foldM (fun _ p => check_block_size p0 p) tt ps = Ok tt.
Proof.
  induction ps as [|p ps IH]; intros Hsame; [done|]. cbn [foldM].
  assert (check_block_size p0 p = Ok tt) as ->.
  { destruct (Hsame p) as [Hb Hc]; [set_solver|].
    unfold check_block_size. by rewrite Hb, Hc, !bool_decide_eq_true_2. }
  simpl. apply IH. intros q Hq. apply Hsame. set_solver.
Qed.

(** C3, as amended.  Called without [from_scratch] on arguments that pass
    the set-up (a first parameter set, one block size and context, a
    readable [attributes.json], parameter sets the store knows), with the
    step named from the ids marked done: [solve_blockwise] returns [True]
    and leaves the store as it was, without a call to the scheduler or the
    tracker. *)
Theorem solve_blockwise_done sample parameters num_workers frames limit_to_roi
    data_dir w p0 attributes ids :
  parameters !! 0%nat = Some p0 ->
  (forall p, p ∈ parameters ->
     block_size p = block_size p0 /\ context p = context p0) ->
  read_attributes data_dir sample = Ok attributes ->
  is_Some (attributes !! "resolution") ->
  is_Some (attributes !! "shape") ->
  is_Some (attributes !! "offset") ->
  mapM (known_id (store w)) parameters = Some ids ->
  step_name_blockwise ids ∈ done_steps (store w) ->
  solve_blockwise sample parameters num_workers frames limit_to_roi false data_dir w
  = (Ok true, w).
Proof.
  intros Hp0 Hsame Hread [res Hres] [shape Hshape] [offset Hoffset] Hids Hdone.
  unfold SolveBlockwise.solve_blockwise.
  unfold bindM at 1. unfold liftM at 1. unfold index. rewrite Hp0.
  unfold bindM at 1. unfold liftM at 1. rewrite (check_block_size_same _ _ Hsame).
  unfold bindM at 1. unfold liftM at 1. rewrite Hread.
  unfold bindM at 1. unfold liftM at 1. unfold attribute at 1. rewrite Hres.
  unfold bindM at 1. unfold liftM at 1. unfold attribute at 1. rewrite Hshape.
  unfold bindM at 1. unfold liftM at 1. unfold attribute at 1. rewrite Hoffset.
  unfold bindM at 1. unfold on_store at 1. rewrite (get_parameters_id_known _ _ _ Hids).
  unfold bindM at 1. unfold retM at 1.
  unfold bindM at 1. unfold on_store at 1.
  unfold daisy_check_functions.check_function_all_blocks.
  cbv beta iota zeta. cbn [store calls].
  rewrite bool_decide_eq_true_2 by done.
  unfold retM. by destruct w.
Qed.

End solve_blockwise_facts.


Lemma empty_block_is_done_witness :
  exists w',
    SolveBlockwise.solve_in_block example_hash example_intersect example_tracker
      [example_parameters "noop"] example_block [1] None example_world = (Ok 0, w') /\
    store w'
    = daisy_check_functions.mark_block example_block
        (SolveBlockwise.step_name_in_block example_hash [1]) example_store /\
    (SolveBlockwise.step_name_in_block example_hash [1], block_id example_block)
      ∈ done_blocks (store w') /\
    db_edges (store w') = db_edges example_store /\
    db_nodes (store w') = db_nodes example_store /\
    calls w' = [].
Proof.
  apply (empty_block_is_done example_hash example_intersect example_tracker
           [example_parameters "noop"] example_block [1] None example_world).
  vm_compute. reflexivity.
Defined.

Lemma solve_blockwise_done_witness :
  SolveBlockwise.solve_blockwise example_hash example_intersect example_grow example_run_blockwise
    example_tracker example_read_attributes
    "sample" [example_parameters "noop"] 8 None None false "../01_data" example_world
  = (Ok true, example_world).
Proof.
  apply (solve_blockwise_done example_hash example_intersect example_grow
           example_run_blockwise example_tracker example_read_attributes
           "sample" [example_parameters "noop"] 8 None None "../01_data" example_world
           (example_parameters "noop")
           {[ "resolution" := [1; 5; 1; 1]; "shape" := [5; 40; 200; 200];
              "offset" := [0; 0; 0; 0] ]}
           [1]).
  - reflexivity.
  - intros p Hp. apply list_elem_of_singleton in Hp. by rewrite Hp.
  - reflexivity.
  - eexists. reflexivity.
  - eexists. reflexivity.
  - eexists. reflexivity.
  - vm_compute. reflexivity.
  - change (SolveBlockwise.step_name_blockwise example_hash [1]) with "solve_1".
    change (done_steps (store example_world)) with ({[ "solve_1" ]} : gset string).
    apply elem_of_singleton. reflexivity.
Defined.

(** With [from_scratch] the selection is reset before the done marker is
    looked at: on the example store, whose step is marked done, the call
    returns [True] and the flags under "selected_1" are gone. *)
Lemma solve_blockwise_from_scratch_resets :
  "solve_1" ∈ done_steps (store example_world) /\
  SolveBlockwise.step_name_blockwise example_hash [1] = "solve_1" /\
  exists w',
    SolveBlockwise.solve_blockwise example_hash example_intersect example_grow example_run_blockwise
      example_tracker example_read_attributes
      "sample" [example_parameters "noop"] 8 None None true "../01_data" example_world
    = (Ok true, w') /\
    store w' ≠ store example_world.
Proof.
  split.
  { change (done_steps (store example_world)) with ({[ "solve_1" ]} : gset string).
    by apply elem_of_singleton. }
  split; [by vm_compute|].
  eexists. split; [vm_compute; reflexivity|].
  intros Heq.
  apply (f_equal (fun st => match db_edges st with
                            | e :: _ => e.2 !! "selected_1"
                            | [] => None
                            end)) in Heq.
  vm_compute in Heq. discriminate Heq.
Qed.

Lemma track_cell_cycle_keys_witness :
  Track.track TrackGraph.t example_new_TrackGraph example_new_Solver example_update_objective
    example_solve (fun s => s)
    (config_with_key None) ["selected_1"] "t" None None example_subgraph
  = (Err TypeError, example_subgraph) /\
  a0 ∉ DiGraph.node_ids
         (SharedSubgraph.digraph
            (Track.track TrackGraph.t example_new_TrackGraph example_new_Solver
               example_update_objective example_solve (fun s => s)
               (config_with_key (Some "")) ["selected_1"] "t" None None
               example_subgraph).2).
Proof.
  split.
  - apply (track_cell_cycle_keys TrackGraph.t example_new_TrackGraph example_new_Solver
             example_update_objective example_solve (fun s => s)
             (config_with_key None) ["selected_1"] "t" None None example_subgraph).
    + apply scenario_wf.
    + eexists. split; [apply list_elem_of_singleton; reflexivity|reflexivity].
  - destruct (track_cell_cycle_keys TrackGraph.t example_new_TrackGraph
                example_new_Solver example_update_objective example_solve (fun s => s)
                (config_with_key (Some "")) ["selected_1"] "t" None None example_subgraph
                (scenario_wf "prediction_distance")) as [_ Hsome].
    destruct Hsome as (g1 & _ & _ & _ & Hmother).
    + intros p Hp. apply list_elem_of_singleton in Hp. by rewrite Hp.
    + eapply (Hmother _ a0 (node_attrs 0 (9 # 10))).
      * apply list_elem_of_singleton. reflexivity.
      * reflexivity.
      * simpl. set_solver.
      * vm_compute. reflexivity.
Defined.

(** * Further properties *)

(** ** greedy_track: the order of the edges *)

Lemma insert_by_key_perm {A} (x : Q * A) l : insert_by_key x l ≡ₚ x :: l.
Proof.
  induction l as [|y l IH]; simpl; [done|].
  destruct (Qle_bool x.1 y.1); [done|]. rewrite IH. apply perm_swap.
Qed.

Lemma sort_by_key_perm {A} (l : list (Q * A)) : sort_by_key l ≡ₚ l.
Proof.
  induction l as [|x l IH]; simpl; [done|]. by rewrite insert_by_key_perm, IH.
Qed.

Lemma insert_by_key_sorted {A} (x : Q * A) l :
  StronglySorted (fun a b => (a.1 <= b.1)%Q) l ->
  StronglySorted (fun a b => (a.1 <= b.1)%Q) (insert_by_key x l).
Proof.
  induction l as [|y l IH]; intros Hs; simpl.
  - repeat constructor.
  - apply StronglySorted_cons in Hs as [Hy Hs].
    destruct (Qle_bool x.1 y.1) eqn:Hxy.
    + apply Qle_bool_iff in Hxy. apply StronglySorted_cons. split.
      * constructor; [done|]. eapply Forall_impl; [exact Hy|].
        intros z Hz. simpl in *. by eapply Qle_trans.
      * by apply StronglySorted_cons.
    + apply StronglySorted_cons. split; [|by apply IH].
      rewrite insert_by_key_perm. constructor; [|done].
      destruct (Qlt_le_dec y.1 x.1) as [Hlt|Hle]; [by apply Qlt_le_weak|].
      apply Qle_bool_iff in Hle. congruence.
Qed.

Lemma sort_by_key_sorted {A} (l : list (Q * A)) :
  StronglySorted (fun a b => (a.1 <= b.1)%Q) (sort_by_key l).
Proof.
  induction l as [|x l IH]; simpl; [constructor|]. by apply insert_by_key_sorted.
Qed.

(** The keys that [sorted] works with are the metric values of the edges. *)
Lemma keyed_edges metric (l : list ((Z * Z) * gmap string PyVal)) keyed :
  mapM (fun e => q ← getnum e.2 metric; Ok (q, e)) l = Ok keyed ->
  keyed.*2 = l /\ Forall (fun qe => getnum qe.2.2 metric = Ok qe.1) keyed.
Proof.
  revert keyed. induction l as [|e l IH]; intros keyed; simpl.
  - intros [= <-]. by split.
  - destruct (getnum e.2 metric) as [q|] eqn:Hq; simpl; [|done].
    destruct (mapM _ l) as [keyed'|]; simpl; [|done].
    intros [= <-]. destruct (IH keyed' eq_refl) as [Hl Hall].
    split; [by rewrite fmap_cons, Hl|]. by constructor.
Qed.

Section greedy_order.
Import DiGraph.
Variable g : DiGraph.t.
Variable selected_key : string.
Variable uns0 : DiGraph.t.
Hypothesis uns0_sub : forall k, k ∈ edge_keys uns0 -> k ∈ edge_keys g.
Local Abbreviation greedy_inv := (greedy_inv g selected_key uns0).

(** What one round of the loop does to [selected] and [unselected]. *)
Lemma greedy_step_cases st e st' :
  greedy_inv st -> greedy_step selected_key st e = Ok st' ->
  (st' = st /\ e.1 ∉ edge_keys (unselected st)) \/
  (e.1 ∈ edge_keys (unselected st) /\
   edge_keys (selected st') = edge_keys (selected st) ++ [e.1] /\
   forall k, k ∈ edge_keys (unselected st') <->
     k ∈ edge_keys (unselected st) /\ k.1 ≠ e.1.1 /\
     ~ ((1 < in_degree (selected st') e.1.2)%nat /\ k.2 = e.1.2)).
Proof.
  intros Inv. unfold greedy_step. destruct e as [[u v] d]; simpl.
  destruct (has_edge (unselected st) u v) eqn:Huv.
  2: { intros [= <-]. left. split; [done|].
       intros Hin. apply has_edge_true in Hin. congruence. }
  apply has_edge_true in Huv. unfold set_edge_attr; simpl.
  destruct (has_edge (graph st) u v) eqn:Hg; simpl; [|done].
  intros [= <-]. right. split; [done|]. simpl.
  assert ((u, v) ∉ edge_keys (selected st)) as Hfresh.
  { intros Hx. by apply (inv_out Inv u v v). }
  split; [by apply edge_keys_add_edge_new|].
  set (g' := mk (nodes (graph st)) _).
  assert (edge_keys g' = edge_keys g) as Hkeys.
  { unfold edge_keys at 1. subst g'; simpl.
    rewrite (inv_edges Inv), (with_flags_step g selected_key uns0 uns0_sub).
    apply with_flags_keys. }
  set (uns1 := remove_edges_from (unselected st) (out_edges g' u)).
  assert (forall k, k ∈ edge_keys uns1 <-> k ∈ edge_keys (unselected st) /\ k.1 ≠ u) as H1.
  { intros k. subst uns1. rewrite elem_of_remove_edges_from, elem_of_out_edges, Hkeys.
    split; intros [Hk Hne]; (split; [done|]).
    - intros Hu. apply Hne. split; [|done]. apply uns0_sub. by apply (inv_uns_sub Inv).
    - tauto. }
  intros k. destruct (1 <? _)%nat eqn:Hdeg.
  - apply Nat.ltb_lt in Hdeg.
    rewrite elem_of_remove_edges_from, elem_of_in_edges, H1. tauto.
  - apply Nat.ltb_ge in Hdeg. rewrite H1. split; [|tauto].
    intros [? ?]. repeat split; [done..|]. intros [? _]. lia.
Qed.

(** A round leaves the state alone on an edge that is no candidate. *)
Lemma greedy_loop_skip es st :
  (forall e, e ∈ es -> e.1 ∉ edge_keys (unselected st)) ->
  foldM (greedy_step selected_key) st es = Ok st.
Proof.
  induction es as [|e es IH]; intros Hskip; [done|]. simpl.
  assert (greedy_step selected_key st e = Ok st) as ->.
  { unfold greedy_step. destruct e as [[u v] d]; simpl.
    destruct (has_edge (unselected st) u v) eqn:Huv; [|done].
    apply has_edge_true in Huv. destruct (Hskip ((u, v), d)); [set_solver|done]. }
  simpl. apply IH. intros e' He'. apply Hskip. set_solver.
Qed.

(** [selected] only grows. *)
Lemma greedy_loop_grows es st st' k :
  greedy_inv st -> foldM (greedy_step selected_key) st es = Ok st' ->
  k ∈ edge_keys (selected st) -> k ∈ edge_keys (selected st').
Proof.
  revert st. induction es as [|e es IH]; intros st Inv; simpl.
  - by intros [= <-].
  - destruct (greedy_step selected_key st e) as [st1|] eqn:Hstep; simpl; [|done].
    intros Hloop Hk. apply (IH st1); [by apply (greedy_step_inv g selected_key uns0 uns0_sub st e)|done|].
    destruct (greedy_step_cases st e st1 Inv Hstep) as [[-> _]|(_ & Hsel & _)]; [done|].
    rewrite Hsel. set_solver.
Qed.

Lemma saturated_step st e st' k :
  greedy_inv st -> greedy_step selected_key st e = Ok st' ->
  saturated (selected st) k -> saturated (selected st') k.
Proof.
  intros Inv Hstep Hsat.
  destruct (greedy_step_cases st e st' Inv Hstep) as [[-> _]|(_ & Hsel & _)]; [done|].
  destruct Hsat as [[w Hw]|Hdeg]; [left|right].
  - exists w. rewrite Hsel. set_solver.
  - unfold in_degree, in_edges in *. rewrite Hsel, filter_app, length_app. lia.
Qed.

Lemma saturated_loop es st st' k :
  greedy_inv st -> foldM (greedy_step selected_key) st es = Ok st' ->
  saturated (selected st) k -> saturated (selected st') k.
Proof.
  revert st. induction es as [|e es IH]; intros st Inv; simpl.
  - by intros [= <-].
  - destruct (greedy_step selected_key st e) as [st1|] eqn:Hstep; simpl; [|done].
    intros Hloop Hsat. apply (IH st1); [|done|by apply (saturated_step st e)].
    by apply (greedy_step_inv g selected_key uns0 uns0_sub st e).
Qed.

(** Every candidate the loop has passed is saturated, and a candidate is
    only ever withdrawn when it is. *)
Lemma greedy_loop_saturates es st st' :
  greedy_inv st ->
  (forall k, k ∈ edge_keys uns0 ->
     k ∈ edge_keys (unselected st) \/ saturated (selected st) k) ->
  foldM (greedy_step selected_key) st es = Ok st' ->
  (forall k, k ∈ edge_keys uns0 ->
     k ∈ edge_keys (unselected st') \/ saturated (selected st') k) /\
  (forall e, e ∈ es -> e.1 ∈ edge_keys uns0 -> saturated (selected st') e.1).
Proof.
  revert st. induction es as [|e es IH]; intros st Inv Hopen; simpl.
  - intros [= <-]. split; [done|]. by intros e ?%elem_of_nil.
  - destruct (greedy_step selected_key st e) as [st1|] eqn:Hstep; simpl; [|done].
    intros Hloop.
    pose proof (greedy_step_inv g selected_key uns0 uns0_sub st e st1 Inv Hstep) as Inv1.
    assert ((forall k, k ∈ edge_keys uns0 ->
               k ∈ edge_keys (unselected st1) \/ saturated (selected st1) k) /\
            (e.1 ∈ edge_keys uns0 -> saturated (selected st1) e.1)) as [Hopen1 He].
    { destruct (greedy_step_cases st e st1 Inv Hstep)
        as [[-> Hout]|(Hin & Hsel & Huns)].
      - split; [done|]. intros He. by destruct (Hopen _ He).
      - assert (saturated (selected st1) e.1) as Hsat.
        { left. exists e.1.2. rewrite Hsel. destruct e as [[u v] d]. set_solver. }
        split; [|done]. intros k Hk. destruct (Hopen k Hk) as [Hku|Hks].
        + destruct (decide (k.1 = e.1.1)) as [Hu|Hu].
          { right. left. exists e.1.2. rewrite Hu, Hsel.
            destruct e as [[u v] d]. set_solver. }
          destruct (decide ((1 < in_degree (selected st1) e.1.2)%nat /\ k.2 = e.1.2))
            as [[Hdeg Hv]|Hno].
          { right. right. rewrite Hv. lia. }
          left. apply Huns. tauto.
        + right. by apply (saturated_step st e). }
    destruct (IH st1 Inv1 Hopen1 Hloop) as [Hfinal Hes]. split; [done|].
    intros e' [->|He']%elem_of_cons Hcand; [|by apply Hes].
    apply (saturated_loop es st1); [done|done|by apply He].
Qed.

End greedy_order.

Lemma edge_keys_drop_node g n :
  DiGraph.edge_keys (DiGraph.drop_node g n)
  = filter (fun k => k.1 ≠ n /\ k.2 ≠ n) (DiGraph.edge_keys g).
Proof.
  unfold DiGraph.edge_keys, DiGraph.drop_node; simpl.
  induction (DiGraph.edges g) as [|e l IH]; [done|].
  rewrite fmap_cons, !filter_cons.
  destruct (decide (e.1.1 ≠ n /\ e.1.2 ≠ n)); rewrite ?fmap_cons; by rewrite IH.
Qed.

(** The threshold pass keeps every edge between two nodes that it keeps. *)
Lemma drop_below_keeps th l uns uns' k :
  foldM (drop_below th) uns l = Ok uns' ->
  k ∈ DiGraph.edge_keys uns ->
  (forall nd score, nd ∈ l -> getnum nd.2 "score" = Ok score ->
     Qlt_bool score th = true -> k.1 ≠ nd.1 /\ k.2 ≠ nd.1) ->
  k ∈ DiGraph.edge_keys uns'.
Proof.
  revert uns. induction l as [|nd l IH]; intros uns; simpl.
  - by intros [= <-].
  - destruct (drop_below th uns nd) as [uns1|] eqn:Hdrop; simpl; [|done].
    intros Hloop Hk Hkeep. apply (IH uns1); [done| |].
    + unfold drop_below in Hdrop.
      destruct (getnum nd.2 "score") as [score|] eqn:Hs; simpl in Hdrop; [|done].
      destruct (Qlt_bool score th) eqn:Hlt; [|by injection Hdrop as <-].
      unfold DiGraph.remove_node in Hdrop. destruct (DiGraph.has_node uns nd.1); [|done].
      injection Hdrop as <-. rewrite edge_keys_drop_node. apply list_elem_of_filter.
      split; [|done]. apply (Hkeep nd score); [set_solver|done|done].
    + intros nd' score Hin. apply Hkeep. set_solver.
Qed.

Lemma remove_below_threshold_keeps g node_threshold uns0 k :
  remove_below_threshold node_threshold
    (DiGraph.mk (DiGraph.nodes g) (DiGraph.edges g)) = Ok uns0 ->
  k ∈ DiGraph.edge_keys g ->
  ~ below_threshold g node_threshold k.1 ->
  ~ below_threshold g node_threshold k.2 ->
  k ∈ DiGraph.edge_keys uns0.
Proof.
  unfold remove_below_threshold, below_threshold.
  destruct (threshold_active node_threshold) as [th|] eqn:Hth; [|by intros [= <-]].
  simpl. intros Hloop Hk Hu Hv. apply (drop_below_keeps th _ _ _ k Hloop); [done|].
  intros [n d] score Hin Hscore Hlt. simpl in *.
  split; intros <-; [apply Hu|apply Hv]; by exists th, d, score.
Qed.

Lemma flagged_count_ge selected_key (P : Z * Z -> Prop) `{!forall k, Decision (P k)}
    (sel : list (Z * Z)) (es : list ((Z * Z) * gmap string PyVal)) :
  NoDup sel -> (forall k, k ∈ sel -> k ∈ es.*1) ->
  (length (filter P sel)
   <= length (filter (fun e => P e.1 /\ flag_is_true selected_key e.2)
                     (with_flags selected_key sel es)))%nat.
Proof.
  intros Hnd Hsub. set (l := filter (fun e => _ /\ _) _).
  rewrite <- (length_fmap fst l). apply submseteq_length, NoDup_submseteq.
  - by apply NoDup_filter.
  - intros k [HP Hk]%list_elem_of_filter.
    pose proof (Hsub _ Hk) as Hes.
    apply list_elem_of_fmap in Hes as (e & -> & He).
    apply list_elem_of_fmap.
    exists (e.1, <[selected_key := VBool (bool_decide (e.1 ∈ sel))]> e.2).
    split; [done|]. apply list_elem_of_filter. split.
    + split; [done|]. unfold flag_is_true; simpl.
      by rewrite lookup_insert_eq, bool_decide_eq_true_2.
    + unfold with_flags. apply list_elem_of_In, in_map_iff. exists e.
      split; [done|]. by apply list_elem_of_In.
Qed.

(** The selection is maximal: on return, a candidate edge between two
    nodes that passed the threshold is blocked at its source (which has a
    selected outgoing edge) or at its target (which has two selected
    incoming edges). *)
Theorem greedy_maximal g selected_key metric node_threshold g' u v :
  DiGraph.wf g ->
  greedy_track g selected_key metric node_threshold = Ok g' ->
  (u, v) ∈ DiGraph.edge_keys g ->
  ~ below_threshold g node_threshold u ->
  ~ below_threshold g node_threshold v ->
  (1 <= length (selected_out g' selected_key u))%nat \/
  (2 <= length (selected_in g' selected_key v))%nat.
Proof.
  intros Hwf Htrack Huv Hu Hv. unfold greedy_track in Htrack.
  destruct (DiGraph.number_of_nodes g =? 0)%nat eqn:Hn.
  { apply Nat.eqb_eq in Hn. destruct Hwf as (_ & _ & Hends).
    destruct (Hends u v Huv) as [Hin _]. unfold DiGraph.node_ids, DiGraph.number_of_nodes in *.
    destruct (DiGraph.nodes g); [by apply elem_of_nil in Hin|done]. }
  destruct (greedy_run g selected_key metric node_threshold) as [st|] eqn:Hrun;
    simpl in Htrack; [|done].
  injection Htrack as <-.
  unfold greedy_run in Hrun. rewrite (copy_of_wf g Hwf) in Hrun.
  destruct (remove_below_threshold _ _) as [uns0|] eqn:Hth; simpl in Hrun; [|done].
  destruct (sorted_edges _ _) as [es|] eqn:Hes; simpl in Hrun; [|done].
  pose proof (remove_below_threshold_spec g node_threshold uns0 Hth) as Huns.
  assert (forall k, k ∈ DiGraph.edge_keys uns0 -> k ∈ DiGraph.edge_keys g) as Hsub.
  { intros k Hk. by apply Huns. }
  pose proof (greedy_inv_init g selected_key uns0 Hsub) as Inv0.
  pose proof (greedy_loop_inv g selected_key uns0 Hsub es _ st Inv0 Hrun) as Inv.
  destruct (greedy_loop_saturates g selected_key uns0 Hsub es _ st Inv0) as [_ Hsat];
    [by left|done|].
  assert (exists d, ((u, v), d) ∈ es) as [d Hd].
  { unfold sorted_edges in Hes.
    destruct (mapM _ _) as [keyed|] eqn:Hkeyed; simpl in Hes; [|done].
    injection Hes as <-. apply keyed_edges in Hkeyed as [Hl _].
    assert ((u, v) ∈ (sort_by_key keyed).*2.*1) as Hin.
    { rewrite sort_by_key_perm, Hl.
      fold (DiGraph.edge_keys (DiGraph.set_edge_attributes g (VBool false) selected_key)).
      by rewrite edge_keys_set_edge_attributes. }
    apply list_elem_of_fmap in Hin as ([k d] & Heq & Hin). simpl in Heq. subst k. eauto. }
  pose proof (Hsat _ Hd (remove_below_threshold_keeps g node_threshold uns0 (u, v)
                           Hth Huv Hu Hv)) as Hblocked.
  destruct Hwf as (_ & Hnd & _).
  unfold selected_out, selected_in. rewrite (inv_edges Inv).
  assert (forall k, k ∈ DiGraph.edge_keys (selected st) -> k ∈ (DiGraph.edges g).*1) as Hin.
  { intros k Hk. apply Hsub. by apply (inv_sel_sub Inv). }
  destruct Hblocked as [[w Hw]|Hdeg]; [left|right].
  - pose proof (flagged_count_ge selected_key (fun k => k.1 = u)
                  (DiGraph.edge_keys (selected st)) (DiGraph.edges g)
                  (inv_sel_nodup Inv) Hin) as Hc.
    assert (1 <= length (filter (fun k : Z * Z => k.1 = u)
                                (DiGraph.edge_keys (selected st))))%nat; [|simpl in *; lia].
    assert ((u, w) ∈ filter (fun k : Z * Z => k.1 = u) (DiGraph.edge_keys (selected st)))
      as Hmem by (by apply list_elem_of_filter).
    destruct (filter _ _); [by apply elem_of_nil in Hmem|simpl; lia].
  - pose proof (flagged_count_ge selected_key (fun k => k.2 = v)
                  (DiGraph.edge_keys (selected st)) (DiGraph.edges g)
                  (inv_sel_nodup Inv) Hin) as Hc.
    unfold DiGraph.in_degree, DiGraph.in_edges in Hdeg. simpl in *. lia.
Qed.

Lemma foldM_app {A B} (body : B -> A -> res B) st (l1 l2 : list A) :
  foldM body st (l1 ++ l2) = st1 ← foldM body st l1; foldM body st1 l2.
Proof.
  revert st. induction l1 as [|x l1 IH]; intros st; simpl; [done|].
  destruct (body st x); simpl; [apply IH|done].
Qed.

Lemma edge_flag_with_flags ns selected_key sel es k :
  k ∈ es.*1 ->
  edge_flag (DiGraph.mk ns (with_flags selected_key sel es)) k selected_key
  = Some (VBool (bool_decide (k ∈ sel))).
Proof.
  unfold edge_flag, DiGraph.edge_data; simpl.
  induction es as [|e es IH]; [by intros ?%elem_of_nil|].
  intros Hin. cbn [with_flags map list_find]. cbn [fst].
  destruct (decide (e.1 = k)) as [He|He]; simpl.
  - subst k. by rewrite lookup_insert_eq.
  - rewrite fmap_cons in Hin. apply elem_of_cons in Hin as [->|Hin]; [done|].
    specialize (IH Hin). unfold with_flags in IH.
    destruct (list_find _ _) as [[i e']|]; simpl in *; done.
Qed.

(** The shortest candidate is always taken: an edge between two nodes that
    passed the threshold whose metric is strictly below that of every other
    such edge is flagged true. *)
Theorem greedy_shortest_selected g selected_key metric node_threshold g' u v d q :
  DiGraph.wf g ->
  selected_key ≠ metric ->
  greedy_track g selected_key metric node_threshold = Ok g' ->
  ((u, v), d) ∈ DiGraph.edges g ->
  ~ below_threshold g node_threshold u ->
  ~ below_threshold g node_threshold v ->
  getnum d metric = Ok q ->
  (forall k' d' q',
     (k', d') ∈ DiGraph.edges g -> k' ≠ (u, v) ->
     ~ below_threshold g node_threshold k'.1 ->
     ~ below_threshold g node_threshold k'.2 ->
     getnum d' metric = Ok q' -> (q < q')%Q) ->
  edge_flag g' (u, v) selected_key = Some (VBool true).
Proof.
  intros Hwf Hne Htrack Hd Hu Hv Hq Hleast.
  assert ((u, v) ∈ DiGraph.edge_keys g) as Huv.
  { apply list_elem_of_fmap. by exists ((u, v), d). }
  unfold greedy_track in Htrack.
  destruct (DiGraph.number_of_nodes g =? 0)%nat eqn:Hn.
  { apply Nat.eqb_eq in Hn. destruct Hwf as (_ & _ & Hends).
    destruct (Hends u v Huv) as [Hin _].
    unfold DiGraph.node_ids, DiGraph.number_of_nodes in *.
    destruct (DiGraph.nodes g); [by apply elem_of_nil in Hin|done]. }
  destruct (greedy_run g selected_key metric node_threshold) as [st|] eqn:Hrun;
    simpl in Htrack; [|done].
  injection Htrack as <-.
  unfold greedy_run in Hrun. rewrite (copy_of_wf g Hwf) in Hrun.
  destruct (remove_below_threshold _ _) as [uns0|] eqn:Hth; simpl in Hrun; [|done].
  destruct (sorted_edges _ _) as [es|] eqn:Hes; simpl in Hrun; [|done].
  pose proof (remove_below_threshold_spec g node_threshold uns0 Hth) as Huns.
  assert (forall k, k ∈ DiGraph.edge_keys uns0 -> k ∈ DiGraph.edge_keys g) as Hsub.
  { intros k Hk. by apply Huns. }
  pose proof (greedy_inv_init g selected_key uns0 Hsub) as Inv0.
  pose proof (greedy_loop_inv g selected_key uns0 Hsub es _ st Inv0 Hrun) as Inv.
  set (g0 := DiGraph.set_edge_attributes g (VBool false) selected_key) in *.
  set (st0 := mk_greedy g0 DiGraph.empty uns0) in *.
  unfold sorted_edges in Hes.
  destruct (mapM _ _) as [keyed|] eqn:Hkeyed; simpl in Hes; [|done].
  injection Hes as <-. apply keyed_edges in Hkeyed as [Hl Hnum].
  set (d0 := <[selected_key := VBool false]> d).
  assert (exists q0, (q0, ((u, v), d0)) ∈ sort_by_key keyed) as [q0 Hk0].
  { assert (((u, v), d0) ∈ keyed.*2) as Hin.
    { rewrite Hl. subst g0; simpl. apply list_elem_of_In, in_map_iff.
      exists ((u, v), d). split; [done|]. by apply list_elem_of_In. }
    apply list_elem_of_fmap in Hin as ([q0 e] & -> & Hin).
    exists q0. by rewrite sort_by_key_perm. }
  assert (Forall (fun qe => getnum qe.2.2 metric = Ok qe.1) (sort_by_key keyed)) as Hnum'.
  { by rewrite sort_by_key_perm. }
  assert (NoDup (sort_by_key keyed).*2.*1) as Hnd.
  { rewrite sort_by_key_perm, Hl. subst g0.
    fold (DiGraph.edge_keys (DiGraph.set_edge_attributes g (VBool false) selected_key)).
    rewrite edge_keys_set_edge_attributes. apply Hwf. }
  assert (forall qe, qe ∈ sort_by_key keyed -> exists d1,
            (qe.2.1, d1) ∈ DiGraph.edges g /\ getnum d1 metric = Ok qe.1) as Horig.
  { intros [q1 e1] Hin. pose proof Hin as Hin2.
    rewrite sort_by_key_perm in Hin2.
    assert (e1 ∈ keyed.*2) as He1 by (apply list_elem_of_fmap; by exists (q1, e1)).
    rewrite Hl in He1. subst g0; simpl in He1.
    apply list_elem_of_In, in_map_iff in He1 as ([k1 d1] & <- & He1).
    exists d1. split; [by apply list_elem_of_In|].
    rewrite Forall_forall in Hnum'. specialize (Hnum' _ Hin). simpl in *.
    unfold getnum, getitem in *. by rewrite lookup_insert_ne in Hnum'. }
  assert (q0 = q) as ->.
  { destruct (Horig _ Hk0) as (d1 & Hin1 & Hq1). simpl in *.
    destruct Hwf as (_ & Hnd' & _).
    assert (d1 = d) as -> by (eapply NoDup_fst_unique; [exact Hnd'|done|done]).
    congruence. }
  apply list_elem_of_split in Hk0 as (l1 & l2 & Hsplit).
  pose proof (sort_by_key_sorted keyed) as Hsorted. rewrite Hsplit in Hsorted, Hnd.
  rewrite Hsplit, fmap_app, fmap_cons, foldM_app in Hrun.
  assert (foldM (greedy_step selected_key) st0 l1.*2 = Ok st0) as Hskip.
  { apply (greedy_loop_skip g selected_key uns0 Hsub). intros e1 (qe & -> & Hin)%list_elem_of_fmap Hcand.
    simpl in Hcand. destruct (Huns _ Hcand) as (_ & Hu1 & Hv1).
    destruct (Horig qe) as (d1 & Hin1 & Hq1); [rewrite Hsplit; set_solver|].
    assert (qe.2.1 ≠ (u, v)) as Hk1.
    { intros Heq. rewrite !fmap_app, !fmap_cons in Hnd. simpl in Hnd.
      apply NoDup_app in Hnd as (_ & Hdisj & _). apply (Hdisj (u, v)); [|set_solver].
      apply list_elem_of_fmap. exists qe.2. split; [done|].
      apply list_elem_of_fmap. by exists qe. }
    pose proof (Hleast _ _ _ Hin1 Hk1 Hu1 Hv1 Hq1) as Hlt.
    pose proof (StronglySorted_app_1_elem_of _ _ _ qe (q, ((u, v), d0)) Hsorted Hin
                  ltac:(set_solver)) as Hle.
    simpl in Hle. apply Qlt_not_le in Hlt. done. }
  rewrite Hskip in Hrun. simpl in Hrun.
  destruct (greedy_step selected_key st0 ((u, v), d0)) as [st1|] eqn:Hstep;
    simpl in Hrun; [|done].
  pose proof (greedy_step_inv g selected_key uns0 Hsub st0 _ st1 Inv0 Hstep) as Inv1.
  assert ((u, v) ∈ DiGraph.edge_keys (selected st1)) as Hsel1.
  { destruct (greedy_step_cases g selected_key uns0 Hsub st0 _ st1 Inv0 Hstep)
      as [[_ Hout]|(_ & Hsel & _)].
    - destruct Hout. simpl.
      by apply (remove_below_threshold_keeps g node_threshold uns0 (u, v)).
    - rewrite Hsel. set_solver. }
  pose proof (greedy_loop_grows g selected_key uns0 Hsub _ st1 st (u, v) Inv1 Hrun Hsel1)
    as Hsel.
  destruct (graph st) as [ns es'] eqn:Hg.
  pose proof (inv_edges Inv) as Hedges. rewrite Hg in Hedges. simpl in Hedges.
  rewrite Hedges, edge_flag_with_flags by done.
  by rewrite bool_decide_eq_true_2.
Qed.

(** ** greedy_track: earlier flags do not matter *)

Lemma node_ids_drop_node g n :
  DiGraph.node_ids (DiGraph.drop_node g n) = filter (fun m => m ≠ n) (DiGraph.node_ids g).
Proof.
  unfold DiGraph.node_ids, DiGraph.drop_node; simpl.
  induction (DiGraph.nodes g) as [|nd l IH]; [done|].
  rewrite fmap_cons, !filter_cons.
  destruct (decide (nd.1 ≠ n)); rewrite ?fmap_cons; by rewrite IH.
Qed.

Lemma drop_below_same th l uns uns' :
  same_keys uns uns' ->
  res_rel same_keys (foldM (drop_below th) uns l) (foldM (drop_below th) uns' l).
Proof.
  revert uns uns'. induction l as [|nd l IH]; intros uns uns' Hsame; [done|].
  cbn [foldM].
  assert (res_rel same_keys (drop_below th uns nd) (drop_below th uns' nd)) as Hstep.
  { unfold drop_below. destruct (getnum nd.2 "score") as [score|]; simpl; [|done].
    destruct (Qlt_bool score th); [|done].
    unfold DiGraph.remove_node, DiGraph.has_node.
    destruct Hsame as [Hn He]. rewrite Hn. case_bool_decide; simpl; [|done].
    split; [by rewrite !node_ids_drop_node, Hn|by rewrite !edge_keys_drop_node, He]. }
  destruct (drop_below th uns nd) as [u1|], (drop_below th uns' nd) as [u1'|];
    simpl in *; try done. by apply IH.
Qed.

Lemma greedy_step_same selected_key st st' e :
  same_state st st' ->
  res_rel same_state (greedy_step selected_key st e) (greedy_step selected_key st' e).
Proof.
  intros (Hg & Hs & Hn & Hu). unfold greedy_step. destruct e as [[u v] d]; simpl.
  unfold DiGraph.has_edge. rewrite Hu, Hg.
  case_bool_decide; simpl; [|done].
  destruct (DiGraph.set_edge_attr (graph st') (u, v) selected_key (VBool true))
    as [g1|]; simpl; [|done].
  rewrite Hs. split; [done|]. split; [done|]. simpl.
  assert (same_keys
            (DiGraph.remove_edges_from (unselected st) (DiGraph.out_edges g1 u))
            (DiGraph.remove_edges_from (unselected st') (DiGraph.out_edges g1 u)))
    as [Hn1 Hu1].
  { split; [done|]. by rewrite !edge_keys_remove_edges_from, Hu. }
  destruct (1 <? _)%nat; [|done].
  split; [done|]. rewrite !edge_keys_remove_edges_from.
  unfold DiGraph.in_edges. by rewrite Hu1, Hu.
Qed.

Lemma greedy_loop_same selected_key es st st' :
  same_state st st' ->
  res_rel same_state (foldM (greedy_step selected_key) st es)
                     (foldM (greedy_step selected_key) st' es).
Proof.
  revert st st'. induction es as [|e es IH]; intros st st' Hsame; [done|].
  cbn [foldM]. pose proof (greedy_step_same selected_key st st' e Hsame) as Hstep.
  destruct (greedy_step selected_key st e) as [s1|],
           (greedy_step selected_key st' e) as [s1'|]; simpl in *; try done.
  by apply IH.
Qed.

Lemma res_rel_eq {A} (r r' : res A) : res_rel eq r r' -> r = r'.
Proof. destruct r, r'; simpl; intros; by subst. Qed.

Lemma wf_no_nodes_no_edges g :
  DiGraph.wf g -> DiGraph.nodes g = [] -> DiGraph.edges g = [].
Proof.
  intros (_ & _ & Hends) Hz.
  destruct (DiGraph.edges g) as [|[[u v] d] l] eqn:He; [done|].
  destruct (Hends u v) as [Hu _].
  - unfold DiGraph.edge_keys. rewrite He. set_solver.
  - unfold DiGraph.node_ids in Hu. rewrite Hz in Hu. by apply elem_of_nil in Hu.
Qed.

Lemma greedy_track_reset g1 g2 selected_key metric node_threshold :
  DiGraph.wf g1 -> DiGraph.wf g2 ->
  DiGraph.set_edge_attributes g1 (VBool false) selected_key
  = DiGraph.set_edge_attributes g2 (VBool false) selected_key ->
  greedy_track g1 selected_key metric node_threshold
  = greedy_track g2 selected_key metric node_threshold.
Proof.
  intros Hwf1 Hwf2 Hreset.
  assert (DiGraph.nodes g1 = DiGraph.nodes g2) as Hnodes.
  { by apply (f_equal DiGraph.nodes) in Hreset. }
  unfold greedy_track, DiGraph.number_of_nodes.
  rewrite Hnodes. destruct (length (DiGraph.nodes g2) =? 0)%nat eqn:Hlen.
  { apply Nat.eqb_eq, length_zero_iff_nil in Hlen.
    pose proof (wf_no_nodes_no_edges g1 Hwf1 ltac:(by rewrite Hnodes)) as He1.
    pose proof (wf_no_nodes_no_edges g2 Hwf2 Hlen) as He2.
    destruct g1, g2; simpl in *; by subst. }
  unfold greedy_run. rewrite (copy_of_wf g1 Hwf1), (copy_of_wf g2 Hwf2), Hreset.
  assert (same_keys (DiGraph.mk (DiGraph.nodes g1) (DiGraph.edges g1))
                    (DiGraph.mk (DiGraph.nodes g2) (DiGraph.edges g2))) as Hsame.
  { split; [unfold DiGraph.node_ids; simpl; by rewrite Hnodes|].
    change (DiGraph.edge_keys g1 = DiGraph.edge_keys g2).
    rewrite <- (edge_keys_set_edge_attributes g1 (VBool false) selected_key),
            <- (edge_keys_set_edge_attributes g2 (VBool false) selected_key).
    by rewrite Hreset. }
  assert (res_rel same_keys
            (remove_below_threshold node_threshold
               (DiGraph.mk (DiGraph.nodes g1) (DiGraph.edges g1)))
            (remove_below_threshold node_threshold
               (DiGraph.mk (DiGraph.nodes g2) (DiGraph.edges g2)))) as Hth.
  { unfold remove_below_threshold.
    destruct (threshold_active node_threshold) as [th|]; [|done].
    cbn [DiGraph.nodes]. rewrite Hnodes in Hsame |- *.
    exact (drop_below_same _ _ _ _ Hsame). }
  destruct (remove_below_threshold node_threshold
              (DiGraph.mk (DiGraph.nodes g1) (DiGraph.edges g1))) as [u1|],
           (remove_below_threshold node_threshold
              (DiGraph.mk (DiGraph.nodes g2) (DiGraph.edges g2))) as [u2|];
    simpl in *; try done; [|by subst].
  destruct (sorted_edges _ metric) as [es|]; simpl; [|done].
  set (g0 := DiGraph.set_edge_attributes g2 (VBool false) selected_key).
  pose proof (greedy_loop_same selected_key es
                (mk_greedy g0 DiGraph.empty u1) (mk_greedy g0 DiGraph.empty u2)
                ltac:(done)) as Hloop.
  destruct (foldM _ (mk_greedy g0 DiGraph.empty u1) es) as [s1|],
           (foldM _ (mk_greedy g0 DiGraph.empty u2) es) as [s2|]; simpl in *;
    try done; [|by subst].
  by destruct Hloop as [-> _].
Qed.

Lemma agree_except_reset name g g' value :
  agree_except name g g' ->
  DiGraph.set_edge_attributes g value name = DiGraph.set_edge_attributes g' value name.
Proof.
  intros [Hn He]. unfold DiGraph.set_edge_attributes. rewrite Hn. f_equal.
  induction He as [|e e' l l' [Hk Hd] _ IH]; [done|].
  simpl. rewrite IH, Hk. do 2 f_equal. apply map_eq. intros k.
  destruct (decide (k = name)) as [->|Hne].
  - by rewrite !lookup_insert_eq.
  - rewrite !lookup_insert_ne by done. by apply Hd.
Qed.

Lemma greedy_run_wf g selected_key uns0 st :
  DiGraph.wf g -> greedy_inv g selected_key uns0 st -> DiGraph.wf (graph st).
Proof.
  intros Hwf Inv. unfold DiGraph.wf, DiGraph.node_ids, DiGraph.edge_keys.
  rewrite (inv_nodes Inv), (inv_edges Inv), with_flags_keys. exact Hwf.
Qed.

Lemma greedy_run_reset g selected_key uns0 st value :
  greedy_inv g selected_key uns0 st ->
  DiGraph.set_edge_attributes (graph st) value selected_key
  = DiGraph.set_edge_attributes g value selected_key.
Proof.
  intros Inv. unfold DiGraph.set_edge_attributes.
  rewrite (inv_nodes Inv), (inv_edges Inv). f_equal.
  unfold with_flags. rewrite List.map_map. apply List.map_ext. intros e; simpl.
  by rewrite insert_insert_eq.
Qed.

(** Running [greedy_track] on its own result changes nothing: the second
    run returns the graph it was given. *)
Theorem greedy_track_idempotent g selected_key metric node_threshold g' :
  DiGraph.wf g ->
  greedy_track g selected_key metric node_threshold = Ok g' ->
  greedy_track g' selected_key metric node_threshold = Ok g'.
Proof.
  intros Hwf Hrun. pose proof Hrun as Hrun'. unfold greedy_track in Hrun'.
  destruct (DiGraph.number_of_nodes g =? 0)%nat; [by simplify_eq|].
  destruct (greedy_run g selected_key metric node_threshold) as [st|] eqn:Hst;
    simpl in Hrun'; [|done].
  injection Hrun' as <-.
  destruct (greedy_run_inv _ _ _ _ _ Hwf Hst) as (uns0 & Inv & _).
  rewrite <- Hrun. apply greedy_track_reset; [by eapply greedy_run_wf|done|].
  by eapply greedy_run_reset.
Qed.

(** The values found under [selected_key] when [greedy_track] starts have
    no influence: two graphs that differ in them only give the same outcome,
    the same graph or the same exception. *)
Theorem greedy_track_ignores_old_flags g1 g2 selected_key metric node_threshold :
  DiGraph.wf g1 ->
  agree_except selected_key g1 g2 ->
  greedy_track g1 selected_key metric node_threshold
  = greedy_track g2 selected_key metric node_threshold.
Proof.
  intros Hwf1 Hag. apply greedy_track_reset; [done| |by apply agree_except_reset].
  destruct Hag as [Hn He]. unfold DiGraph.wf, DiGraph.node_ids, DiGraph.edge_keys.
  rewrite <- Hn.
  assert ((DiGraph.edges g2).*1 = (DiGraph.edges g1).*1) as ->; [|exact Hwf1].
  clear -He. induction He as [|e e' l l' [Hk _] _ IH]; [done|].
  by rewrite !fmap_cons, IH, Hk.
Qed.

(** ** greedy_track: a missing metric *)

Lemma mapM_res_error {A B} (f : A -> res B) (l : list A) x err :
  x ∈ l -> f x = Err err ->
  (forall z, z ∈ l -> f z = Err err \/ exists y, f z = Ok y) ->
  mapM f l = Err err.
Proof.
  induction l as [|z l IH]; intros Hin Hx Hall; [by apply elem_of_nil in Hin|].
  simpl. destruct (Hall z) as [Hz|[y Hz]]; [set_solver|by rewrite Hz|].
  rewrite Hz. simpl.
  apply elem_of_cons in Hin as [->|Hin]; [congruence|].
  rewrite IH; [done..|]. intros; apply Hall; set_solver.
Qed.

Lemma remove_below_threshold_total g node_threshold :
  DiGraph.wf g ->
  (threshold_active node_threshold ≠ None ->
   forall nd, nd ∈ DiGraph.nodes g -> exists score, getnum nd.2 "score" = Ok score) ->
  exists uns0,
    remove_below_threshold node_threshold
      (DiGraph.mk (DiGraph.nodes g) (DiGraph.edges g)) = Ok uns0.
Proof.
  intros Hwf Hscore. unfold remove_below_threshold.
  destruct (threshold_active node_threshold) as [th|] eqn:Hact; [|by eexists].
  simpl. apply drop_below_total.
  - apply Hwf.
  - intros nd Hin. unfold DiGraph.node_ids; simpl.
    apply list_elem_of_fmap. eauto.
  - intros nd Hin. by apply Hscore.
Qed.

(** When a graph with nodes has an edge without the [metric] attribute,
    [greedy_track] raises [KeyError] - unless [metric] is [selected_key]
    itself, which the function has just written on every edge. *)
Theorem greedy_track_missing_metric g selected_key metric node_threshold e :
  DiGraph.wf g ->
  selected_key ≠ metric ->
  (threshold_active node_threshold ≠ None ->
   forall nd, nd ∈ DiGraph.nodes g -> exists score, getnum nd.2 "score" = Ok score) ->
  e ∈ DiGraph.edges g -> e.2 !! metric = None ->
  (forall e', e' ∈ DiGraph.edges g ->
     e'.2 !! metric = None \/ exists q, getnum e'.2 metric = Ok q) ->
  greedy_track g selected_key metric node_threshold = Err KeyError.
Proof.
  intros Hwf Hne Hscore Hin Hmiss Hall. unfold greedy_track.
  destruct (DiGraph.number_of_nodes g =? 0)%nat eqn:Hlen.
  { apply Nat.eqb_eq, length_zero_iff_nil in Hlen.
    rewrite (wf_no_nodes_no_edges g Hwf Hlen) in Hin. by apply elem_of_nil in Hin. }
  unfold greedy_run. rewrite (copy_of_wf g Hwf).
  destruct (remove_below_threshold_total g node_threshold Hwf Hscore) as [uns0 ->].
  simpl. unfold sorted_edges.
  rewrite (mapM_res_error _ _ (e.1, <[selected_key := VBool false]> e.2) KeyError);
    [done| | |].
  - apply list_elem_of_In, in_map_iff. exists e. split; [done|].
    by apply list_elem_of_In.
  - simpl. unfold getnum, getitem. by rewrite lookup_insert_ne, Hmiss.
  - intros z (e' & <- & Hin')%list_elem_of_In%in_map_iff. simpl.
    apply list_elem_of_In in Hin'. unfold getnum, getitem in *.
    rewrite lookup_insert_ne by done.
    destruct (Hall e' Hin') as [->|[q Hq]]; [by left|right].
    destruct (e'.2 !! metric) as [val|]; simpl in *; [|done].
    destruct (as_num val); [|done]. by eexists.
Qed.

(** ** The scenario graph as an instance *)

Lemma scenario_not_below metric n :
  n ≠ c1 -> ~ below_threshold (scenario metric) (Some (1 # 2)) n.
Proof.
  intros Hn (th & d & score & Hact & Hin & Hs & Hlt).
  vm_compute in Hact. injection Hact as <-.
  apply list_elem_of_In in Hin. simpl in Hin.
  destruct Hin as [Hin|[Hin|[Hin|[]]]]; injection Hin as <- <-;
    try done; vm_compute in Hs; injection Hs as <-; vm_compute in Hlt; done.
Qed.

Lemma scenario_scores metric nd :
  nd ∈ DiGraph.nodes (scenario metric) -> exists score, getnum nd.2 "score" = Ok score.
Proof.
  intros Hin. apply list_elem_of_In in Hin. simpl in Hin.
  destruct Hin as [<-|[<-|[<-|[]]]]; vm_compute; by eexists.
Qed.

Lemma greedy_maximal_witness :
  DiGraph.wf (scenario "distance") /\
  greedy_track (scenario "distance") "selected" "distance" (Some (1 # 2))
    = Ok (scenario_result "selected" "distance") /\
  (b1, a0) ∈ DiGraph.edge_keys (scenario "distance") /\
  ~ below_threshold (scenario "distance") (Some (1 # 2)) b1 /\
  ~ below_threshold (scenario "distance") (Some (1 # 2)) a0 /\
  ((1 <= length (selected_out (scenario_result "selected" "distance") "selected" b1))%nat \/
   (2 <= length (selected_in (scenario_result "selected" "distance") "selected" a0))%nat).
Proof.
  assert ((b1, a0) ∈ DiGraph.edge_keys (scenario "distance")) as Hin.
  { vm_compute. apply list_elem_of_here. }
  split; [apply scenario_wf|]. split; [vm_compute; reflexivity|].
  split; [exact Hin|].
  split; [by apply scenario_not_below|]. split; [by apply scenario_not_below|].
  apply (greedy_maximal (scenario "distance") "selected" "distance" (Some (1 # 2))).
  - apply scenario_wf.
  - vm_compute. reflexivity.
  - exact Hin.
  - by apply scenario_not_below.
  - by apply scenario_not_below.
Defined.

Lemma greedy_shortest_selected_witness :
  DiGraph.wf (scenario "distance") /\
  greedy_track (scenario "distance") "selected" "distance" (Some (1 # 2))
    = Ok (scenario_result "selected" "distance") /\
  ((b1, a0), {[ "distance" := VFloat 1 ]}) ∈ DiGraph.edges (scenario "distance") /\
  getnum ({[ "distance" := VFloat 1 ]} : gmap string PyVal) "distance" = Ok 1%Q /\
  edge_flag (scenario_result "selected" "distance") (b1, a0) "selected"
    = Some (VBool true).
Proof.
  assert (((b1, a0), {[ "distance" := VFloat 1 ]}) ∈ DiGraph.edges (scenario "distance"))
    as Hin by apply list_elem_of_here.
  split; [apply scenario_wf|]. split; [vm_compute; reflexivity|].
  split; [exact Hin|]. split; [vm_compute; reflexivity|].
  apply (greedy_shortest_selected (scenario "distance") "selected" "distance"
           (Some (1 # 2)) _ b1 a0 {[ "distance" := VFloat 1 ]} 1%Q).
  - apply scenario_wf.
  - discriminate.
  - vm_compute. reflexivity.
  - exact Hin.
  - by apply scenario_not_below.
  - by apply scenario_not_below.
  - vm_compute. reflexivity.
  - intros k' d' q' Hin' Hk' _ _ Hq'.
    apply list_elem_of_In in Hin'. simpl in Hin'.
    destruct Hin' as [Heq|[Heq|[]]]; injection Heq as <- <-; [done|].
    vm_compute in Hq'. injection Hq' as <-. reflexivity.
Defined.

Lemma greedy_track_returns_witness :
  DiGraph.wf (scenario "distance") /\
  exists g', greedy_track (scenario "distance") "selected" "distance" (Some (1 # 2)) = Ok g'.
Proof.
  split; [apply scenario_wf|].
  apply (greedy_track_returns (scenario "distance") "selected" "distance" (Some (1 # 2))).
  - apply scenario_wf.
  - intros _ nd. apply scenario_scores.
  - intros e Hin. apply list_elem_of_In in Hin. simpl in Hin.
    destruct Hin as [<-|[<-|[]]]; vm_compute; by eexists.
Defined.

Lemma greedy_track_idempotent_witness :
  DiGraph.wf (scenario "distance") /\
  greedy_track (scenario "distance") "selected" "distance" (Some (1 # 2))
    = Ok (scenario_result "selected" "distance") /\
  greedy_track (scenario_result "selected" "distance") "selected" "distance" (Some (1 # 2))
    = Ok (scenario_result "selected" "distance").
Proof.
  split; [apply scenario_wf|]. split; [vm_compute; reflexivity|].
  apply (greedy_track_idempotent (scenario "distance") "selected" "distance" (Some (1 # 2))).
  - apply scenario_wf.
  - vm_compute. reflexivity.
Defined.

Lemma greedy_track_ignores_old_flags_witness :
  DiGraph.wf (scenario "distance") /\
  agree_except "selected" (scenario "distance") (scenario_result "selected" "distance") /\
  greedy_track (scenario "distance") "selected" "distance" (Some (1 # 2))
  = greedy_track (scenario_result "selected" "distance") "selected" "distance"
      (Some (1 # 2)).
Proof.
  assert (agree_except "selected" (scenario "distance")
            (scenario_result "selected" "distance")) as Hag.
  { split; [done|]. unfold scenario_result, with_flags. simpl.
    repeat constructor; simpl; intros k Hk; by rewrite lookup_insert_ne. }
  split; [apply scenario_wf|]. split; [exact Hag|].
  apply (greedy_track_ignores_old_flags (scenario "distance")
           (scenario_result "selected" "distance") "selected" "distance" (Some (1 # 2))).
  - apply scenario_wf.
  - exact Hag.
Defined.

Lemma greedy_track_missing_metric_witness :
  DiGraph.wf (scenario "distance") /\
  ((b1, a0), {[ "distance" := VFloat 1 ]}) ∈ DiGraph.edges (scenario "distance") /\
  ({[ "distance" := VFloat 1 ]} : gmap string PyVal) !! "prediction_distance" = None /\
  greedy_track (scenario "distance") "selected" "prediction_distance" (Some (1 # 2))
    = Err KeyError.
Proof.
  assert (((b1, a0), {[ "distance" := VFloat 1 ]}) ∈ DiGraph.edges (scenario "distance"))
    as Hin by apply list_elem_of_here.
  split; [apply scenario_wf|]. split; [exact Hin|]. split; [vm_compute; reflexivity|].
  apply (greedy_track_missing_metric (scenario "distance") "selected"
           "prediction_distance" (Some (1 # 2))
           ((b1, a0), {[ "distance" := VFloat 1 ]})).
  - apply scenario_wf.
  - discriminate.
  - intros _ nd. apply scenario_scores.
  - exact Hin.
  - vm_compute. reflexivity.
  - intros e' Hin'. apply list_elem_of_In in Hin'. simpl in Hin'.
    destruct Hin' as [<-|[<-|[]]]; left; vm_compute; reflexivity.
Defined.

(** ** track: what it does to the caller's graph *)

Lemma filter_ext_in {A} (P Q : A -> Prop) `{!forall x, Decision (P x)}
    `{!forall x, Decision (Q x)} (l : list A) :
  (forall x, x ∈ l -> P x <-> Q x) -> filter P l = filter Q l.
Proof.
  induction l as [|x l IH]; intros Hl; [done|].
  rewrite !filter_cons, IH by (intros; apply Hl; set_solver).
  destruct (decide (P x)) as [HP|HP], (decide (Q x)) as [HQ|HQ]; try done;
    exfalso; apply (Hl x) in HP || apply (Hl x) in HQ; done || set_solver.
Qed.

Lemma filter_all {A} (P : A -> Prop) `{!forall x, Decision (P x)} (l : list A) :
  (forall x, x ∈ l -> P x) -> filter P l = l.
Proof.
  induction l as [|x l IH]; intros Hl; [done|].
  rewrite filter_cons, decide_True by (apply Hl; set_solver).
  rewrite IH; [done|]. intros; apply Hl; set_solver.
Qed.

Lemma nodes_remove_nodes_from d l :
  DiGraph.nodes (DiGraph.remove_nodes_from d l)
  = filter (fun nd => nd.1 ∉ l) (DiGraph.nodes d).
Proof.
  unfold DiGraph.remove_nodes_from. revert d.
  induction l as [|n l IH]; intros d; simpl.
  - symmetry. apply filter_all. intros ? _. apply not_elem_of_nil.
  - rewrite IH. unfold DiGraph.drop_node at 1; simpl.
    rewrite list_filter_filter. apply list_filter_iff. intros nd.
    rewrite not_elem_of_cons. tauto.
Qed.

Lemma edges_remove_nodes_from d l :
  DiGraph.edges (DiGraph.remove_nodes_from d l)
  = filter (fun e => (e.1.1 ∉ l) /\ (e.1.2 ∉ l)) (DiGraph.edges d).
Proof.
  unfold DiGraph.remove_nodes_from. revert d.
  induction l as [|n l IH]; intros d; simpl.
  - symmetry. apply filter_all. intros ? _. split; apply not_elem_of_nil.
  - rewrite IH. unfold DiGraph.drop_node at 1; simpl.
    rewrite list_filter_filter. apply list_filter_iff. intros e.
    rewrite !not_elem_of_cons. tauto.
Qed.

Lemma remove_nodes_without_keys_eq keys g :
  DiGraph.wf (SharedSubgraph.digraph g) ->
  remove_nodes_without_keys keys g
  = (Ok tt, SharedSubgraph.with_digraph g
              (DiGraph.remove_nodes_from (SharedSubgraph.digraph g)
                 (pruned_nodes keys (SharedSubgraph.digraph g)))).
Proof.
  intros (Hnd & _ & _). unfold remove_nodes_without_keys, pruned_nodes.
  destruct (any_key keys).
  - unfold bindM, getM. rewrite forM_remove_nodes; [done| |].
    + unfold nodes_to_remove. eapply sublist_NoDup; [exact Hnd|].
      apply fmap_sublist, sublist_filter.
    + unfold nodes_to_remove. intros n (nd & -> & Hrem)%list_elem_of_fmap.
      apply list_elem_of_filter in Hrem as [_ Hin].
      apply list_elem_of_fmap. eauto.
  - unfold retM. by destruct g as [[]].
Qed.

Lemma pruned_edges_by_nodes d l :
  DiGraph.wf d ->
  DiGraph.edges (DiGraph.remove_nodes_from d l)
  = filter (fun e => e.1.1 ∈ DiGraph.node_ids (DiGraph.remove_nodes_from d l) /\
                     e.1.2 ∈ DiGraph.node_ids (DiGraph.remove_nodes_from d l))
           (DiGraph.edges d).
Proof.
  intros (_ & _ & Hends). rewrite edges_remove_nodes_from.
  apply filter_ext_in. intros [[u v] a] Hin; simpl.
  destruct (Hends u v) as [Hu Hv].
  { apply list_elem_of_fmap. by exists ((u, v), a). }
  assert (forall n, n ∈ DiGraph.node_ids d ->
            n ∈ DiGraph.node_ids (DiGraph.remove_nodes_from d l) <-> n ∉ l) as Hid.
  { intros n Hn. unfold DiGraph.node_ids. rewrite nodes_remove_nodes_from.
    rewrite list_elem_of_fmap. split.
    - by intros ([n' a'] & -> & [Hl _]%list_elem_of_filter).
    - intros Hl. apply list_elem_of_fmap in Hn as ([n' a'] & -> & Hn).
      exists (n', a'). split; [done|]. by apply list_elem_of_filter. }
  by rewrite !Hid.
Qed.

Lemma differ_only_on_refl names e : differ_only_on names e e.
Proof. by split. Qed.

Lemma differ_only_on_trans names e1 e2 e3 :
  differ_only_on names e1 e2 -> differ_only_on names e2 e3 -> differ_only_on names e1 e3.
Proof.
  intros [Hk1 Ha1] [Hk2 Ha2]. split; [congruence|].
  intros a Ha. by rewrite Ha1, Ha2.
Qed.

Lemma copy_flags_rel names tg key seen todo :
  key ∈ names ->
  exists todo',
    (copy_flags tg key seen todo).2 = seen ++ todo' /\
    Forall2 (differ_only_on names) todo todo'.
Proof.
  intros Hkey. revert seen. induction todo as [|e todo IH]; intros seen.
  { exists []. by rewrite app_nil_r. }
  cbn [copy_flags]. destruct (DiGraph.edge_data tg e.1) as [d|].
  - destruct (d !! key) as [flag|].
    + destruct (IH (seen ++ [(e.1, <[key := flag]> e.2)])) as (todo' & -> & Hrel).
      exists ((e.1, <[key := flag]> e.2) :: todo').
      split; [by rewrite <- app_assoc|]. constructor; [|done].
      split; [done|]. intros a Ha. simpl.
      rewrite lookup_insert_ne; [done|]. by intros ->.
    + exists (e :: todo). split; [done|].
      apply Forall_Forall2_diag, Forall_forall. intros; apply differ_only_on_refl.
  - destruct (IH (seen ++ [e])) as (todo' & -> & Hrel).
    exists (e :: todo'). split; [by rewrite <- app_assoc|].
    constructor; [apply differ_only_on_refl|done].
Qed.

Lemma copy_flags_of_edges names tg key g :
  key ∈ names ->
  SharedSubgraph.roi (copy_flags_of tg key g).2 = SharedSubgraph.roi g /\
  Forall2 (differ_only_on names)
    (DiGraph.edges (SharedSubgraph.digraph g))
    (DiGraph.edges (SharedSubgraph.digraph (copy_flags_of tg key g).2)).
Proof.
  intros Hkey. unfold copy_flags_of.
  destruct (copy_flags_rel names tg key [] (DiGraph.edges (SharedSubgraph.digraph g)) Hkey)
    as (todo' & Heq & Hrel).
  destruct (copy_flags _ _ _ _) as [r es]. simpl in *. by subst.
Qed.

Section track_graph_facts.
Variable Solver : Type.
Variable new_TrackGraph : DiGraph.t -> string -> Roi.t -> res TrackGraph.t.
Variable new_Solver :
  TrackGraph.t -> SolveParametersConfig -> string -> option (Z * Z) -> bool ->
  option Z -> bool -> bool -> res Solver.
Variable update_objective : Solver -> SolveParametersConfig -> string -> res Solver.
Variable solve_ : Solver -> res Solver.
Variable track_graph_of : Solver -> TrackGraph.t.

Local Abbreviation track_solve :=
  (Track.track_solve Solver new_TrackGraph new_Solver update_objective solve_
                     track_graph_of).
Local Abbreviation track :=
  (Track.track Solver new_TrackGraph new_Solver update_objective solve_ track_graph_of).
Local Abbreviation track_rounds :=
  (Track.track_rounds Solver new_Solver update_objective solve_ track_graph_of).

Lemma track_rounds_edges names config tg frames block_id solver pks g :
  (forall pk, pk ∈ pks -> pk.2 ∈ names) ->
  SharedSubgraph.roi (track_rounds config tg frames block_id solver pks g).2
  = SharedSubgraph.roi g /\
  Forall2 (differ_only_on names)
    (DiGraph.edges (SharedSubgraph.digraph g))
    (DiGraph.edges (SharedSubgraph.digraph
                      (track_rounds config tg frames block_id solver pks g).2)).
Proof.
  assert (forall g0 : SharedSubgraph.t,
            Forall2 (differ_only_on names) (DiGraph.edges (SharedSubgraph.digraph g0))
                    (DiGraph.edges (SharedSubgraph.digraph g0))) as Hrefl.
  { intros g0. apply Forall_Forall2_diag, Forall_forall.
    intros; apply differ_only_on_refl. }
  revert solver g. induction pks as [|[parameter key] pks IH]; intros solver g Hkeys;
    [by split|].
  simpl. unfold bindM at 1. unfold Track.track_round, bindM, liftM.
  destruct (match solver with None => _ | Some s => _ end) as [s|]; [|by split].
  destruct (solve_ s) as [s'|]; [|by split].
  destruct (copy_flags_of_edges names (TrackGraph.graph_data (track_graph_of s')) key g)
    as [Hroi Hrel].
  { apply (Hkeys (parameter, key)). set_solver. }
  destruct (copy_flags_of _ key g) as [[[]|] g']; simpl in *; [|by split].
  unfold retM. destruct (IH (Some s') g') as [Hroi' Hrel'].
  { intros; apply Hkeys; set_solver. }
  split; [congruence|].
  eapply Forall2_trans; [|exact Hrel|exact Hrel']. apply differ_only_on_trans.
Qed.

Lemma track_solve_edges config selected_key frame_key frames block_id g :
  SharedSubgraph.roi (track_solve config selected_key frame_key frames block_id g).2
  = SharedSubgraph.roi g /\
  Forall2 (differ_only_on selected_key)
    (DiGraph.edges (SharedSubgraph.digraph g))
    (DiGraph.edges (SharedSubgraph.digraph
                      (track_solve config selected_key frame_key frames block_id g).2)).
Proof.
  assert (Forall2 (differ_only_on selected_key) (DiGraph.edges (SharedSubgraph.digraph g))
                  (DiGraph.edges (SharedSubgraph.digraph g))) as Hrefl.
  { apply Forall_Forall2_diag, Forall_forall. intros; apply differ_only_on_refl. }
  unfold Track.track_solve, bindM, getM, liftM, retM.
  destruct (_ =? 0)%nat; [by split|]. destruct (negb _); [by split|].
  destruct (new_TrackGraph _ _ _) as [tg|]; [|by split].
  apply track_rounds_edges. intros [p k] Hin. simpl.
  apply list_elem_of_In, in_combine_r in Hin. by apply list_elem_of_In.
Qed.

Lemma track_unfold config selected_key frame_key frames block_id g :
  DiGraph.wf (SharedSubgraph.digraph g) ->
  track config selected_key frame_key frames block_id g
  = match cell_cycle_keys config with
    | Ok keys =>
      track_solve config selected_key frame_key frames block_id
        (SharedSubgraph.with_digraph g
           (DiGraph.remove_nodes_from (SharedSubgraph.digraph g)
              (pruned_nodes keys (SharedSubgraph.digraph g))))
    | Err e => (Err e, g)
    end.
Proof.
  intros Hwf. unfold Track.track. unfold bindM at 1 2. unfold liftM.
  destruct (cell_cycle_keys config) as [keys|]; [|done].
  by rewrite (remove_nodes_without_keys_eq keys g Hwf).
Qed.

(** Whatever the outcome, [track] creates nothing and writes nothing but
    the selection flags: the region is kept, the nodes left are nodes of the
    input in their order, and the edges left are the input edges between
    these nodes, in their order, each with its attributes unchanged except
    under the names in [selected_key]. *)
Theorem track_only_writes_flags config selected_key frame_key frames block_id g :
  DiGraph.wf (SharedSubgraph.digraph g) ->
  let g' := (track config selected_key frame_key frames block_id g).2 in
  SharedSubgraph.roi g' = SharedSubgraph.roi g /\
  DiGraph.nodes (SharedSubgraph.digraph g')
    `sublist_of` DiGraph.nodes (SharedSubgraph.digraph g) /\
  Forall2 (differ_only_on selected_key)
    (filter (fun e => e.1.1 ∈ DiGraph.node_ids (SharedSubgraph.digraph g') /\
                      e.1.2 ∈ DiGraph.node_ids (SharedSubgraph.digraph g'))
            (DiGraph.edges (SharedSubgraph.digraph g)))
    (DiGraph.edges (SharedSubgraph.digraph g')).
Proof.
  intros Hwf. cbv zeta. rewrite (track_unfold _ _ _ _ _ _ Hwf).
  destruct (cell_cycle_keys config) as [keys|].
  - set (d1 := DiGraph.remove_nodes_from (SharedSubgraph.digraph g)
                 (pruned_nodes keys (SharedSubgraph.digraph g))).
    destruct (track_solve_edges config selected_key frame_key frames block_id
                (SharedSubgraph.with_digraph g d1)) as [Hroi Hrel].
    unfold DiGraph.node_ids. rewrite track_solve_nodes. simpl in *.
    split; [done|]. split.
    + subst d1. rewrite nodes_remove_nodes_from. apply sublist_filter.
    + fold (DiGraph.node_ids d1). subst d1.
      by rewrite <- (pruned_edges_by_nodes _ _ Hwf).
  - simpl. split; [done|]. split; [done|].
    rewrite filter_all.
    + apply Forall_Forall2_diag, Forall_forall. intros; apply differ_only_on_refl.
    + intros [[u v] a] Hin. simpl. destruct Hwf as (_ & _ & Hends).
      apply Hends. apply list_elem_of_fmap. by exists ((u, v), a).
Qed.

Lemma any_key_mother config keys :
  cell_cycle_keys config = Ok keys -> parameters (solve config) ≠ [] ->
  any_key keys = true.
Proof.
  intros Hkeys Hne.
  assert (forall p, p ∈ parameters (solve config) -> cell_cycle_key p ≠ None) as Hall.
  { intros p Hp Hnone.
    rewrite (cell_cycle_keys_none config) in Hkeys; [done|eauto]. }
  destruct (cell_cycle_keys_some config Hall) as (keys' & Hkeys' & Hspec).
  assert (keys' = keys) as -> by congruence.
  destruct (parameters (solve config)) as [|p l] eqn:Hps; [done|].
  destruct (cell_cycle_key p) as [c|] eqn:Hc; [|destruct (Hall p); [left|done]].
  unfold any_key. apply existsb_exists. exists (c +:+ "mother"). split.
  - apply list_elem_of_In, Hspec. exists p, c. split; [left|done].
  - apply negb_true_iff, bool_decide_eq_false, mother_key_nonempty.
Qed.

(** When every node lacks the cell-cycle attribute of some parameter set,
    [track] removes them all and returns normally with an empty graph: no
    track graph and no solver is built, and the number of selection keys is
    not looked at. *)
Theorem track_all_pruned config selected_key frame_key frames block_id g :
  DiGraph.wf (SharedSubgraph.digraph g) ->
  (forall p, p ∈ parameters (solve config) -> cell_cycle_key p ≠ None) ->
  (forall nd, nd ∈ DiGraph.nodes (SharedSubgraph.digraph g) ->
     exists p c, p ∈ parameters (solve config) /\ cell_cycle_key p = Some c /\
                 nd.2 !! (c +:+ "mother") = None) ->
  track config selected_key frame_key frames block_id g
  = (Ok tt, SharedSubgraph.mk DiGraph.empty (SharedSubgraph.roi g)).
Proof.
  intros Hwf Hall Hlack. rewrite (track_unfold _ _ _ _ _ _ Hwf).
  destruct (cell_cycle_keys_some config Hall) as (keys & Hkeys & Hspec).
  rewrite Hkeys.
  set (d1 := DiGraph.remove_nodes_from (SharedSubgraph.digraph g)
               (pruned_nodes keys (SharedSubgraph.digraph g))).
  assert (forall nd, nd ∈ DiGraph.nodes (SharedSubgraph.digraph g) ->
            nd.1 ∈ pruned_nodes keys (SharedSubgraph.digraph g)) as Hpruned.
  { intros nd Hin. destruct (Hlack nd Hin) as (p & c & Hp & Hc & Hnone).
    unfold pruned_nodes. rewrite (any_key_mother config keys Hkeys).
    - unfold nodes_to_remove. apply list_elem_of_fmap. exists nd. split; [done|].
      apply list_elem_of_filter. split; [|done]. apply lacks_key_true.
      exists (c +:+ "mother"). split; [|done]. apply Hspec. eauto.
    - intros Hnil. rewrite Hnil in Hp. by apply elem_of_nil in Hp. }
  assert (d1 = DiGraph.empty) as ->.
  { assert (DiGraph.nodes d1 = []) as Hn.
    { subst d1. rewrite nodes_remove_nodes_from. apply filter_none.
      intros nd Hin Hnot. by apply Hnot, Hpruned. }
    assert (DiGraph.edges d1 = []) as He.
    { subst d1. rewrite edges_remove_nodes_from. apply filter_none.
      intros [[u v] a] Hin [Hnot _]. simpl in Hnot.
      destruct Hwf as (_ & _ & Hends). destruct (Hends u v) as [Hu _].
      { apply list_elem_of_fmap. by exists ((u, v), a). }
      apply list_elem_of_fmap in Hu as (nd & -> & Hnd). by apply Hnot, Hpruned. }
    destruct d1; simpl in *; by subst. }
  done.
Qed.

(** The number of selection keys is compared with the number of parameter
    sets only after the pruning: with a node left and the two numbers
    different, [track] raises [AssertionError] and the caller's graph has
    lost the nodes without cell-cycle attribute all the same. *)
Theorem track_length_mismatch config selected_key frame_key frames block_id g :
  DiGraph.wf (SharedSubgraph.digraph g) ->
  (forall p, p ∈ parameters (solve config) -> cell_cycle_key p ≠ None) ->
  (exists nd, nd ∈ DiGraph.nodes (SharedSubgraph.digraph g) /\
     forall p c, p ∈ parameters (solve config) -> cell_cycle_key p = Some c ->
                 is_Some (nd.2 !! (c +:+ "mother"))) ->
  length (parameters (solve config)) ≠ length selected_key ->
  exists g1,
    track config selected_key frame_key frames block_id g = (Err AssertionError, g1) /\
    forall nd, nd ∈ DiGraph.nodes (SharedSubgraph.digraph g1) <->
      nd ∈ DiGraph.nodes (SharedSubgraph.digraph g) /\
      forall p c, p ∈ parameters (solve config) -> cell_cycle_key p = Some c ->
                  is_Some (nd.2 !! (c +:+ "mother")).
Proof.
  intros Hwf Hall (nd0 & Hin0 & Hkeys0) Hlen.
  rewrite (track_unfold _ _ _ _ _ _ Hwf).
  destruct (cell_cycle_keys_some config Hall) as (keys & Hkeys & Hspec).
  rewrite Hkeys.
  destruct (remove_nodes_without_keys_spec keys g Hwf) as (g1 & Hprune & _ & Hnodes).
  rewrite (remove_nodes_without_keys_eq keys g Hwf) in Hprune.
  injection Hprune as Hg1. rewrite Hg1.
  assert (forall nd, nd ∈ DiGraph.nodes (SharedSubgraph.digraph g1) <->
      nd ∈ DiGraph.nodes (SharedSubgraph.digraph g) /\
      forall p c, p ∈ parameters (solve config) -> cell_cycle_key p = Some c ->
                  is_Some (nd.2 !! (c +:+ "mother"))) as Hchar.
  { intros nd. rewrite Hnodes. split; intros [Hin Hkeep]; (split; [done|]).
    - intros p c Hp Hc. apply Hkeep.
      + exists (c +:+ "mother"). split; [|apply mother_key_nonempty].
        apply Hspec. eauto.
      + apply Hspec. eauto.
    - intros _ k (p & c & Hp & Hc & ->)%Hspec. by apply (Hkeep p). }
  exists g1. split; [|done].
  unfold Track.track_solve, bindM, getM, liftM.
  destruct (DiGraph.number_of_nodes (SharedSubgraph.digraph g1) =? 0)%nat eqn:Hzero.
  { apply Nat.eqb_eq, length_zero_iff_nil in Hzero.
    assert (nd0 ∈ DiGraph.nodes (SharedSubgraph.digraph g1)) as Hin1 by by apply Hchar.
    rewrite Hzero in Hin1. by apply elem_of_nil in Hin1. }
  by apply Nat.eqb_neq in Hlen as ->.
Qed.

Lemma Forall2_elem_of_r {A B} (R : A -> B -> Prop) l k y :
  Forall2 R l k -> y ∈ k -> exists x, x ∈ l /\ R x y.
Proof.
  induction 1 as [|x y' l k HR _ IH]; [by intros ?%elem_of_nil|].
  intros [->|Hin]%elem_of_cons.
  - exists x. split; [left|done].
  - destruct (IH Hin) as (x' & Hx' & HR'). exists x'. split; [by right|done].
Qed.

Lemma copy_flags_ok tg key seen todo es :
  copy_flags tg key seen todo = (Ok tt, es) ->
  exists todo',
    es = seen ++ todo' /\
    Forall2 (fun e e' =>
               e'.1 = e.1 /\
               match DiGraph.edge_data tg e.1 with
               | Some dt => e'.2 !! key = dt !! key /\ is_Some (dt !! key)
               | None => e' = e
               end) todo todo'.
Proof.
  revert seen. induction todo as [|e todo IH]; intros seen; cbn [copy_flags].
  { intros [= <-]. exists []. by rewrite app_nil_r. }
  destruct (DiGraph.edge_data tg e.1) as [dt|] eqn:Hdata.
  - destruct (dt !! key) as [flag|] eqn:Hflag; [|done].
    intros (todo' & -> & Hrel)%IH.
    exists ((e.1, <[key := flag]> e.2) :: todo').
    split; [by rewrite <- app_assoc|]. constructor; [|done].
    split; [done|]. rewrite Hdata. simpl. by rewrite lookup_insert_eq, Hflag.
  - intros (todo' & -> & Hrel)%IH. exists (e :: todo').
    split; [by rewrite <- app_assoc|]. constructor; [|done].
    split; [done|]. by rewrite Hdata.
Qed.

(** A successful [track] with one parameter set hands the solver's answer
    to the caller: the solver was built for the pruned graph and solved, and
    every edge the caller is left with carries under [key] the value the
    solver's track graph has for it; an edge the track graph does not know
    is as it was. *)
Theorem track_copies_solver_flags config p c key frame_key frames block_id g g' :
  DiGraph.wf (SharedSubgraph.digraph g) ->
  parameters (solve config) = [p] -> cell_cycle_key p = Some c ->
  track config [key] frame_key frames block_id g = (Ok tt, g') ->
  DiGraph.nodes (SharedSubgraph.digraph g') ≠ [] ->
  exists tg s0 s,
    new_TrackGraph
      (DiGraph.remove_nodes_from (SharedSubgraph.digraph g)
         (nodes_to_remove [c +:+ "mother"] (SharedSubgraph.digraph g)))
      frame_key (SharedSubgraph.roi g) = Ok tg /\
    new_Solver tg p key frames (write_struct_svm (solve config)) block_id
      (check_node_close_to_roi (solve config))
      (add_node_density_constraints (solve config)) = Ok s0 /\
    solve_ s0 = Ok s /\
    forall k d', (k, d') ∈ DiGraph.edges (SharedSubgraph.digraph g') ->
      match DiGraph.edge_data (TrackGraph.graph_data (track_graph_of s)) k with
      | Some dt => d' !! key = dt !! key /\ is_Some (dt !! key)
      | None => (k, d') ∈ DiGraph.edges (SharedSubgraph.digraph g)
      end.
Proof.
  intros Hwf Hp Hc Hrun Hnodes.
  rewrite (track_unfold _ _ _ _ _ _ Hwf) in Hrun.
  assert (cell_cycle_keys config = Ok [c +:+ "mother"]) as Hkeys.
  { unfold cell_cycle_keys. rewrite Hp. simpl. unfold cell_cycle_mother_key.
    by rewrite Hc. }
  rewrite Hkeys in Hrun.
  assert (pruned_nodes [c +:+ "mother"] (SharedSubgraph.digraph g)
          = nodes_to_remove [c +:+ "mother"] (SharedSubgraph.digraph g)) as Hpr.
  { unfold pruned_nodes. rewrite (any_key_mother config _ Hkeys); [done|].
    by rewrite Hp. }
  rewrite Hpr in Hrun.
  set (d1 := DiGraph.remove_nodes_from (SharedSubgraph.digraph g)
               (nodes_to_remove [c +:+ "mother"] (SharedSubgraph.digraph g))) in *.
  unfold Track.track_solve, bindM, getM, liftM, retM in Hrun.
  rewrite Hp in Hrun. cbn [SharedSubgraph.digraph SharedSubgraph.with_digraph
                           SharedSubgraph.roi length Nat.eqb negb zip zip_with] in Hrun.
  destruct (DiGraph.number_of_nodes d1 =? 0)%nat eqn:Hzero.
  { injection Hrun as <-. apply Nat.eqb_eq, length_zero_iff_nil in Hzero.
    by destruct Hnodes. }
  destruct (new_TrackGraph d1 frame_key (SharedSubgraph.roi g)) as [tg|] eqn:Htg;
    [|done].
  cbn [Track.track_rounds] in Hrun. unfold Track.track_round in Hrun.
  unfold bindM, liftM, retM in Hrun.
  destruct (new_Solver tg p key frames _ block_id _ _) as [s0|] eqn:Hs0; [|done].
  destruct (solve_ s0) as [s|] eqn:Hs; [|done].
  unfold copy_flags_of in Hrun.
  cbn [SharedSubgraph.digraph SharedSubgraph.with_digraph SharedSubgraph.roi] in Hrun.
  destruct (copy_flags (TrackGraph.graph_data (track_graph_of s)) key []
              (DiGraph.edges d1)) as [r es] eqn:Hcopy.
  destruct r as [[]|]; [|done]. injection Hrun as <-.
  exists tg, s0, s. split; [done|]. split; [done|]. split; [done|].
  intros k d' Hin. simpl in Hin.
  apply copy_flags_ok in Hcopy as (todo' & -> & Hrel). simpl in Hin.
  destruct (Forall2_elem_of_r _ _ _ _ Hrel Hin) as (e & He & Hk & Hdata).
  simpl in Hk. subst k.
  destruct (DiGraph.edge_data _ e.1) as [dt|]; [done|].
  rewrite Hdata. subst d1. rewrite edges_remove_nodes_from in He.
  by apply list_elem_of_filter in He as [_ He].
Qed.

End track_graph_facts.

(** ** The scenario with cell-cycle scores as an instance *)

Lemma example_cycle_wf : DiGraph.wf (SharedSubgraph.digraph example_cycle_subgraph).
Proof.
  unfold DiGraph.wf, DiGraph.node_ids, DiGraph.edge_keys; simpl.
  split; [|split].
  - apply NoDup_ListNoDup. repeat constructor; simpl; unfold a0, b1, c1; lia.
  - apply NoDup_ListNoDup. repeat constructor; simpl; unfold a0, b1, c1; intuition congruence.
  - intros u v Huv. set_solver.
Qed.

Lemma track_only_writes_flags_witness :
  DiGraph.wf (SharedSubgraph.digraph example_cycle_subgraph) /\
  let g' := (example_track (config_with_key (Some "vgg")) ["selected"] "t" None None
               example_cycle_subgraph).2 in
  SharedSubgraph.roi g' = SharedSubgraph.roi example_cycle_subgraph /\
  DiGraph.nodes (SharedSubgraph.digraph g')
    `sublist_of` DiGraph.nodes (SharedSubgraph.digraph example_cycle_subgraph) /\
  Forall2 (differ_only_on ["selected"])
    (filter (fun e => e.1.1 ∈ DiGraph.node_ids (SharedSubgraph.digraph g') /\
                      e.1.2 ∈ DiGraph.node_ids (SharedSubgraph.digraph g'))
            (DiGraph.edges (SharedSubgraph.digraph example_cycle_subgraph)))
    (DiGraph.edges (SharedSubgraph.digraph g')).
Proof.
  split; [apply example_cycle_wf|].
  apply (track_only_writes_flags TrackGraph.t example_new_TrackGraph example_new_Solver
           example_update_objective example_solve (fun s => s)
           (config_with_key (Some "vgg")) ["selected"] "t" None None
           example_cycle_subgraph).
  apply example_cycle_wf.
Defined.

Lemma track_all_pruned_witness :
  DiGraph.wf (SharedSubgraph.digraph example_subgraph) /\
  example_track (config_with_key (Some "vgg")) [] "t" None None example_subgraph
  = (Ok tt, SharedSubgraph.mk DiGraph.empty (SharedSubgraph.roi example_subgraph)).
Proof.
  split; [apply scenario_wf|].
  apply (track_all_pruned TrackGraph.t example_new_TrackGraph example_new_Solver
           example_update_objective example_solve (fun s => s)
           (config_with_key (Some "vgg")) [] "t" None None example_subgraph).
  - apply scenario_wf.
  - intros p Hp. apply list_elem_of_singleton in Hp. by rewrite Hp.
  - intros nd Hin. eexists _, "vgg".
    split; [apply list_elem_of_singleton; reflexivity|]. split; [reflexivity|].
    apply list_elem_of_In in Hin. simpl in Hin.
    destruct Hin as [<-|[<-|[<-|[]]]]; vm_compute; reflexivity.
Defined.

Lemma track_length_mismatch_witness :
  DiGraph.wf (SharedSubgraph.digraph example_cycle_subgraph) /\
  exists g1,
    example_track (config_with_key (Some "vgg")) [] "t" None None example_cycle_subgraph
    = (Err AssertionError, g1) /\
    forall nd, nd ∈ DiGraph.nodes (SharedSubgraph.digraph g1) <->
      nd ∈ DiGraph.nodes (SharedSubgraph.digraph example_cycle_subgraph) /\
      forall p c, p ∈ parameters (solve (config_with_key (Some "vgg"))) ->
                  cell_cycle_key p = Some c -> is_Some (nd.2 !! (c +:+ "mother")).
Proof.
  split; [apply example_cycle_wf|].
  apply (track_length_mismatch TrackGraph.t example_new_TrackGraph example_new_Solver
           example_update_objective example_solve (fun s => s)
           (config_with_key (Some "vgg")) [] "t" None None example_cycle_subgraph).
  - apply example_cycle_wf.
  - intros p Hp. apply list_elem_of_singleton in Hp. by rewrite Hp.
  - eexists. split; [apply list_elem_of_here|].
    intros p c Hp Hc. apply list_elem_of_singleton in Hp. subst p.
    injection Hc as <-. vm_compute. by eexists.
  - simpl. lia.
Defined.

Lemma track_copies_solver_flags_witness :
  DiGraph.wf (SharedSubgraph.digraph example_cycle_subgraph) /\
  exists tg s0 s,
    example_new_TrackGraph
      (DiGraph.remove_nodes_from (SharedSubgraph.digraph example_cycle_subgraph)
         (nodes_to_remove ["vgg" +:+ "mother"]
            (SharedSubgraph.digraph example_cycle_subgraph)))
      "t" (SharedSubgraph.roi example_cycle_subgraph) = Ok tg /\
    example_new_Solver tg (example_parameters "noop") "selected" None false None true
      false = Ok s0 /\
    example_solve s0 = Ok s /\
    forall k d',
      (k, d') ∈ DiGraph.edges
                  (SharedSubgraph.digraph
                     (example_track
                        (example_config "basic")
                        ["selected"] "t" None None example_cycle_subgraph).2) ->
      match DiGraph.edge_data (TrackGraph.graph_data s) k with
      | Some dt => d' !! "selected" = dt !! "selected" /\ is_Some (dt !! "selected")
      | None => (k, d') ∈ DiGraph.edges (SharedSubgraph.digraph example_cycle_subgraph)
      end.
Proof.
  split; [apply example_cycle_wf|].
  apply (track_copies_solver_flags TrackGraph.t example_new_TrackGraph example_new_Solver
           example_update_objective example_solve (fun s => s)
           (example_config "basic")
           (example_parameters "noop") "vgg" "selected" "t" None None
           example_cycle_subgraph).
  - apply example_cycle_wf.
  - reflexivity.
  - reflexivity.
  - vm_compute. reflexivity.
  - vm_compute. discriminate.
Defined.

(** ** networkx graphs stay well formed *)

Lemma wf_empty : DiGraph.wf DiGraph.empty.
Proof.
  split; [constructor|]. split; [constructor|].
  intros u v Hin. by apply elem_of_nil in Hin.
Qed.

Lemma wf_new_node g n d :
  DiGraph.wf g -> n ∉ DiGraph.node_ids g ->
  DiGraph.wf (DiGraph.mk (DiGraph.nodes g ++ [(n, d)]) (DiGraph.edges g)).
Proof.
  intros (Hn & He & Hends) Hfresh.
  unfold DiGraph.wf, DiGraph.node_ids, DiGraph.edge_keys in *; simpl.
  rewrite fmap_app. split; [|split; [done|]].
  - apply NoDup_app. split; [done|]. split; [|apply NoDup_singleton].
    intros x Hx ->%list_elem_of_singleton. done.
  - intros u v Huv. destruct (Hends u v Huv). set_solver.
Qed.

Lemma wf_add_node g n d : DiGraph.wf g -> DiGraph.wf (DiGraph.add_node g n d).
Proof.
  intros Hwf. unfold DiGraph.add_node, DiGraph.has_node.
  case_bool_decide as Hn; [|by apply wf_new_node].
  destruct Hwf as (Hnd & He & Hends).
  unfold DiGraph.wf, DiGraph.node_ids, DiGraph.edge_keys in *; simpl.
  assert ((map (fun nd : Z * gmap string PyVal =>
                  if bool_decide (nd.1 = n) then (n, d ∪ nd.2) else nd)
               (DiGraph.nodes g)).*1 = (DiGraph.nodes g).*1) as ->; [|done].
  clear. induction (DiGraph.nodes g) as [|nd l IH]; [done|].
  cbn [map]. rewrite !fmap_cons, IH. f_equal. by case_bool_decide.
Qed.

Lemma wf_add_edge g u v d : DiGraph.wf g -> DiGraph.wf (DiGraph.add_edge g u v d).
Proof.
  intros Hwf. unfold DiGraph.add_edge.
  set (g1 := if DiGraph.has_node g u then g
             else DiGraph.mk (DiGraph.nodes g ++ [(u, ∅)]) (DiGraph.edges g)).
  assert (DiGraph.wf g1 /\ u ∈ DiGraph.node_ids g1) as [Hwf1 Hu].
  { subst g1. unfold DiGraph.has_node. case_bool_decide as Hn; [done|].
    split; [by apply wf_new_node|].
    unfold DiGraph.node_ids; simpl. rewrite fmap_app. set_solver. }
  set (g2 := if DiGraph.has_node g1 v then g1
             else DiGraph.mk (DiGraph.nodes g1 ++ [(v, ∅)]) (DiGraph.edges g1)).
  assert (DiGraph.wf g2 /\ u ∈ DiGraph.node_ids g2 /\ v ∈ DiGraph.node_ids g2)
    as (Hwf2 & Hu2 & Hv2).
  { subst g2. unfold DiGraph.has_node. case_bool_decide as Hn; [done|].
    split; [by apply wf_new_node|].
    unfold DiGraph.node_ids in *; simpl. rewrite fmap_app. set_solver. }
  clearbody g2. clear g1 Hwf1 Hu. destruct Hwf2 as (Hnd & He & Hends).
  unfold DiGraph.has_edge. case_bool_decide as Huv.
  - unfold DiGraph.wf, DiGraph.node_ids, DiGraph.edge_keys in *; simpl.
    assert ((map (fun e : Z * Z * gmap string PyVal =>
                    if bool_decide (e.1 = (u, v)) then ((u, v), d ∪ e.2) else e)
                 (DiGraph.edges g2)).*1 = (DiGraph.edges g2).*1) as ->; [|done].
    clear. induction (DiGraph.edges g2) as [|e l IH]; [done|].
    cbn [map]. rewrite !fmap_cons, IH. f_equal. by case_bool_decide.
  - unfold DiGraph.wf, DiGraph.node_ids, DiGraph.edge_keys in *; simpl.
    rewrite fmap_app. split; [done|]. split.
    + apply NoDup_app. split; [done|]. split; [|apply NoDup_singleton].
      intros x Hx ->%list_elem_of_singleton. done.
    + intros a b [Hab|Hab%list_elem_of_singleton]%elem_of_app; [by apply Hends|].
      by injection Hab as -> ->.
Qed.

Lemma wf_add_nodes_from g l : DiGraph.wf g -> DiGraph.wf (DiGraph.add_nodes_from g l).
Proof.
  unfold DiGraph.add_nodes_from. revert g.
  induction l as [|nd l IH]; intros g Hwf; [done|]. simpl. by apply IH, wf_add_node.
Qed.

Lemma wf_add_edges_from g l : DiGraph.wf g -> DiGraph.wf (DiGraph.add_edges_from g l).
Proof.
  unfold DiGraph.add_edges_from. revert g.
  induction l as [|e l IH]; intros g Hwf; [done|]. simpl. by apply IH, wf_add_edge.
Qed.

Lemma wf_remove_nodes_from g l :
  DiGraph.wf g -> DiGraph.wf (DiGraph.remove_nodes_from g l).
Proof.
  intros (Hnd & He & Hends).
  unfold DiGraph.wf, DiGraph.node_ids, DiGraph.edge_keys.
  rewrite nodes_remove_nodes_from, edges_remove_nodes_from.
  split; [|split].
  - eapply sublist_NoDup; [exact Hnd|]. apply fmap_sublist, sublist_filter.
  - eapply sublist_NoDup; [exact He|]. apply fmap_sublist, sublist_filter.
  - intros u v ([[u' v'] a] & [= <- <-] & [[Hu Hv] Hin]%list_elem_of_filter)%list_elem_of_fmap.
    simpl in *. destruct (Hends u v) as [Hun Hvn].
    { apply list_elem_of_fmap. by exists ((u, v), a). }
    split.
    + apply list_elem_of_fmap in Hun as ([n a'] & -> & Hn).
      apply list_elem_of_fmap. exists (n, a'). split; [done|].
      by apply list_elem_of_filter.
    + apply list_elem_of_fmap in Hvn as ([n a'] & -> & Hn).
      apply list_elem_of_fmap. exists (n, a'). split; [done|].
      by apply list_elem_of_filter.
Qed.


(** ** solve_blockwise: what fails before the database is reached *)

Lemma check_block_size_differs p0 ps :
  (exists p, p ∈ ps /\ (block_size p ≠ block_size p0 \/ context p ≠ context p0)) ->
  foldM (fun _ p => SolveBlockwise.check_block_size p0 p) tt ps = Err AssertionError.
Proof.
  intros (p & Hin & Hdiff). induction ps as [|q ps IH]; [by apply elem_of_nil in Hin|].
  assert (SolveBlockwise.check_block_size p0 q = Err AssertionError \/
          (SolveBlockwise.check_block_size p0 q = Ok tt /\
           block_size p0 = block_size q /\ context p0 = context q)) as Hq.
  { unfold SolveBlockwise.check_block_size. repeat case_bool_decide; simpl; auto. }
  cbn [foldM]. destruct Hq as [->|(-> & Hb & Hc)]; [done|]. simpl.
  apply elem_of_cons in Hin as [->|Hin]; [|by apply IH].
  destruct Hdiff; congruence.
Qed.

Lemma store_frame_refl st : store_frame st st.
Proof. by repeat split. Qed.

Lemma store_frame_mark block step st st' :
  store_frame st st' -> store_frame st (daisy_check_functions.mark_block block step st').
Proof.
  intros (? & ? & ? & ? & ?). unfold daisy_check_functions.mark_block.
  repeat split; simpl; try done. set_solver.
Qed.

Lemma store_frame_update g roi attributes st :
  store_frame st (CandidateDatabase.update_edge_attrs g roi attributes st).2.
Proof.
  unfold CandidateDatabase.update_edge_attrs. repeat split; simpl; try done.
  induction (db_edges st) as [|e l IH]; [done|].
  cbn [map]. rewrite !fmap_cons, IH. f_equal.
  match goal with |- (if ?c then _ else _).1 = _ => by destruct c end.
Qed.

Section orchestrator_facts.
Variable py_hash : gset Z -> Z.
Variable roi_intersect : Roi.t -> Roi.t -> Roi.t.
Variable roi_grow : Roi.t -> list Z -> list Z -> Roi.t.
Variable run_blockwise :
  Roi.t -> Roi.t -> Roi.t -> (Block -> M World Z) -> (Block -> M World bool) -> Z ->
  M World bool.
Variable tracker :
  list SolveParametersConfig -> list string -> Z * Z -> M SharedSubgraph.t unit.
Variable read_attributes : string -> string -> res (gmap string (list Z)).

Import SolveBlockwise.
Local Abbreviation step_name_blockwise := (SolveBlockwise.step_name_blockwise py_hash).
Local Abbreviation step_name_in_block := (SolveBlockwise.step_name_in_block py_hash).
Local Abbreviation solve_in_block :=
  (SolveBlockwise.solve_in_block py_hash roi_intersect tracker).
Local Abbreviation solve_blockwise :=
  (SolveBlockwise.solve_blockwise py_hash roi_intersect roi_grow run_blockwise tracker
                                  read_attributes).

(** The parameter sets are checked before anything else happens: without a
    first parameter set the call raises [IndexError], and with a parameter
    set whose block size or context differs from the first one it raises
    [AssertionError]; in both cases the database is not touched and nothing
    is scheduled. *)
Theorem solve_blockwise_checks_parameters sample parameters num_workers frames
    limit_to_roi from_scratch data_dir w :
  (parameters = [] ->
   solve_blockwise sample parameters num_workers frames limit_to_roi from_scratch
     data_dir w = (Err IndexError, w)) /\
  (forall p0 p,
     parameters !! 0%nat = Some p0 -> p ∈ parameters ->
     block_size p ≠ block_size p0 \/ context p ≠ context p0 ->
     solve_blockwise sample parameters num_workers frames limit_to_roi from_scratch
       data_dir w = (Err AssertionError, w)).
Proof.
  split.
  - by intros ->.
  - intros p0 p Hp0 Hin Hdiff. unfold SolveBlockwise.solve_blockwise.
    unfold bindM at 1. unfold liftM at 1. unfold index. rewrite Hp0.
    unfold bindM at 1. unfold liftM at 1.
    rewrite (check_block_size_differs p0 parameters); [done|eauto].
Qed.

(** A sample whose [attributes.json] cannot be read, or lacks one of
    "resolution", "shape" and "offset", stops the call with the exception of
    the read, respectively [KeyError], before the database is reached. *)
Theorem solve_blockwise_needs_attributes sample parameters num_workers frames
    limit_to_roi from_scratch data_dir w p0 :
  parameters !! 0%nat = Some p0 ->
  (forall p, p ∈ parameters ->
     block_size p = block_size p0 /\ context p = context p0) ->
  (forall e,
     read_attributes data_dir sample = Err e ->
     solve_blockwise sample parameters num_workers frames limit_to_roi from_scratch
       data_dir w = (Err e, w)) /\
  (forall attributes,
     read_attributes data_dir sample = Ok attributes ->
     attributes !! "resolution" = None \/ attributes !! "shape" = None \/
     attributes !! "offset" = None ->
     solve_blockwise sample parameters num_workers frames limit_to_roi from_scratch
       data_dir w = (Err KeyError, w)).
Proof.
  intros Hp0 Hsame.
  split.
  - intros e Hread. unfold SolveBlockwise.solve_blockwise.
    unfold bindM at 1. unfold liftM at 1. unfold index. rewrite Hp0.
    unfold bindM at 1. unfold liftM at 1. rewrite (check_block_size_same tracker _ _ Hsame).
    unfold bindM at 1. unfold liftM at 1. by rewrite Hread.
  - intros attributes Hread Hmiss. unfold SolveBlockwise.solve_blockwise.
    unfold bindM at 1. unfold liftM at 1. unfold index. rewrite Hp0.
    unfold bindM at 1. unfold liftM at 1. rewrite (check_block_size_same tracker _ _ Hsame).
    unfold bindM at 1. unfold liftM at 1. rewrite Hread.
    unfold bindM at 1. unfold liftM at 1. unfold attribute at 1.
    destruct (attributes !! "resolution") as [res|]; [|done].
    unfold bindM at 1. unfold liftM at 1. unfold attribute at 1.
    destruct (attributes !! "shape") as [shape|]; [|done].
    unfold bindM at 1. unfold liftM at 1. unfold attribute at 1.
    destruct (attributes !! "offset") as [offset|]; [|done].
    by destruct Hmiss as [?|[?|?]].
Qed.

Lemma solve_in_block_unfold parameters block parameters_id solution_roi w :
  let rr := match solution_roi with
            | Some r => roi_intersect (read_roi block) r
            | None => read_roi block
            end in
  let wr := match solution_roi with
            | Some r => roi_intersect (write_roi block) r
            | None => write_roi block
            end in
  let keys := selected_keys_of parameters_id in
  let step := step_name_in_block parameters_id in
  let g := block_graph rr parameters_id (store w) in
  let d := SharedSubgraph.digraph g in
  solve_in_block parameters block parameters_id solution_roi w
  = if (DiGraph.number_of_edges d =? 0)%nat
    then (Ok 0, {| store := daisy_check_functions.mark_block block step (store w);
                   calls := calls w |})
    else match frames_of rr with
         | Err e => (Err e, w)
         | Ok fr =>
           let w1 := {| store := store w;
                        calls := calls w ++ [CallTrack (DiGraph.number_of_nodes d)
                                                       (DiGraph.number_of_edges d)] |} in
           match tracker parameters keys fr g with
           | (Err e, _) => (Err e, w1)
           | (Ok _, g') =>
             (Ok 0, {| store := daisy_check_functions.mark_block block step
                                  (CandidateDatabase.update_edge_attrs g' wr keys
                                     (store w)).2;
                       calls := calls w1 |})
           end
         end.
Proof using Type.
  clear roi_grow run_blockwise read_attributes.
  destruct w as [st cs]. unfold SolveBlockwise.solve_in_block.
  destruct solution_roi as [solution_roi|]; cbv zeta;
    unfold bindM, on_store, getM, retM, liftM, call, daisy_check_functions.write_done,
      CandidateDatabase.update_edge_attrs;
    cbv beta iota zeta; cbn [store calls];
    (destruct (_ =? 0)%nat; [reflexivity|]);
    (destruct (frames_of _) as [fr|]; [|reflexivity]);
    cbv beta iota zeta; cbn [store calls];
    (destruct (tracker _ _ _ _) as [[[]|] g']; reflexivity).
Qed.

(** A block whose tracking raises is left alone: the exception reaches the
    caller, nothing is written to the database and the block is not marked
    done; the call to the tracker is all that has happened. *)
Theorem solve_in_block_tracker_fails parameters block parameters_id solution_roi w
    fr e g' :
  let rr := match solution_roi with
            | Some r => roi_intersect (read_roi block) r
            | None => read_roi block
            end in
  let g := block_graph rr parameters_id (store w) in
  DiGraph.number_of_edges (SharedSubgraph.digraph g) ≠ 0%nat ->
  frames_of rr = Ok fr ->
  tracker parameters (selected_keys_of parameters_id) fr g = (Err e, g') ->
  solve_in_block parameters block parameters_id solution_roi w
  = (Err e, {| store := store w;
               calls := calls w ++
                 [CallTrack (DiGraph.number_of_nodes (SharedSubgraph.digraph g))
                            (DiGraph.number_of_edges (SharedSubgraph.digraph g))] |}).
Proof using Type.
  clear roi_grow run_blockwise read_attributes.
  intros rr g Hedges Hframes Htrack. rewrite solve_in_block_unfold. cbv zeta.
  fold rr. fold g. apply Nat.eqb_neq in Hedges as ->. by rewrite Hframes, Htrack.
Qed.

(** Whenever [solve_in_block] returns, it returns 0 and has marked the
    block done under the step name that [solve_blockwise] asks for: the
    [check_function] handed to the scheduler accepts the block from then
    on. *)
Theorem solve_in_block_marks_block parameters block parameters_id solution_roi w z w' :
  solve_in_block parameters block parameters_id solution_roi w = (Ok z, w') ->
  z = 0 /\
  on_store (daisy_check_functions.check_function block
              (step_name_blockwise parameters_id)) w' = (Ok true, w').
Proof using Type.
  clear roi_grow run_blockwise read_attributes.
  assert (step_name_blockwise parameters_id = step_name_in_block parameters_id) as ->.
  { unfold SolveBlockwise.step_name_blockwise, SolveBlockwise.step_name_in_block.
    by destruct parameters_id as [|a [|b l]]. }
  rewrite solve_in_block_unfold. cbv zeta.
  assert (forall st cs,
            on_store (daisy_check_functions.check_function block
                        (step_name_in_block parameters_id))
              {| store := daisy_check_functions.mark_block block
                            (step_name_in_block parameters_id) st;
                 calls := cs |}
            = (Ok true,
               {| store := daisy_check_functions.mark_block block
                             (step_name_in_block parameters_id) st;
                  calls := cs |})) as Hmarked.
  { intros st cs. unfold on_store, daisy_check_functions.check_function.
    cbn [store calls]. rewrite bool_decide_eq_true_2; [done|].
    unfold daisy_check_functions.mark_block; simpl. set_solver. }
  destruct (_ =? 0)%nat.
  { intros [= <- <-]. split; [done|]. apply Hmarked. }
  destruct (frames_of _) as [fr|]; [|done]. cbv zeta.
  destruct (tracker _ _ _ _) as [[[]|] g']; [|done].
  intros [= <- <-]. split; [done|]. apply Hmarked.
Qed.

(** Whatever its outcome, [solve_in_block] leaves the issued parameter
    ids, the nodes, the end points of the edges and the done markers of
    whole steps as they are, takes no block marker away, and keeps the log
    of calls made so far. *)
Theorem solve_in_block_frame parameters block parameters_id solution_roi w :
  let w' := (solve_in_block parameters block parameters_id solution_roi w).2 in
  store_frame (store w) (store w') /\ calls w `prefix_of` calls w'.
Proof using Type.
  clear roi_grow run_blockwise read_attributes.
  cbv zeta. rewrite solve_in_block_unfold. cbv zeta.
  destruct (_ =? 0)%nat; simpl.
  { split; [apply store_frame_mark, store_frame_refl|done]. }
  destruct (frames_of _) as [fr|]; simpl; [|split; [apply store_frame_refl|done]].
  destruct (tracker _ _ _ _) as [[[]|] g']; simpl.
  - split; [apply store_frame_mark, store_frame_update|by apply prefix_app_r].
  - split; [apply store_frame_refl|by apply prefix_app_r].
Qed.

(** [solve_blockwise] answers [True] only with the step marked done in
    the database, under the name made from the ids of its parameter sets:
    either the marker was there, or the scheduler succeeded and the marker
    has been written. *)
Theorem solve_blockwise_true_is_done sample parameters num_workers frames limit_to_roi
    from_scratch data_dir w w' :
  solve_blockwise sample parameters num_workers frames limit_to_roi from_scratch
    data_dir w = (Ok true, w') ->
  exists ids st1,
    mapS CandidateDatabase.get_parameters_id parameters (store w) = (Ok ids, st1) /\
    step_name_blockwise ids ∈ done_steps (store w').
Proof.
  unfold SolveBlockwise.solve_blockwise.
  unfold bindM at 1. unfold liftM at 1. destruct (index parameters 0) as [p0|]; [|done].
  unfold bindM at 1. unfold liftM at 1. destruct (foldM _ tt parameters) as [[]|]; [|done].
  unfold bindM at 1. unfold liftM at 1.
  destruct (read_attributes data_dir sample) as [attributes|]; [|done].
  unfold bindM at 1. unfold liftM at 1.
  destruct (attribute attributes "resolution") as [voxel_size|]; [|done].
  unfold bindM at 1. unfold liftM at 1.
  destruct (attribute attributes "shape") as [shape|]; [|done].
  unfold bindM at 1. unfold liftM at 1.
  destruct (attribute attributes "offset") as [offset|]; [|done].
  unfold bindM at 1. unfold on_store at 1.
  destruct (mapS CandidateDatabase.get_parameters_id parameters (store w))
    as [[ids|] st1] eqn:Hids; [|done].
  unfold bindM at 1.
  destruct ((if from_scratch
             then on_store (forM ids CandidateDatabase.reset_selection)
             else retM ()) {| store := st1; calls := calls w |}) as [[[]|] w2]; [|done].
  unfold bindM at 1. unfold on_store at 1.
  unfold daisy_check_functions.check_function_all_blocks at 1.
  cbv beta iota zeta.
  intros Hrun. exists ids, st1. split; [done|]. revert Hrun.
  case_bool_decide as Hdone.
  { unfold retM. intros [= <-]. exact Hdone. }
  unfold bindM at 1. unfold call at 1. cbn [store calls].
  unfold bindM at 1.
  destruct (run_blockwise _ _ _ _ _ _ _) as [[success|] w3]; [|done].
  destruct success.
  - unfold bindM, on_store, daisy_check_functions.write_done_all_blocks, retM.
    intros [= <-]. simpl. set_solver.
  - unfold bindM, retM. done.
Qed.

End orchestrator_facts.

(** ** solve_in_block: the graph handed to the tracker *)

(** The graph that [solve_in_block] reads for a block and frees of
    dangling nodes is a well-formed graph in which every node has a frame
    't'; so every edge of it joins two nodes with a frame. *)
Theorem block_graph_has_frames read_roi parameters_id st :
  let d := SharedSubgraph.digraph (SolveBlockwise.block_graph read_roi parameters_id st) in
  DiGraph.wf d /\
  (forall nd, nd ∈ DiGraph.nodes d -> is_Some (nd.2 !! "t")) /\
  (forall u v, (u, v) ∈ DiGraph.edge_keys d ->
     exists du dv, (u, du) ∈ DiGraph.nodes d /\ (v, dv) ∈ DiGraph.nodes d /\
                   is_Some (du !! "t") /\ is_Some (dv !! "t")).
Proof.
  cbv zeta. unfold SolveBlockwise.block_graph. cbv zeta.
  set (g := CandidateDatabase.get_graph _ _ _). simpl.
  assert (DiGraph.wf (SharedSubgraph.digraph g)) as Hwf.
  { subst g. unfold CandidateDatabase.get_graph. simpl.
    apply wf_add_edges_from, wf_add_nodes_from, wf_empty. }
  set (d := DiGraph.remove_nodes_from _ _).
  assert (DiGraph.wf d) as Hwfd by by apply wf_remove_nodes_from.
  assert (forall nd, nd ∈ DiGraph.nodes d -> is_Some (nd.2 !! "t")) as Hframes.
  { intros nd. subst d. rewrite nodes_remove_nodes_from.
    intros [Hkeep Hin]%list_elem_of_filter.
    destruct (nd.2 !! "t") eqn:Ht; [done|]. destruct Hkeep.
    unfold SolveBlockwise.dangling_nodes. apply list_elem_of_fmap.
    exists nd. split; [done|]. by apply list_elem_of_filter. }
  split; [done|]. split; [done|].
  intros u v Huv. destruct Hwfd as (_ & _ & Hends).
  destruct (Hends u v Huv) as [Hu Hv].
  apply list_elem_of_fmap in Hu as ([u' du] & -> & Hu).
  apply list_elem_of_fmap in Hv as ([v' dv] & -> & Hv).
  exists du, dv. split; [done|]. split; [done|].
  split; [apply (Hframes _ Hu)|apply (Hframes _ Hv)].
Qed.

(** Parameter sets with different ids write their selection under
    different attributes, none of which is one of the two distance
    attributes read along with them. *)
Theorem selected_keys_distinct parameters_id :
  NoDup parameters_id ->
  NoDup (SolveBlockwise.selected_keys_of parameters_id
         ++ ["prediction_distance"; "distance"]).
Proof.
  intros Hnd. apply NoDup_app. split; [|split].
  - unfold SolveBlockwise.selected_keys_of.
    apply (NoDup_fmap_2_strong (fun pid : Z => "selected_" +:+ pretty pid)); [|done].
    intros a b _ _ Heq. simpl in Heq. injection Heq as Heq. by apply (inj pretty).
  - unfold SolveBlockwise.selected_keys_of.
    intros k (pid & <- & _)%list_elem_of_In%in_map_iff Hin.
    apply elem_of_cons in Hin as [Hin|Hin%list_elem_of_singleton]; discriminate Hin.
  - apply NoDup_ListNoDup. repeat constructor; simpl; intuition discriminate.
Qed.

Lemma selected_keys_distinct_witness :
  NoDup [3; 5] /\
  NoDup (SolveBlockwise.selected_keys_of [3; 5] ++ ["prediction_distance"; "distance"]).
Proof.
  assert (NoDup [3; 5]) as Hnd.
  { apply NoDup_ListNoDup. repeat constructor; simpl; lia. }
  split; [exact Hnd|]. apply (selected_keys_distinct [3; 5]). exact Hnd.
Defined.

(** ** The example store as an instance *)

Lemma solve_blockwise_checks_parameters_witness :
  SolveBlockwise.solve_blockwise example_hash example_intersect example_grow
    example_run_blockwise example_tracker example_read_attributes
    "sample" [] 8 None None false "../01_data" example_world
  = (Err IndexError, example_world) /\
  SolveBlockwise.solve_blockwise example_hash example_intersect example_grow
    example_run_blockwise example_tracker example_read_attributes
    "sample" [example_parameters "noop"; config_parameters_small] 8 None None false
    "../01_data" example_world
  = (Err AssertionError, example_world).
Proof.
  split.
  - apply (solve_blockwise_checks_parameters example_hash example_intersect example_grow
             example_run_blockwise example_tracker example_read_attributes
             "sample" [] 8 None None false "../01_data" example_world).
    reflexivity.
  - apply (solve_blockwise_checks_parameters example_hash example_intersect example_grow
             example_run_blockwise example_tracker example_read_attributes
             "sample" [example_parameters "noop"; config_parameters_small] 8 None None
             false "../01_data" example_world)
      with (p0 := example_parameters "noop") (p := config_parameters_small).
    + reflexivity.
    + apply list_elem_of_further, list_elem_of_here.
    + left. discriminate.
Defined.

Lemma solve_blockwise_needs_attributes_witness :
  SolveBlockwise.solve_blockwise example_hash example_intersect example_grow
    example_run_blockwise example_tracker example_no_attributes
    "sample" [example_parameters "noop"] 8 None None false "../01_data" example_world
  = (Err FileNotFoundError, example_world) /\
  SolveBlockwise.solve_blockwise example_hash example_intersect example_grow
    example_run_blockwise example_tracker example_short_attributes
    "sample" [example_parameters "noop"] 8 None None false "../01_data" example_world
  = (Err KeyError, example_world).
Proof.
  assert (forall p, p ∈ [example_parameters "noop"] ->
            block_size p = block_size (example_parameters "noop") /\
            context p = context (example_parameters "noop")) as Hsame.
  { intros p Hp. apply list_elem_of_singleton in Hp. by rewrite Hp. }
  split.
  - apply (solve_blockwise_needs_attributes example_hash example_intersect example_grow
             example_run_blockwise example_tracker example_no_attributes
             "sample" [example_parameters "noop"] 8 None None false "../01_data"
             example_world (example_parameters "noop")); [reflexivity|exact Hsame|].
    reflexivity.
  - eapply (solve_blockwise_needs_attributes example_hash example_intersect example_grow
              example_run_blockwise example_tracker example_short_attributes
              "sample" [example_parameters "noop"] 8 None None false "../01_data"
              example_world (example_parameters "noop")); [reflexivity|exact Hsame| |].
    + reflexivity.
    + right. right. vm_compute. reflexivity.
Defined.

Lemma solve_in_block_tracker_fails_witness :
  SolveBlockwise.solve_in_block example_hash example_intersect example_failing_tracker
    [example_parameters "noop"] example_wide_block [1] None example_world
  = (Err RuntimeError, {| store := example_store; calls := [CallTrack 3 2] |}).
Proof.
  apply (solve_in_block_tracker_fails example_hash example_intersect
           example_failing_tracker [example_parameters "noop"] example_wide_block [1]
           None example_world (0, 2) RuntimeError
           (SolveBlockwise.block_graph (read_roi example_wide_block) [1] example_store)).
  - vm_compute. lia.
  - vm_compute. reflexivity.
  - reflexivity.
Defined.

Lemma solve_in_block_marks_block_witness :
  exists z w',
    SolveBlockwise.solve_in_block example_hash example_intersect example_tracker
      [example_parameters "noop"] example_wide_block [1] None example_world
    = (Ok z, w') /\
    z = 0 /\
    on_store (daisy_check_functions.check_function example_wide_block
                (SolveBlockwise.step_name_blockwise example_hash [1])) w' = (Ok true, w').
Proof.
  eexists _, _. split; [vm_compute; reflexivity|].
  eapply (solve_in_block_marks_block example_hash example_intersect example_tracker
            [example_parameters "noop"] example_wide_block [1] None example_world).
  vm_compute. reflexivity.
Defined.

Lemma solve_blockwise_true_is_done_witness :
  exists ids st1,
    SolveBlockwise.mapS CandidateDatabase.get_parameters_id [example_parameters "noop"]
      example_store = (Ok ids, st1) /\
    SolveBlockwise.step_name_blockwise example_hash ids ∈ done_steps example_store.
Proof.
  apply (solve_blockwise_true_is_done example_hash example_intersect example_grow
           example_run_blockwise example_tracker example_read_attributes
           "sample" [example_parameters "noop"] 8 None None false "../01_data"
           example_world example_world).
  vm_compute. reflexivity.
Defined.

(** ** is_close_to_roi_border: the distance and the time axis *)

Lemma is_close_loop_mono d1 d2 begin end_ obj dims :
  (d1 <= d2)%Q ->
  is_close_loop d1 begin end_ obj dims = Ok true ->
  is_close_loop d2 begin end_ obj dims = Ok true.
Proof.
  intros Hle. induction dims as [|[i dim] dims IH]; [done|]. cbn [is_close_loop].
  destruct (getitem obj dim) as [v|]; simpl; [|done].
  destruct (index begin i) as [b|]; simpl; [|done].
  destruct (index end_ i) as [e|]; simpl; [|done].
  destruct (num_of v) as [p|]; simpl; [|done].
  destruct (num_of_coord e) as [hi|]; simpl; [|done].
  destruct (Qle_bool hi (p + d1)) eqn:Hhi1.
  { intros _. apply Qle_bool_iff in Hhi1.
    assert (Qle_bool hi (p + d2) = true) as ->; [|done]. apply Qle_bool_iff. lra. }
  destruct (num_of_coord b) as [lo|]; simpl; [|done].
  unfold Qlt_bool.
  destruct (Qle_bool hi (p + d2)); [done|].
  destruct (Qle_bool lo (p - d1)) eqn:Hlo1; simpl.
  - destruct (Qle_bool lo (p - d2)); simpl; [exact IH|done].
  - intros _. apply not_true_iff_false in Hlo1. rewrite Qle_bool_iff in Hlo1.
    assert (Qle_bool lo (p - d2) = false) as ->; [|done].
    apply not_true_iff_false. rewrite Qle_bool_iff. lra.
Qed.

(** A node that is close to the border for one distance is close for
    every larger distance, with the same region and the same node. *)
Theorem is_close_monotone roi distance1 distance2 d1 d2 obj :
  resolve_distance distance1 = Ok d1 ->
  resolve_distance distance2 = Ok d2 ->
  (d1 <= d2)%Q ->
  is_close_to_roi_border roi distance1 obj = Ok true ->
  is_close_to_roi_border roi distance2 obj = Ok true.
Proof.
  unfold is_close_to_roi_border. intros -> -> Hle.
  unfold mbind, res_bind. cbv beta iota zeta.
  by apply is_close_loop_mono.
Qed.

Lemma is_close_monotone_witness :
  resolve_distance (max_cell_move (example_parameters "noop")) = Ok 35%Q /\
  resolve_distance (DistNum 45) = Ok 45%Q /\
  (35 <= 45)%Q /\
  is_close_to_roi_border (TrackGraph.roi example_track_graph)
    (max_cell_move (example_parameters "noop")) (example_node 1 100 180 100) = Ok true /\
  is_close_to_roi_border (TrackGraph.roi example_track_graph)
    (DistNum 45) (example_node 1 100 180 100) = Ok true.
Proof.
  assert (resolve_distance (max_cell_move (example_parameters "noop")) = Ok 35%Q) as Hd
    by (vm_compute; reflexivity).
  assert (is_close_to_roi_border (TrackGraph.roi example_track_graph)
            (max_cell_move (example_parameters "noop")) (example_node 1 100 180 100)
          = Ok true) as Hclose by (vm_compute; reflexivity).
  split; [exact Hd|]. split; [reflexivity|]. split; [done|]. split; [exact Hclose|].
  apply (is_close_monotone (TrackGraph.roi example_track_graph)
           (max_cell_move (example_parameters "noop")) (DistNum 45) 35 45
           (example_node 1 100 180 100)).
  - exact Hd.
  - reflexivity.
  - done.
  - exact Hclose.
Defined.

(** Only space counts: the answer of [is_close] depends neither on the
    frame of the node nor on the extent of the region in time. *)
Theorem is_close_ignores_time ot ot' st st' offset shape distance obj frame :
  is_close_to_roi_border (Roi.mk (ot :: offset) (st :: shape)) distance
    (<["t" := frame]> obj)
  = is_close_to_roi_border (Roi.mk (ot' :: offset) (st' :: shape)) distance obj.
Proof.
  unfold is_close_to_roi_border, Roi.get_begin, Roi.get_end. simpl.
  destruct (resolve_distance distance) as [dist|]; simpl; [|done].
  unfold getitem. by rewrite !lookup_insert_ne.
Qed.

(** ** get_sample_from_setup: where the number has to stand *)











(** ** normalize: what it needs and what it adds *)

Section normalize_facts.
Variable iinfo_max : PyVal -> res Q.
Local Abbreviation normalize := (Predict.normalize iinfo_max).

(** Called without [data_config], as its default allows, [normalize]
    raises [TypeError] for the default normalization, and it can only
    succeed for the type "minmax", which reads its bounds from the
    configuration. *)
Theorem normalize_without_data_config file_source config raw :
  (Predict.normalization (Predict.predict config) = None ->
   normalize file_source config raw None = Err TypeError) /\
  (forall pipeline,
     normalize file_source config raw None = Ok pipeline ->
     exists n, Predict.normalization (Predict.predict config) = Some n /\
               Predict.type n = "minmax").
Proof.
  unfold Predict.normalize, Predict.default_normalization, Predict.stat, Predict.stats_of.
  split.
  - by intros ->.
  - intros pipeline. destruct (Predict.normalization (Predict.predict config)) as [n|];
      [|done].
    repeat case_bool_decide; try done. intros _. by exists n.
Qed.

(** A successful [normalize] returns the pipeline it was given followed by
    one or two new nodes, all of which work on the array [raw]. *)
Theorem normalize_extends file_source config raw data_config pipeline :
  normalize file_source config raw data_config = Ok pipeline ->
  exists added,
    pipeline = file_source ++ added /\
    (1 <= length added <= 2)%nat /\
    Forall (fun node => Predict.array_of node = raw) added.
Proof.
  unfold Predict.normalize, Predict.default_normalization.
  assert (forall added,
            (1 <= length added <= 2)%nat ->
            Forall (fun node => Predict.array_of node = raw) added ->
            Ok (file_source ++ added) = Ok pipeline ->
            exists added,
              pipeline = file_source ++ added /\
              (1 <= length added <= 2)%nat /\
              Forall (fun node => Predict.array_of node = raw) added) as Hdone.
  { intros added Hlen Hall [= <-]. by exists added. }
  destruct (Predict.normalization (Predict.predict config)) as [n|].
  - repeat case_bool_decide; try done;
      repeat match goal with
             | |- (?m ≫= _) = Ok _ -> _ => destruct m; simpl; [|done]
             end;
      apply Hdone; simpl; (lia || by repeat constructor).
  - repeat match goal with
           | |- (?m ≫= _) = Ok _ -> _ => destruct m; simpl; [|done]
           end.
    apply Hdone; simpl; (lia || by repeat constructor).
Qed.

End normalize_facts.

Lemma normalize_without_data_config_witness :
  Predict.normalize example_iinfo_max [] (example_predict_config None) "RAW" None
  = Err TypeError /\
  exists n, Predict.normalization
              (Predict.predict (example_predict_config (Some example_minmax))) = Some n /\
            Predict.type n = "minmax".
Proof.
  split.
  - apply (normalize_without_data_config example_iinfo_max [] (example_predict_config None)
             "RAW"). reflexivity.
  - eapply (normalize_without_data_config example_iinfo_max []
              (example_predict_config (Some example_minmax)) "RAW").
    vm_compute. reflexivity.
Defined.

Lemma normalize_extends_witness :
  exists added,
    [Predict.Clip "RAW" (VFloat 1000) (VInt 15000);
     Predict.NormalizeMinMax "RAW" (VInt 2000) (VInt 7500) (Some false)]
    = [] ++ added /\
    (1 <= length added <= 2)%nat /\
    Forall (fun node => Predict.array_of node = "RAW") added.
Proof.
  apply (normalize_extends example_iinfo_max []
           (example_predict_config (Some example_minmax)) "RAW" None).
  vm_compute. reflexivity.
Defined.

(** ** greedy_track: an edge is only turned down for shorter ones *)

Lemma greedy_loop_selected_from g selected_key uns0 es st st' k :
  (forall k, k ∈ DiGraph.edge_keys uns0 -> k ∈ DiGraph.edge_keys g) ->
  greedy_inv g selected_key uns0 st ->
  foldM (greedy_step selected_key) st es = Ok st' ->
  k ∈ DiGraph.edge_keys (selected st') ->
  k ∈ DiGraph.edge_keys (selected st) \/ k ∈ es.*1.
Proof.
  intros Hsub. revert st. induction es as [|e es IH]; intros st Inv; simpl.
  - intros [= <-]. by left.
  - destruct (greedy_step selected_key st e) as [st1|] eqn:Hstep; simpl; [|done].
    intros Hloop Hk.
    pose proof (greedy_step_inv g selected_key uns0 Hsub st e st1 Inv Hstep) as Inv1.
    destruct (IH st1 Inv1 Hloop Hk) as [Hk1|Hk1]; [|right; set_solver].
    destruct (greedy_step_cases g selected_key uns0 Hsub st e st1 Inv Hstep)
      as [[-> _]|(_ & Hsel & _)]; [by left|].
    rewrite Hsel in Hk1. set_solver.
Qed.

Lemma two_of_NoDup {A} (l : list A) :
  NoDup l -> (2 <= length l)%nat -> exists a b, a ∈ l /\ b ∈ l /\ a ≠ b.
Proof.
  destruct l as [|a [|b l]]; simpl; try lia. intros Hnd _.
  exists a, b. split; [set_solver|]. split; [set_solver|].
  apply NoDup_cons in Hnd as [Hnd _]. set_solver.
Qed.

(** The greedy choice is never undercut: when a candidate edge between two
    nodes that passed the threshold is not selected, this is because of
    selected edges that are not longer - one that leaves the same source,
    or two that enter the same target. *)
Theorem greedy_rejected_for_shorter g selected_key metric node_threshold g' u v d q :
  DiGraph.wf g ->
  selected_key ≠ metric ->
  greedy_track g selected_key metric node_threshold = Ok g' ->
  ((u, v), d) ∈ DiGraph.edges g ->
  ~ below_threshold g node_threshold u ->
  ~ below_threshold g node_threshold v ->
  getnum d metric = Ok q ->
  edge_flag g' (u, v) selected_key ≠ Some (VBool true) ->
  let shorter (e : (Z * Z) * gmap string PyVal) :=
    e ∈ DiGraph.edges g' /\ flag_is_true selected_key e.2 /\
    exists q', getnum e.2 metric = Ok q' /\ (q' <= q)%Q in
  (exists e, shorter e /\ e.1.1 = u) \/
  (exists e1 e2, shorter e1 /\ shorter e2 /\ e1.1 ≠ e2.1 /\ e1.1.2 = v /\ e2.1.2 = v).
Proof.
  intros Hwf Hne Htrack Hd Hu Hv Hq Hflag shorter.
  assert ((u, v) ∈ DiGraph.edge_keys g) as Huv.
  { apply list_elem_of_fmap. by exists ((u, v), d). }
  unfold greedy_track in Htrack.
  destruct (DiGraph.number_of_nodes g =? 0)%nat eqn:Hn.
  { apply Nat.eqb_eq in Hn. destruct Hwf as (_ & _ & Hends).
    destruct (Hends u v Huv) as [Hin _].
    unfold DiGraph.node_ids, DiGraph.number_of_nodes in *.
    destruct (DiGraph.nodes g); [by apply elem_of_nil in Hin|done]. }
  destruct (greedy_run g selected_key metric node_threshold) as [st|] eqn:Hrun;
    simpl in Htrack; [|done].
  injection Htrack as <-.
  unfold greedy_run in Hrun. rewrite (copy_of_wf g Hwf) in Hrun.
  destruct (remove_below_threshold _ _) as [uns0|] eqn:Hth; simpl in Hrun; [|done].
  destruct (sorted_edges _ _) as [es|] eqn:Hes; simpl in Hrun; [|done].
  pose proof (remove_below_threshold_spec g node_threshold uns0 Hth) as Huns.
  assert (forall k, k ∈ DiGraph.edge_keys uns0 -> k ∈ DiGraph.edge_keys g) as Hsub.
  { intros k Hk. by apply Huns. }
  pose proof (greedy_inv_init g selected_key uns0 Hsub) as Inv0.
  pose proof (greedy_loop_inv g selected_key uns0 Hsub es _ st Inv0 Hrun) as Inv.
  set (g0 := DiGraph.set_edge_attributes g (VBool false) selected_key) in *.
  set (st0 := mk_greedy g0 DiGraph.empty uns0) in *.
  unfold sorted_edges in Hes.
  destruct (mapM _ _) as [keyed|] eqn:Hkeyed; simpl in Hes; [|done].
  injection Hes as <-. apply keyed_edges in Hkeyed as [Hl Hnum].
  set (d0 := <[selected_key := VBool false]> d).
  assert (exists q0, (q0, ((u, v), d0)) ∈ sort_by_key keyed) as [q0 Hk0].
  { assert (((u, v), d0) ∈ keyed.*2) as Hin.
    { rewrite Hl. subst g0; simpl. apply list_elem_of_In, in_map_iff.
      exists ((u, v), d). split; [done|]. by apply list_elem_of_In. }
    apply list_elem_of_fmap in Hin as ([q0 e] & -> & Hin).
    exists q0. by rewrite sort_by_key_perm. }
  assert (Forall (fun qe => getnum qe.2.2 metric = Ok qe.1) (sort_by_key keyed)) as Hnum'.
  { by rewrite sort_by_key_perm. }
  assert (forall qe, qe ∈ sort_by_key keyed -> exists d1,
            (qe.2.1, d1) ∈ DiGraph.edges g /\ getnum d1 metric = Ok qe.1) as Horig.
  { intros [q1 e1] Hin. pose proof Hin as Hin2.
    rewrite sort_by_key_perm in Hin2.
    assert (e1 ∈ keyed.*2) as He1 by (apply list_elem_of_fmap; by exists (q1, e1)).
    rewrite Hl in He1. subst g0; simpl in He1.
    apply list_elem_of_In, in_map_iff in He1 as ([k1 d1] & <- & He1).
    exists d1. split; [by apply list_elem_of_In|].
    rewrite Forall_forall in Hnum'. specialize (Hnum' _ Hin). simpl in *.
    unfold getnum, getitem in *. by rewrite lookup_insert_ne in Hnum'. }
  assert (q0 = q) as ->.
  { destruct (Horig _ Hk0) as (d1 & Hin1 & Hq1). simpl in *.
    destruct Hwf as (_ & Hnd' & _).
    assert (d1 = d) as -> by (eapply NoDup_fst_unique; [exact Hnd'|done|done]).
    congruence. }
  apply list_elem_of_split in Hk0 as (l1 & l2 & Hsplit).
  pose proof (sort_by_key_sorted keyed) as Hsorted. rewrite Hsplit in Hsorted.
  rewrite Hsplit, fmap_app, foldM_app in Hrun.
  destruct (foldM (greedy_step selected_key) st0 l1.*2) as [sta|] eqn:Hfirst;
    simpl in Hrun; [|done].
  change (foldM (greedy_step selected_key) sta (((u, v), d0) :: l2.*2) = Ok st) in Hrun.
  pose proof (greedy_loop_inv g selected_key uns0 Hsub _ _ sta Inv0 Hfirst) as Inva.
  (* the edges selected so far are flagged in the result and not longer *)
  assert (forall k, k ∈ DiGraph.edge_keys (selected sta) ->
            exists e, shorter e /\ e.1 = k) as Hshort.
  { intros k Hk.
    destruct (greedy_loop_selected_from g selected_key uns0 _ st0 sta k Hsub Inv0 Hfirst Hk)
      as [Hnil|Hin].
    { simpl in Hnil. by apply elem_of_nil in Hnil. }
    apply list_elem_of_fmap in Hin as (e1 & -> & (qe & -> & Hqe)%list_elem_of_fmap).
    destruct (Horig qe) as (d1 & Hin1 & Hq1); [rewrite Hsplit; set_solver|].
    pose proof (StronglySorted_app_1_elem_of _ _ _ qe (q, ((u, v), d0)) Hsorted Hqe
                  ltac:(set_solver)) as Hle. simpl in Hle.
    pose proof (greedy_loop_grows g selected_key uns0 Hsub _ sta st qe.2.1 Inva Hrun Hk)
      as Hsel.
    exists (qe.2.1, <[selected_key := VBool true]> d1).
    split; [|done]. split; [|split].
    - rewrite (inv_edges Inv). unfold with_flags.
      apply list_elem_of_In, in_map_iff. exists (qe.2.1, d1).
      split; [|by apply list_elem_of_In]. simpl.
      by rewrite (bool_decide_eq_true_2 _ Hsel).
    - unfold flag_is_true. simpl. apply lookup_insert_eq.
    - exists qe.1. split; [|done]. simpl. unfold getnum, getitem in *.
      by rewrite lookup_insert_ne. }
  assert ((u, v) ∈ DiGraph.edge_keys uns0) as Hcand.
  { by apply (remove_below_threshold_keeps g node_threshold uns0 (u, v)). }
  destruct (greedy_loop_saturates g selected_key uns0 Hsub _ st0 sta Inv0
              ltac:(by left) Hfirst) as [Hopen _].
  destruct (Hopen _ Hcand) as [Hstill|Hsat].
  - (* still a candidate: the loop selects it *)
    exfalso. apply Hflag. cbn [foldM] in Hrun.
    destruct (greedy_step selected_key sta ((u, v), d0)) as [stb|] eqn:Hstep;
      simpl in Hrun; [|done].
    pose proof (greedy_step_inv g selected_key uns0 Hsub sta _ stb Inva Hstep) as Invb.
    assert ((u, v) ∈ DiGraph.edge_keys (selected stb)) as Hselb.
    { destruct (greedy_step_cases g selected_key uns0 Hsub sta _ stb Inva Hstep)
        as [[_ Hout]|(_ & Hsel & _)]; [by destruct Hout|].
      rewrite Hsel. set_solver. }
    pose proof (greedy_loop_grows g selected_key uns0 Hsub _ stb st (u, v) Invb Hrun Hselb)
      as Hsel.
    destruct (graph st) as [ns es'] eqn:Hg.
    pose proof (inv_edges Inv) as Hedges. rewrite Hg in Hedges. simpl in Hedges.
    rewrite Hedges, edge_flag_with_flags by done.
    by rewrite bool_decide_eq_true_2.
  - destruct Hsat as [[w Hw]|Hdeg]; simpl in *.
    + left. destruct (Hshort _ Hw) as (e & He & Hk). exists e. split; [done|].
      by rewrite Hk.
    + right. unfold DiGraph.in_degree in Hdeg.
      destruct (two_of_NoDup (DiGraph.in_edges (selected sta) v)) as (k1 & k2 & H1 & H2 & Hdiff).
      { apply NoDup_filter, (inv_sel_nodup Inva). }
      { done. }
      apply list_elem_of_filter in H1 as [Hv1 H1].
      apply list_elem_of_filter in H2 as [Hv2 H2].
      destruct (Hshort _ H1) as (e1 & He1 & Hk1).
      destruct (Hshort _ H2) as (e2 & He2 & Hk2).
      exists e1, e2. rewrite Hk1, Hk2. done.
Qed.

Lemma scenario_fork_wf : DiGraph.wf scenario_fork.
Proof.
  unfold DiGraph.wf, DiGraph.node_ids, DiGraph.edge_keys; simpl.
  split; [|split].
  - apply NoDup_ListNoDup. repeat constructor; simpl; unfold a0, b1, c1; lia.
  - apply NoDup_ListNoDup. repeat constructor; simpl; unfold a0, b1, c1; intuition congruence.
  - intros u v Huv. set_solver.
Qed.

Lemma not_below_without_threshold g n : ~ below_threshold g None n.
Proof. by intros (th & d & score & Hact & _). Qed.

Lemma greedy_rejected_for_shorter_witness :
  DiGraph.wf scenario_fork /\
  greedy_track scenario_fork "selected" "distance" None = Ok scenario_fork_result /\
  ((b1, c1), {[ "distance" := VFloat 3 ]}) ∈ DiGraph.edges scenario_fork /\
  edge_flag scenario_fork_result (b1, c1) "selected" ≠ Some (VBool true) /\
  let shorter (e : (Z * Z) * gmap string PyVal) :=
    e ∈ DiGraph.edges scenario_fork_result /\ flag_is_true "selected" e.2 /\
    exists q', getnum e.2 "distance" = Ok q' /\ (q' <= 3)%Q in
  (exists e, shorter e /\ e.1.1 = b1) \/
  (exists e1 e2, shorter e1 /\ shorter e2 /\ e1.1 ≠ e2.1 /\ e1.1.2 = c1 /\ e2.1.2 = c1).
Proof.
  assert (((b1, c1), {[ "distance" := VFloat 3 ]}) ∈ DiGraph.edges scenario_fork) as Hin.
  { apply list_elem_of_further, list_elem_of_here. }
  assert (edge_flag scenario_fork_result (b1, c1) "selected" ≠ Some (VBool true)) as Hflag.
  { vm_compute. discriminate. }
  split; [apply scenario_fork_wf|]. split; [vm_compute; reflexivity|].
  split; [exact Hin|]. split; [exact Hflag|].
  apply (greedy_rejected_for_shorter scenario_fork "selected" "distance" None
           scenario_fork_result b1 c1 {[ "distance" := VFloat 3 ]} 3).
  - apply scenario_fork_wf.
  - discriminate.
  - vm_compute. reflexivity.
  - exact Hin.
  - apply not_below_without_threshold.
  - apply not_below_without_threshold.
  - vm_compute. reflexivity.
  - exact Hflag.
Defined.
